(** * Tempus WR history viewer: the data pipeline of [App.tsx]

    A shallow embedding of the pure helpers of the viewer (CSV decoder,
    Steam identity resolver, segment classifier, duration parser) and of the
    [timeline] reconstruction (the [useMemo] of [App]), followed by the
    properties of each component.

    Conventions of the embedding.
    - A JavaScript string is a [string]; each character stands for one code
      unit in the range 0..255, so the white space of [trim] and of the
      regular expression class [\s] is 9..13, 32 and 160.
    - [x?: string] and a property read on a decoded row, which may come back
      [undefined], are [option string].
    - A [number] holding a duration is an exact rational, [Infinity],
      [-Infinity] or [NaN]: binary rounding is not modelled.  A time value
      returned by [Date.parse] is an integer of milliseconds, [None] for
      [NaN].
    - The object built for a CSV row is a finite map from header to cell. *)

From Stdlib Require Import ZArith QArith Qreduction Lia Lqa Sorted Ascii.
From stdpp Require Import base option list gmap strings pretty.

(** ** JavaScript strings *)

Module JS.

(** [WhiteSpace] and [LineTerminator] code units below 256: the characters
    removed by [String.prototype.trim] and matched by [\s]. *)
Definition isWhiteSpace (c : ascii) : bool :=
  match c with
  | "009" | "010" | "011" | "012" | "013" | " " | "160" => true
  | _ => false
  end%char.

(** [\d] *)
Definition isDigit (c : ascii) : bool :=
  match c with
  | "0" | "1" | "2" | "3" | "4" | "5" | "6" | "7" | "8" | "9" => true
  | _ => false
  end%char.

(** [.] without the [s] flag: anything but a line terminator. *)
Definition isDot (c : ascii) : bool :=
  match c with
  | "010" | "013" => false
  | _ => true
  end%char.

Definition digitValue (c : ascii) : N := (N_of_ascii c - 48)%N.

Fixpoint trimStart (s : string) : string :=
  match s with
  | String c s' => if isWhiteSpace c then trimStart s' else s
  | EmptyString => EmptyString
  end.

Fixpoint trimEnd (s : string) : string :=
  match s with
  | String c s' =>
      match trimEnd s' with
      | EmptyString => if isWhiteSpace c then EmptyString else String c EmptyString
      | t => String c t
      end
  | EmptyString => EmptyString
  end.

Definition trim (s : string) : string := trimEnd (trimStart s).

(** [toLowerCase] on one code unit: A..Z and the Latin-1 capitals. *)
Definition lowerChar (c : ascii) : ascii :=
  let n := N_of_ascii c in
  if ((65 <=? n) && (n <=? 90))%N then ascii_of_N (n + 32)
  else if ((192 <=? n) && (n <=? 222) && negb (n =? 215))%N then ascii_of_N (n + 32)
  else c.

Fixpoint toLowerCase (s : string) : string :=
  match s with
  | String c s' => String (lowerChar c) (toLowerCase s')
  | EmptyString => EmptyString
  end.

(** Equality of characters under the [i] flag.  Without the [u] flag a
    pattern letter A..Z or a..z only matches its own two cases. *)
Definition eqChar_i (p c : ascii) : bool :=
  let up (x : ascii) :=
    let n := N_of_ascii x in
    if ((97 <=? n) && (n <=? 122))%N then (n - 32)%N else n in
  (up p =? up c)%N.

Definition eqChar (p c : ascii) : bool := (N_of_ascii p =? N_of_ascii c)%N.

(** [s.split(sep)] for a one-character separator: never the empty list. *)
Fixpoint split (sep : ascii) (s : string) : list string :=
  match s with
  | EmptyString => [EmptyString]
  | String c s' =>
      if eqChar sep c then EmptyString :: split sep s'
      else match split sep s' with
           | p :: ps => String c p :: ps
           | [] => [String c EmptyString]
           end
  end.

Fixpoint startsWith (s p : string) {struct p} : bool :=
  match p, s with
  | EmptyString, _ => true
  | String a p', String c s' => eqChar a c && startsWith s' p'
  | String _ _, EmptyString => false
  end.

Definition endsWith (s p : string) : bool :=
  startsWith (String.rev s) (String.rev p).

(** [s.lastIndexOf(c)], -1 when [c] does not occur. *)
Fixpoint lastIndexOf (c : ascii) (s : string) : Z :=
  match s with
  | EmptyString => (-1)%Z
  | String a s' =>
      let r := lastIndexOf c s' in
      if (0 <=? r)%Z then (r + 1)%Z else if eqChar c a then 0%Z else (-1)%Z
  end.

(** [s.slice(from, to)] with the relative (negative) indices of JavaScript. *)
Definition slice (s : string) (from to : Z) : string :=
  let len := Z.of_nat (String.length s) in
  let clamp (k : Z) := if (k <? 0)%Z then Z.max (len + k) 0 else Z.min k len in
  let a := clamp from in
  let b := clamp to in
  String.substring (Z.to_nat a) (Z.to_nat (b - a)) s.

Fixpoint allChars (f : ascii -> bool) (s : string) : bool :=
  match s with
  | EmptyString => true
  | String c s' => f c && allChars f s'
  end.

(** [/^\d+$/.test(s)] *)
Definition isDigits (s : string) : bool :=
  match s with
  | EmptyString => false
  | _ => allChars isDigit s
  end.

(** The value of a string of decimal digits, as [BigInt(s)] and (up to
    rounding above 2^53) [Number.parseInt(s, 10)] compute it. *)
Definition digitsValue (s : string) : N :=
  (fix go (acc : N) (s : string) : N :=
     match s with
     | EmptyString => acc
     | String c s' => go (acc * 10 + digitValue c)%N s'
     end) 0%N s.

(** *** Fragments of regular expressions

    A matcher consumes a prefix of its input and hands what it matched and
    the rest to its continuation; when the continuation fails the matcher
    tries its next alternative, as the backtracking of a JavaScript regular
    expression does.  A pattern is written as the nesting of its parts. *)

Section Matchers.
Context {A : Type}.

(** A literal, compared with or without the [i] flag. *)
Fixpoint lit (eqc : ascii -> ascii -> bool) (p : string) (s : string)
    (k : string -> option A) : option A :=
  match p with
  | EmptyString => k s
  | String a p' =>
      match s with
      | String c s' => if eqc a c then lit eqc p' s' k else None
      | EmptyString => None
      end
  end.

(** [cls*], greedy: take one more character of the class when that leads
    to a match, stop here otherwise.  [m] is what was taken so far,
    last character first. *)
Fixpoint starFrom (cls : ascii -> bool) (m : string) (s : string)
    (k : string -> string -> option A) : option A :=
  match s with
  | String c s' =>
      if cls c then
        match starFrom cls (String c m) s' k with
        | Some r => Some r
        | None => k (String.rev m) s
        end
      else k (String.rev m) s
  | EmptyString => k (String.rev m) s
  end.

Definition star (cls : ascii -> bool) (s : string)
    (k : string -> string -> option A) : option A :=
  starFrom cls EmptyString s k.

(** [cls+] *)
Definition plus (cls : ascii -> bool) (s : string)
    (k : string -> string -> option A) : option A :=
  match s with
  | String c s' => if cls c then starFrom cls (String c EmptyString) s' k else None
  | EmptyString => None
  end.

(** [$] without the [m] flag. *)
Definition eoi (s : string) (r : A) : option A :=
  match s with
  | EmptyString => Some r
  | _ => None
  end.
End Matchers.

(** *** Numbers

    A number of the code is a double.  It is modelled by the value it
    stands for: a rational, an infinity or [NaN].  Sums, differences and
    products are exact here, where the code rounds to the nearest double,
    and [parseInt] and [parseFloat] give the exact value of the digits
    they read, which never overflows to an infinity.  What is stated of
    durations is therefore stated with the strict inequalities that the
    rounded tests of the code imply, or with a margin above the
    tolerance; what is stated of a number read from a text is stated
    below 2^53. *)

Inductive number : Type :=
  | NaN
  | PosInf
  | NegInf
  | Fin (q : Q).

Definition isNaN (x : number) : bool :=
  match x with NaN => true | _ => false end.

Definition neg (x : number) : number :=
  match x with
  | NaN => NaN
  | PosInf => NegInf
  | NegInf => PosInf
  | Fin q => Fin (Qred (- q))
  end.

(** [x + y] *)
Definition add (x y : number) : number :=
  match x, y with
  | NaN, _ | _, NaN => NaN
  | PosInf, NegInf | NegInf, PosInf => NaN
  | PosInf, _ | _, PosInf => PosInf
  | NegInf, _ | _, NegInf => NegInf
  | Fin a, Fin b => Fin (Qred (a + b))
  end.

(** [x - y] *)
Definition sub (x y : number) : number := add x (neg y).

Definition sgn (x : number) : comparison :=
  match x with
  | NaN => Eq
  | PosInf => Gt
  | NegInf => Lt
  | Fin q => (Qnum q ?= 0)%Z
  end.

(** [x * y] *)
Definition mul (x y : number) : number :=
  match x, y with
  | NaN, _ | _, NaN => NaN
  | Fin a, Fin b => Fin (Qred (a * b))
  | _, _ =>
      match sgn x, sgn y with
      | Eq, _ | _, Eq => NaN
      | Gt, Gt | Lt, Lt => PosInf
      | _, _ => NegInf
      end
  end.

(** [x < y]: false as soon as one side is [NaN]. *)
Definition lt (x y : number) : bool :=
  match x, y with
  | NaN, _ | _, NaN => false
  | _, NegInf => false
  | NegInf, _ => true
  | PosInf, _ => false
  | Fin _, PosInf => true
  | Fin a, Fin b => (Qnum a * QDen b <? Qnum b * QDen a)%Z
  end.

(** [x > y] *)
Definition gt (x y : number) : bool := lt y x.

(** [Math.max(x, y)] *)
Definition max (x y : number) : number :=
  if isNaN x || isNaN y then NaN else if lt x y then y else x.

Definition ofZ (z : Z) : number := Fin (inject_Z z).

Fixpoint span (f : ascii -> bool) (s : string) : string * string :=
  match s with
  | String c s' =>
      if f c then let '(a, b) := span f s' in (String c a, b)
      else (EmptyString, s)
  | EmptyString => (EmptyString, EmptyString)
  end.

(** An optional sign in front of a numeric literal. *)
Definition signOf (s : string) : bool * string :=
  match s with
  | String "-" r => (true, r)
  | String "+" r => (false, r)
  | _ => (false, s)
  end%char.

Definition signed (negative : bool) (x : number) : number :=
  if negative then neg x else x.

(** [parts.join(sep)] for a one-character separator. *)
Fixpoint join (sep : ascii) (parts : list string) : string :=
  match parts with
  | [] => EmptyString
  | [a] => a
  | a :: rest => a +:+ String sep (join sep rest)
  end.

(** [Number.parseInt(s, 10)]: leading white space, a sign, then the longest
    run of digits; [NaN] when there is no digit. *)
Definition parseInt (s : string) : number :=
  let '(negative, r) := signOf (trimStart s) in
  let '(ds, _) := span isDigit r in
  match ds with
  | EmptyString => NaN
  | _ => signed negative (ofZ (Z.of_N (digitsValue ds)))
  end.

(** The exponent part of a decimal literal, 0 when the text does not start
    with a complete one. *)
Definition exponentOf (s : string) : Z :=
  match s with
  | String c r =>
      if eqChar_i "e" c then
        let '(negative, r') := signOf r in
        let '(ds, _) := span isDigit r' in
        match ds with
        | EmptyString => 0%Z
        | _ => let e := Z.of_N (digitsValue ds) in if negative then (- e)%Z else e
        end
      else 0%Z
  | EmptyString => 0%Z
  end.

(** [Number.parseFloat(s)]: leading white space, then the longest prefix
    that is a [StrDecimalLiteral]. *)
Definition parseFloat (s : string) : number :=
  let '(negative, r) := signOf (trimStart s) in
  if startsWith r "Infinity" then signed negative PosInf
  else
    let '(ip, r1) := span isDigit r in
    let '(fp, r2) :=
      match r1 with
      | String "." r' => span isDigit r'
      | _ => (EmptyString, r1)
      end%char in
    match ip +:+ fp with
    | EmptyString => NaN
    | ds =>
        let m := Z.of_N (digitsValue ds) in
        let e := (exponentOf r2 - Z.of_nat (String.length fp))%Z in
        let q := if (0 <=? e)%Z then inject_Z (m * 10 ^ e)
                 else Qmake m (Z.to_pos (10 ^ (- e))) in
        signed negative (Fin (Qred q))
    end.

End JS.

Import JS.

(** A decoded row: the object filled by [row[header] = cells[index] ?? '']. *)
Abbreviation CsvRow := (gmap string string).

(** ** CSV decoder: [parseCsvRows], [parseCsv] *)

Module Csv.

(** The double quote character. *)
Definition dquote : ascii := "034".

(** The mutable locals of [parseCsvRows]. *)
Record scanState : Type := mkScan {
  rows : list (list string);
  row : list string;
  field : string;
  inQuotes : bool
}.

(** [row.some((cell) => cell.trim().length > 0)] *)
Definition hasContent (row : list string) : bool :=
  existsb (fun cell => negb (String.length (trim cell) =? 0)%nat) row.

(** The end of a record: the pending field closes the row, and the row is
    kept when one of its cells is not blank. *)
Definition endRecord (rows : list (list string)) (row : list string) (field : string)
    : list (list string) :=
  let row := row ++ [field] in
  if hasContent row then rows ++ [row] else rows.

(** The body of the [for] loop, from position [i] on; [text] is what is
    left of the input at [i].  An escaped quote consumes two characters
    ([i++; continue]). *)
Fixpoint scan (text : string) (st : scanState) : scanState :=
  match text with
  | EmptyString => st
  | String ch rest =>
      if inQuotes st then
        if eqChar ch dquote then
          match rest with
          | String next rest' =>
              if eqChar next dquote then
                scan rest' (mkScan (rows st) (row st) (field st +:+ String dquote "") true)
              else scan rest (mkScan (rows st) (row st) (field st) false)
          | EmptyString => scan rest (mkScan (rows st) (row st) (field st) false)
          end
        else scan rest (mkScan (rows st) (row st) (field st +:+ String ch "") true)
      else if eqChar ch dquote then
        scan rest (mkScan (rows st) (row st) (field st) true)
      else if eqChar ch "," then
        scan rest (mkScan (rows st) (row st ++ [field st]) "" false)
      else if eqChar ch "013" then
        scan rest st
      else if eqChar ch "010" then
        scan rest (mkScan (endRecord (rows st) (row st) (field st)) [] "" false)
      else scan rest (mkScan (rows st) (row st) (field st +:+ String ch "") false)
  end.

Definition scanStart : scanState := mkScan [] [] "" false.

(** After the loop: an open quote is closed, and a pending record is
    flushed. *)
Definition finish (st : scanState) : list (list string) :=
  if (0 <? String.length (field st))%nat || (0 <? length (row st))%nat
  then endRecord (rows st) (row st) (field st)
  else rows st.

Definition parseCsvRows (text : string) : list (list string) :=
  finish (scan text scanStart).

Definition rowOf (headers cells : list string) : CsvRow :=
  foldl (fun (row : CsvRow) '(index, header) =>
           <[header := default "" (cells !! index)]> row)
        ∅ (imap pair headers).

Definition parseCsv (text : string) : list CsvRow :=
  let rows := parseCsvRows text in
  if (length rows <=? 1)%nat then []
  else match rows with
       | headers :: rest => map (rowOf headers) rest
       | [] => []
       end.

(** The number of physical lines of a text: a line ends at a line feed,
    and a last line need not be ended by one. *)
Fixpoint lineCount (text : string) : nat :=
  match text with
  | EmptyString => 0
  | String ch rest =>
      if eqChar ch "010" then S (lineCount rest)
      else Nat.max 1 (lineCount rest)
  end.

(** A line that holds empty fields only: commas, and the carriage return
    of a CRLF line end. *)
Definition emptyFields (line : string) : bool :=
  allChars (fun ch => eqChar ch "," || eqChar ch "013") line.

(** The state in which the loop leaves an open quote, closed. *)
Definition closeQuote (st : scanState) : scanState :=
  mkScan (rows st) (row st) (field st) false.

End Csv.

(** ** Durations: [parseTimeToSeconds] *)

(** [parts[i]] converted to a string where one is expected. *)
Definition part (parts : list string) (i : nat) : string :=
  default "undefined" (parts !! i).

(** [null] is [None]; the argument is [undefined] when the row has no
    [record_time] column. *)
Definition parseTimeToSeconds (value : option string) : option number :=
  match value with
  | None | Some EmptyString => None
  | Some value =>
      let parts := split ":" value in
      let n := length parts in
      if (n <? 2)%nat || (3 <? n)%nat then None
      else
        let seconds := parseFloat (part parts (n - 1)) in
        let minutes := parseInt (part parts (n - 2)) in
        let hours := if (n =? 3)%nat then parseInt (part parts 0) else ofZ 0 in
        if isNaN seconds || isNaN minutes || isNaN hours then None
        else Some (add (add (mul hours (ofZ 3600)) (mul minutes (ofZ 60))) seconds)
  end.

(** ** Identity resolver: [normalizeSteamId64], [parseSteamId64] *)

Module Steam.

Definition STEAM_ID64_BASE : N := 76561197960265728%N.

(** [/^\d{16,17}$/.test(s)] *)
Definition isId64 (s : string) : bool :=
  allChars isDigit s
  && ((String.length s =? 16)%nat || (String.length s =? 17)%nat).

Definition normalizeSteamId64 (value : option string) : option string :=
  match value with
  | None | Some EmptyString => None
  | Some value =>
      let trimmed := trim value in
      match trimmed with
      | EmptyString => None
      | _ => if isId64 trimmed then Some trimmed else None
      end
  end.

(** The [[U:X:Y]] branch: [None] when the branch falls through. *)
Definition parseBracket (trimmed : string) : option string :=
  if startsWith trimmed "[U:" && endsWith trimmed "]" then
    let lastColon := lastIndexOf ":" trimmed in
    if (0 <? lastColon)%Z then
      let value := slice trimmed (lastColon + 1) (-1) in
      if isDigits value
      then Some (pretty (STEAM_ID64_BASE + digitsValue value)%N)
      else None
    else None
  else None.

(** The [STEAM_X:Y:Z] branch. *)
Definition parseLegacy (trimmed : string) : option string :=
  if startsWith trimmed "STEAM_" then
    let parts :=
      split ":" (slice trimmed 6 (Z.of_nat (String.length trimmed))) in
    match parts with
    | [_; p1; p2] =>
        if isDigits p1 && isDigits p2 then
          let y := digitsValue p1 in
          let z := digitsValue p2 in
          Some (pretty (STEAM_ID64_BASE + z * 2 + y)%N)
        else None
    | _ => None
    end
  else None.

Definition parseSteamId64 (steamId : option string) : option string :=
  match steamId with
  | None | Some EmptyString => None
  | Some steamId =>
      let trimmed := trim steamId in
      match trimmed with
      | EmptyString => None
      | _ =>
          match normalizeSteamId64 (Some trimmed) with
          | Some direct => Some direct
          | None =>
              match parseBracket trimmed with
              | Some r => Some r
              | None => parseLegacy trimmed
              end
          end
      end
  end.

(** No colon in [s]. *)
Definition colonFree (s : string) : bool :=
  allChars (fun c => negb (eqChar ":" c)) s.

(** The shapes of the three encodings, on a trimmed identifier: 16 or 17
    digits; a text that starts with [[U:] and ends with a colon, digits
    and []]; [STEAM_X:Y:Z] with numeric [Y] and [Z]. *)
Definition isDirect (t : string) : Prop := isId64 t = true.

Definition isBracket (t : string) : Prop :=
  startsWith t "[U:" = true
  /\ exists a v : string, t = a +:+ ":" +:+ v +:+ "]" /\ isDigits v = true.

Definition isLegacy (t : string) : Prop :=
  exists x y z : string,
    t = "STEAM_" +:+ x +:+ ":" +:+ y +:+ ":" +:+ z
    /\ colonFree x = true /\ isDigits y = true /\ isDigits z = true.

Definition buildSteamProfileUrl (steamId64 steamId : option string) : option string :=
  let parsed :=
    match normalizeSteamId64 steamId64 with
    | Some r => Some r
    | None => parseSteamId64 steamId
    end in
  match parsed with
  | None | Some EmptyString => None
  | Some parsed => Some ("https://steamcommunity.com/profiles/" +:+ parsed)
  end.

End Steam.

(** ** Segment classifier: [getZoneInfo], [sanitizeSegmentName], [compareZones] *)

Module Zone.

Inductive ZoneKind : Type := bonus | course | segment.

Record ZoneInfo : Type := mkZone {
  id : string;
  label : string;
  kind : ZoneKind;
  order : N
}.

(** [/^Bonus\s+(\d+)/i] and [/^Course\s+(\d+)/i]: the capture. *)
Definition matchWord (word : string) (s : string) : option string :=
  lit eqChar_i word s (fun s1 =>
  plus isWhiteSpace s1 (fun _ s2 =>
  plus isDigit s2 (fun digits _ => Some digits))).

(** [/^C(\d+)\s*-\s*(.+)$/i]: the two captures. *)
Definition matchSegment (s : string) : option (string * string) :=
  lit eqChar_i "C" s (fun s1 =>
  plus isDigit s1 (fun digits s2 =>
  star isWhiteSpace s2 (fun _ s3 =>
  lit eqChar_i "-" s3 (fun s4 =>
  star isWhiteSpace s4 (fun _ s5 =>
  plus isDot s5 (fun name s6 =>
  eoi s6 (digits, name))))))).

(** [/^C(\d+)/i] *)
Definition matchSegmentIndex (s : string) : option string :=
  lit eqChar_i "C" s (fun s1 =>
  plus isDigit s1 (fun digits _ => Some digits)).

(** [/\s+First$/i] at the start of [s]. *)
Definition matchFirstSuffix (s : string) : option unit :=
  plus isWhiteSpace s (fun _ s1 =>
  lit eqChar_i "First" s1 (fun s2 =>
  eoi s2 tt)).

(** [s.replace(/\s+First$/i, '')]: the leftmost match is cut out; it runs
    to the end of the string. *)
Fixpoint removeFirstSuffix (s : string) : string :=
  match matchFirstSuffix s with
  | Some _ => EmptyString
  | None =>
      match s with
      | String c s' => String c (removeFirstSuffix s')
      | EmptyString => EmptyString
      end
  end.

Definition sanitizeSegmentName (value : string) : string :=
  let trimmed := trim value in
  trim (removeFirstSuffix trimmed).

Definition getZoneInfo (source : option string) : option ZoneInfo :=
  match source with
  | None | Some EmptyString => None
  | Some source =>
      let trimmed := trim source in
      match trimmed with
      | EmptyString => None
      | _ =>
          match matchWord "Bonus" trimmed with
          | Some digits =>
              let order := digitsValue digits in
              Some (mkZone ("bonus-" +:+ pretty order) ("Bonus " +:+ pretty order) bonus order)
          | None =>
          match matchWord "Course" trimmed with
          | Some digits =>
              let order := digitsValue digits in
              Some (mkZone ("course-" +:+ pretty order) ("Course " +:+ pretty order) course order)
          | None =>
          match matchSegment trimmed with
          | Some (digits, name) =>
              let order := digitsValue digits in
              let name := sanitizeSegmentName name in
              let label :=
                match name with
                | EmptyString => "C" +:+ pretty order
                | _ => "C" +:+ pretty order +:+ " - " +:+ name
                end in
              Some (mkZone ("segment-" +:+ pretty order) label segment order)
          | None =>
          match matchSegmentIndex trimmed with
          | Some digits =>
              let order := digitsValue digits in
              Some (mkZone ("segment-" +:+ pretty order) ("C" +:+ pretty order) segment order)
          | None => None
          end end end end
      end
  end.


Definition rank (zone : ZoneInfo) : Z :=
  match kind zone with
  | bonus => 0
  | course => 1
  | segment => 2
  end.

Definition compareZones (left right : ZoneInfo) : Z :=
  let rankDiff := (rank left - rank right)%Z in
  if (rankDiff =? 0)%Z then (Z.of_N (order left) - Z.of_N (order right))%Z
  else rankDiff.

End Zone.

(** ** Timeline reconstructor: the [timeline] memo of [App] *)

Record DataPoint : Type := mkPoint {
  row : CsvRow;
  rowIndex : nat;
  dateValue : Z;
  recordSeconds : number
}.

Record TimelinePoint : Type := mkTimelinePoint {
  point : DataPoint;
  wiped : bool;
  wipedBoundary : bool
}.

Definition epsilon : number := Fin (1 # 10000).

(** A property read where a string is expected: [undefined] is converted
    by [ToString]. *)
Definition asString (v : option string) : string := default "undefined" v.

Definition isWipeBoundaryTrigger (row : CsvRow) : bool :=
  let evidence := toLowerCase (trim (default "" (row !! "evidence"))) in
  let source := toLowerCase (trim (default "" (row !! "evidence_source"))) in
  bool_decide (evidence = "record")
  || (bool_decide (evidence = "announcement") && bool_decide (source = "irc_set")).

(** The comparator given to [points.sort]:
    [a.dateValue - b.dateValue || a.rowIndex - b.rowIndex]. *)
Definition comparePoints (a b : DataPoint) : Z :=
  let d := (dateValue a - dateValue b)%Z in
  if (d =? 0)%Z then (Z.of_nat (rowIndex a) - Z.of_nat (rowIndex b))%Z else d.

(** [Array.prototype.sort] is stable; for a consistent comparator it
    returns what a stable insertion sort returns. *)
Fixpoint insertPoint (a : DataPoint) (l : list DataPoint) : list DataPoint :=
  match l with
  | [] => [a]
  | b :: l' =>
      if (comparePoints a b <=? 0)%Z then a :: l else b :: insertPoint a l'
  end.

Definition sortPoints (l : list DataPoint) : list DataPoint :=
  foldr insertPoint [] l.

(** One iteration of the forward [for (const point of points)] loop on the
    locals [current] and [timeline]. *)
Definition forwardStep (st : option number * list TimelinePoint) (point : DataPoint)
    : option number * list TimelinePoint :=
  let '(current, timeline) := st in
  match current with
  | None =>
      (Some (recordSeconds point), timeline ++ [mkTimelinePoint point false false])
  | Some current =>
      if lt (recordSeconds point) (sub current epsilon) then
        (Some (recordSeconds point), timeline ++ [mkTimelinePoint point false false])
      else if isWipeBoundaryTrigger (row point)
              && gt (recordSeconds point) (add current epsilon) then
        (Some (recordSeconds point), timeline ++ [mkTimelinePoint point false true])
      else st
  end.

(** The locals [current] and [timeline] after the forward loop. *)
Definition forwardLoop (points : list DataPoint)
    : option number * list TimelinePoint :=
  foldl forwardStep (None, []) points.

Definition forwardPass (points : list DataPoint) : list TimelinePoint :=
  snd (forwardLoop points).

(** The new value of [maxWipeBoundary] at a point. *)
Definition nextMax (maxWipeBoundary : option number) (p : TimelinePoint) : option number :=
  if wipedBoundary p then
    match maxWipeBoundary with
    | None => Some (recordSeconds (point p))
    | Some m => Some (max m (recordSeconds (point p)))
    end
  else maxWipeBoundary.

(** [maxWipeBoundary != null && point.recordSeconds < maxWipeBoundary - epsilon] *)
Definition isWiped (maxWipeBoundary : option number) (p : TimelinePoint) : bool :=
  match maxWipeBoundary with
  | None => false
  | Some m => lt (recordSeconds (point p)) (sub m epsilon)
  end.

(** The backward loop [for (let i = timeline.length - 1; i >= 0; i--)]:
    [n] iterations are left, the next one is at index [n - 1], and
    [timeline[i]] is overwritten in place. *)
Fixpoint backwardPass (n : nat) (maxWipeBoundary : option number)
    (timeline : list TimelinePoint) : list TimelinePoint :=
  match n with
  | O => timeline
  | S i =>
      match timeline !! i with
      | Some p =>
          let maxWipeBoundary := nextMax maxWipeBoundary p in
          let wiped := isWiped maxWipeBoundary p in
          backwardPass i maxWipeBoundary
            (<[i := mkTimelinePoint (point p) wiped (wipedBoundary p)]> timeline)
      | None => timeline
      end
  end.

(** *** The two passes in closed form

    [emits current p] is what the body of the forward loop decides for [p]:
    [Some b] when [p] is pushed with [wipedBoundary = b], [None] when it is
    dropped.  [emitted] and [annotateFrom] are the forward and the backward
    loop as recursions on the list; the lemmas [forwardPass_emitted] and
    [backwardPass_annotate] relate them to the loops. *)

Definition emits (current : option number) (p : DataPoint) : option bool :=
  match current with
  | None => Some false
  | Some current =>
      if lt (recordSeconds p) (sub current epsilon) then Some false
      else if isWipeBoundaryTrigger (row p)
              && gt (recordSeconds p) (add current epsilon) then Some true
      else None
  end.

Fixpoint emitted (current : option number) (points : list DataPoint)
    : list TimelinePoint :=
  match points with
  | [] => []
  | p :: points =>
      match emits current p with
      | Some b =>
          mkTimelinePoint p false b :: emitted (Some (recordSeconds p)) points
      | None => emitted current points
      end
  end.

Fixpoint annotateFrom (seed : option number) (timeline : list TimelinePoint)
    : option number * list TimelinePoint :=
  match timeline with
  | [] => (seed, [])
  | p :: rest =>
      let '(m, rest') := annotateFrom seed rest in
      let m' := nextMax m p in
      (m', mkTimelinePoint (point p) (isWiped m' p) (wipedBoundary p) :: rest')
  end.

(** The order of the emitted sequence: by [dateValue], then by [rowIndex]. *)
Definition pointLt (a b : DataPoint) : Prop :=
  (dateValue a < dateValue b)%Z
  \/ (dateValue a = dateValue b /\ rowIndex a < rowIndex b).

Definition pointLe (a b : DataPoint) : Prop := (comparePoints a b <= 0)%Z.

(** A point with its [rowIndex] replaced. *)
Definition setPointIndex (i : nat) (p : DataPoint) : DataPoint :=
  mkPoint (row p) i (dateValue p) (recordSeconds p).

Definition setIndex (i : nat) (p : TimelinePoint) : TimelinePoint :=
  mkTimelinePoint (setPointIndex i (point p)) (wiped p) (wipedBoundary p).

(** The rows of a timeline, to run the reconstructor on its own output. *)
Definition rowsOf (timeline : list TimelinePoint) : list CsvRow :=
  map (fun p => row (point p)) timeline.

Section Reconstructor.

(** [Date.parse], a function of the platform: the time value of a date
    string, [None] for [NaN]. *)
Variable Date_parse : string -> option Z.

(** The callback of [filtered.map]: [None] is the [null] that
    [filter(Boolean)] removes.  [!dateValue] holds for [NaN] and for 0. *)
Definition toPoint (rowIndex : nat) (row : CsvRow) : option DataPoint :=
  let dateValue := Date_parse (asString (row !! "date")) in
  let recordSeconds := parseTimeToSeconds (row !! "record_time") in
  match dateValue, recordSeconds with
  | Some d, Some s =>
      if (d =? 0)%Z then None else Some (mkPoint row rowIndex d s)
  | _, _ => None
  end.

Definition toPoints (filtered : list CsvRow) : list DataPoint :=
  omap id (imap toPoint filtered).

Definition timeline (filtered : list CsvRow) : list TimelinePoint :=
  let points := sortPoints (toPoints filtered) in
  let timeline := forwardPass points in
  backwardPass (length timeline) None timeline.

(** A point made from the row at its [rowIndex]. *)
Definition validPoint (filtered : list CsvRow) (p : DataPoint) : Prop :=
  filtered !! rowIndex p = Some (row p)
  /\ toPoint (rowIndex p) (row p) = Some p.

End Reconstructor.

(** [Date.parse] with the time value 0 turned into [NaN]. *)
Definition epochAsNaN (parse : string -> option Z) (s : string) : option Z :=
  match parse s with
  | Some 0%Z => None
  | r => r
  end.

(** The [stats] memo reads the current record off the last point. *)
Definition currentPoint (timeline : list TimelinePoint) : option TimelinePoint :=
  match timeline with
  | [] => None
  | _ => timeline !! (length timeline - 1)%nat
  end.

(** *** An instance of [Date.parse]

    The UTC forms of the ECMAScript date-time string format,
    [YYYY-MM-DD] and [YYYY-MM-DDTHH:mm:ssZ]; any other text is [NaN]. *)

Module IsoDate.

Definition isLeap (y : Z) : bool :=
  ((y mod 4 =? 0) && negb (y mod 100 =? 0) || (y mod 400 =? 0))%Z.

Definition daysInMonth (y m : Z) : Z :=
  (if m =? 2 then (if isLeap y then 29 else 28)
  else if (m =? 4) || (m =? 6) || (m =? 9) || (m =? 11) then 30
  else 31)%Z.

(** Days from 1970-01-01 to the given civil date. *)
Definition daysFromCivil (y m d : Z) : Z :=
  (let y := if m <=? 2 then y - 1 else y in
   let era := y / 400 in
   let yoe := y - era * 400 in
   let mp := (m + 9) mod 12 in
   let doy := (153 * mp + 2) / 5 + d - 1 in
   let doe := yoe * 365 + yoe / 4 - yoe / 100 + doy in
   era * 146097 + doe - 719468)%Z.

(** A field of exactly [n] digits at the head of [s], and what follows. *)
Definition digitsField (n : nat) (s : string) : option (Z * string) :=
  let f := String.substring 0 n s in
  if (String.length f =? n)%nat && allChars isDigit f
  then Some (Z.of_N (digitsValue f), String.substring n (String.length s - n) s)
  else None.

Definition expect (c : ascii) (s : string) : option string :=
  match s with
  | String a s' => if eqChar c a then Some s' else None
  | EmptyString => None
  end.

Definition parseClock (s : string) : option Z :=
  '(h, s) ← digitsField 2 s;
  s ← expect ":" s;
  '(mi, s) ← digitsField 2 s;
  s ← expect ":" s;
  '(sec, s) ← digitsField 2 s;
  s ← expect "Z" s;
  match s with
  | EmptyString =>
      if ((h <=? 23) && (mi <=? 59) && (sec <=? 59))%Z
      then Some ((h * 3600 + mi * 60 + sec) * 1000)%Z
      else None
  | _ => None
  end.

Definition parse (s : string) : option Z :=
  '(y, s) ← digitsField 4 s;
  s ← expect "-" s;
  '(m, s) ← digitsField 2 s;
  s ← expect "-" s;
  '(d, s) ← digitsField 2 s;
  if ((1 <=? m) && (m <=? 12) && (1 <=? d) && (d <=? daysInMonth y m))%Z then
    let day := (daysFromCivil y m d * 86400000)%Z in
    match s with
    | EmptyString => Some day
    | String "T" s' => ms ← parseClock s'; Some (day + ms)%Z
    | _ => None
    end
  else None.

End IsoDate.

(** A row with the four columns the reconstructor reads. *)
Definition sampleRow (date record_time evidence evidence_source : string) : CsvRow :=
  <["date" := date]> (<["record_time" := record_time]>
  (<["evidence" := evidence]> (<["evidence_source" := evidence_source]> ∅))).

(** *** Sample inputs *)

(** 60 s, then 55 s, then an [irc_set] announcement of 65 s. *)
Definition scenarioRows : list CsvRow :=
  [ sampleRow "2015-01-01" "1:00.00" "record" "";
    sampleRow "2015-01-02" "0:55.00" "record" "";
    sampleRow "2015-01-03" "1:05.00" "announcement" "irc_set" ].

(** 60 s, a record of 70 s, an improvement to 50 s, a record of 55 s. *)
Definition wipeRows : list CsvRow :=
  [ sampleRow "2015-01-01" "1:00.00" "record" "";
    sampleRow "2015-01-02" "1:10.00" "record" "";
    sampleRow "2015-01-03" "0:50.00" "command" "";
    sampleRow "2015-01-04" "0:55.00" "record" "" ].

(** 60 s, a slower [command] row that is dropped, then 50 s. *)
Definition droppedRows : list CsvRow :=
  [ sampleRow "2015-01-01" "1:00.00" "record" "";
    sampleRow "2015-01-02" "1:10.00" "command" "";
    sampleRow "2015-01-03" "0:50.00" "record" "" ].

(** A run dated at the epoch between two ordinary rows. *)
Definition epochRows : list CsvRow :=
  [ sampleRow "1969-12-31" "1:00.00" "record" "";
    sampleRow "1970-01-01T00:00:00Z" "0:50.00" "record" "";
    sampleRow "1970-01-02" "0:55.00" "record" "" ].

(** ** Further definitions *)

(** What the forward loop guarantees of a point pushed while the current
    best is [c]. *)
Definition pushedAfter (c : number) (e : TimelinePoint) : Prop :=
  if wipedBoundary e then
    isWipeBoundaryTrigger (row (point e)) = true
    /\ gt (recordSeconds (point e)) (add c epsilon) = true
  else lt (recordSeconds (point e)) (sub c epsilon) = true.

(** ** Texts given to the decoder *)

(** [text.replaceAll('\r', '')] *)
Fixpoint withoutCR (text : string) : string :=
  match text with
  | EmptyString => EmptyString
  | String ch rest =>
      if eqChar ch "013" then withoutCR rest else String ch (withoutCR rest)
  end.

(** The record that is being read, put in front of the records still to
    come: [field] starts the first cell of the next record. *)
Definition pending (row : list string) (field : string)
    (records : list (list string)) : list (list string) :=
  match records with
  | (cell :: cells) :: rest => (row ++ (field +:+ cell) :: cells) :: rest
  | _ => records
  end.

(** The writer of RFC 4180 with every field quoted: a field goes between
    double quotes with each of its double quotes doubled, the fields of a
    record are separated by commas, and every record is ended by CR LF. *)
Module Rfc4180.

Fixpoint escape (field : string) : string :=
  match field with
  | EmptyString => EmptyString
  | String ch rest =>
      if eqChar ch Csv.dquote
      then String Csv.dquote (String Csv.dquote (escape rest))
      else String ch (escape rest)
  end.

Definition quoteField (field : string) : string :=
  String Csv.dquote (escape field +:+ String Csv.dquote "").

Definition encodeRecord (record : list string) : string :=
  join "," (map quoteField record) +:+ String "013" (String "010" "").

Fixpoint encode (table : list (list string)) : string :=
  match table with
  | [] => ""
  | record :: rest => encodeRecord record +:+ encode rest
  end.

End Rfc4180.

(** ** Candidate identities: [parseSteamCandidates] *)

Module Candidates.

Record SteamCandidate : Type := mkCandidate {
  name : string;
  steamId64 : option string;
  steamId : option string
}.

(** [v?.trim() || undefined] *)
Definition trimmedOrUndefined (v : option string) : option string :=
  match v with
  | None => None
  | Some s =>
      match trim s with
      | EmptyString => None
      | t => Some t
      end
  end.

(** The function mapped over the entries; [null] is [None].  The pattern
    [[name, steamId64, steamId]] reads the first three parts. *)
Definition parseCandidate (entry : string) : option SteamCandidate :=
  let parts := split "|" entry in
  match trimmedOrUndefined (parts !! 0) with
  | None => None
  | Some trimmedName =>
      Some (mkCandidate trimmedName
              (trimmedOrUndefined (parts !! 1))
              (trimmedOrUndefined (parts !! 2)))
  end.

Definition parseSteamCandidates (value : option string) : list SteamCandidate :=
  match value with
  | None | Some EmptyString => []
  | Some value => omap parseCandidate (split ";" value)
  end.

End Candidates.

(** ** Zone selection: [rowsWithZone], [zoneOptions], [activeZone],
    the default-zone effect and [filtered] *)

Module Selection.
Import Zone.

(** [VIEW_MODE]: ['map'] and ['zones']. *)
Inductive ViewMode : Type := viewMap | viewZones.

Definition rowsWithZone (rows : list CsvRow) : list (CsvRow * option ZoneInfo) :=
  map (fun row => (row, getZoneInfo (row !! "segment"))) rows.

(** [map.set(key, value)] on a [Map], whose entries are kept in the order
    in which their keys were first set. *)
Fixpoint mapSet (key : string) (value : ZoneInfo)
    (entries : list (string * ZoneInfo)) : list (string * ZoneInfo) :=
  match entries with
  | [] => [(key, value)]
  | (k, v) :: rest =>
      if String.eqb k key then (key, value) :: rest
      else (k, v) :: mapSet key value rest
  end.

(** The [Map] filled by the loop over [rowsWithZone]. *)
Definition zoneMap (items : list (CsvRow * option ZoneInfo))
    : list (string * ZoneInfo) :=
  foldl (fun entries item =>
           match item.2 with
           | None => entries
           | Some zone => mapSet (id zone) zone entries
           end) [] items.

(** [.sort(compareZones)], a stable sort. *)
Fixpoint insertZone (a : ZoneInfo) (l : list ZoneInfo) : list ZoneInfo :=
  match l with
  | [] => [a]
  | b :: l' =>
      if (compareZones a b <=? 0)%Z then a :: l else b :: insertZone a l'
  end.

Definition sortZones (l : list ZoneInfo) : list ZoneInfo :=
  foldr insertZone [] l.

Definition zoneOptions (items : list (CsvRow * option ZoneInfo)) : list ZoneInfo :=
  sortZones (map snd (zoneMap items)).

(** A state that holds a string or [null], read as a condition. *)
Definition truthy (s : option string) : bool :=
  match s with
  | Some (String _ _) => true
  | _ => false
  end.

(** [zone.id === selectedZone] *)
Definition idIs (selectedZone : option string) (zone : ZoneInfo) : bool :=
  match selectedZone with
  | Some s => String.eqb (id zone) s
  | None => false
  end.



Definition filtered (view : ViewMode) (selectedZone : option string)
    (items : list (CsvRow * option ZoneInfo)) : list CsvRow :=
  map fst
    (List.filter
       (fun item =>
          match view, item.2 with
          | viewMap, None => true
          | viewMap, Some _ => false
          | viewZones, None => false
          | viewZones, Some zone =>
              negb (truthy selectedZone && negb (idIs selectedZone zone))
          end) items).

(** The order of the comparator, and the strict order of the selector:
    bonuses, then courses, then segments, each by ascending number. *)
Definition zoneLe (a b : ZoneInfo) : Prop := (compareZones a b <= 0)%Z.

Definition zoneLt (a b : ZoneInfo) : Prop :=
  (rank a < rank b)%Z \/ (rank a = rank b /\ (order a < order b)%N).

End Selection.

(** ** The index builder: [scripts/build-index.mjs] *)

Module IndexBuilder.

Record MapEntry : Type := mkEntry {
  map : string;
  classes : list string;
  files : gmap string string
}.

Definition prefix : string := "wr_history_".

(** The locals [klass] and [map] after the [if ... else if] on the file
    name; [None] when both are still [null]. *)
Definition classOf (file : string) : option (string * string) :=
  if endsWith file "_Demo.csv" then
    Some ("Demo", slice file (Z.of_nat (String.length prefix))
                    (- Z.of_nat (String.length "_Demo.csv")))
  else if endsWith file "_Solly.csv" then
    Some ("Solly", slice file (Z.of_nat (String.length prefix))
                     (- Z.of_nat (String.length "_Solly.csv")))
  else None.

(** The class and the map of a file that the loop does not skip:
    [if (!file.startsWith(prefix)) continue] and
    [if (!map || !klass) continue]. *)
Definition parseName (file : string) : option (string * string) :=
  if startsWith file prefix then
    match classOf file with
    | Some (klass, String c m) => Some (klass, String c m)
    | _ => None
    end
  else None.

(** [entries.has], [entries.set] and [entries.get] on the [Map] keyed by
    map name, followed by the update of the entry found: a new key goes
    last, with the entry [{ map, classes: [], files: {} }]. *)
Fixpoint upsert (key : string) (update : MapEntry -> MapEntry)
    (entries : list (string * MapEntry)) : list (string * MapEntry) :=
  match entries with
  | [] => [(key, update (mkEntry key [] ∅))]
  | (k, entry) :: rest =>
      if String.eqb k key then (k, update entry) :: rest
      else (k, entry) :: upsert key update rest
  end.

(** [classes.includes(klass)] *)
Definition includes (klass : string) (classes : list string) : bool :=
  existsb (String.eqb klass) classes.

(** What the loop body does to the entry of the file's map. *)
Definition record (klass file : string) (entry : MapEntry) : MapEntry :=
  mkEntry (map entry)
    (if includes klass (classes entry) then classes entry
     else classes entry ++ [klass])
    (<[klass := "data/wr-history-all/" +:+ file]> (files entry)).

(** One iteration of [for (const file of files)]. *)
Definition addFile (entries : list (string * MapEntry)) (file : string)
    : list (string * MapEntry) :=
  match parseName file with
  | None => entries
  | Some (klass, map) => upsert map (record klass file) entries
  end.

(** The [Map] after the loop over the [.csv] files of the listing. *)
Definition entriesOf (listing : list string) : list (string * MapEntry) :=
  foldl addFile [] (List.filter (fun file => endsWith file ".csv") listing).

(** [classes.sort()]: the default order, by code units. *)
Fixpoint insertClass (a : string) (l : list string) : list string :=
  match l with
  | [] => [a]
  | b :: l' => if String.leb a b then a :: l else b :: insertClass a l'
  end.

Definition sortClasses (l : list string) : list string :=
  foldr insertClass [] l.

Section Output.

(** [a.localeCompare(b)], a function of the platform. *)
Variable localeCompare : string -> string -> Z.

Fixpoint insertEntry (a : MapEntry) (l : list MapEntry) : list MapEntry :=
  match l with
  | [] => [a]
  | b :: l' =>
      if (localeCompare (map a) (map b) <=? 0)%Z then a :: l
      else b :: insertEntry a l'
  end.

(** [maps], once every [entry.classes] is sorted. *)
Definition maps (listing : list string) : list MapEntry :=
  List.map (fun entry => mkEntry (map entry) (sortClasses (classes entry)) (files entry))
    (foldr insertEntry [] (List.map snd (entriesOf listing))).

(** [output.count] *)
Definition count (listing : list string) : nat := length (maps listing).

End Output.

(** The name under which the history of a map and a class is stored. *)
Definition fileName (map klass : string) : string :=
  prefix +:+ map +:+ "_" +:+ klass +:+ ".csv".

(** What holds of the entry filed under [key] once the files [names]
    have been gone through: it carries its key as map name, its classes
    are the classes of the files met for that map, each once, and it
    records the path of each of these files and no other. *)
Definition entryOk (names : list string) (key : string) (entry : MapEntry) : Prop :=
  map entry = key /\ key <> "" /\ NoDup (classes entry) /\ classes entry <> []
  /\ forall k,
       (k ∈ classes entry ->
          (k = "Demo" \/ k = "Solly") /\ fileName key k ∈ names
          /\ files entry !! k = Some ("data/wr-history-all/" +:+ fileName key k))
       /\ ((k ∉ classes entry) -> files entry !! k = None).

End IndexBuilder.

(** ** The step path of the chart: [buildStepPath] *)

Module Chart.

(** The commands of an SVG path: [M x y], [H x] and [V y].  The path is
    the list of its commands; how a number is printed is left out. *)
Inductive PathCommand (T : Type) : Type :=
  | M (x y : T)
  | H (x : T)
  | V (y : T).

Arguments M {T} x y.
Arguments H {T} x.
Arguments V {T} y.

(** [[...points].sort((a, b) => a.dateValue - b.dateValue)] *)
Fixpoint insertByDate (a : TimelinePoint) (l : list TimelinePoint)
    : list TimelinePoint :=
  match l with
  | [] => [a]
  | b :: l' =>
      if (dateValue (point a) - dateValue (point b) <=? 0)%Z then a :: l
      else b :: insertByDate a l'
  end.

Definition sortByDate (l : list TimelinePoint) : list TimelinePoint :=
  foldr insertByDate [] l.

Section Path.
Context {T : Type}.
Variable scaleX : Z -> T.
Variable scaleY : number -> T.

Definition buildStepPath (points : list TimelinePoint) : list (PathCommand T) :=
  match sortByDate points with
  | [] => []
  | first :: rest =>
      M (scaleX (dateValue (point first))) (scaleY (recordSeconds (point first)))
      :: concat (map (fun p => [H (scaleX (dateValue (point p)));
                                V (scaleY (recordSeconds (point p)))]) rest)
  end.

End Path.

End Chart.

(** ** The decoder of the first version of the application *)

Module Earlier.

(** [parseCsv] as it was before quoted fields were read: the trimmed text
    split at line feeds, each line split at commas. *)
Definition parseCsv (text : string) : list CsvRow :=
  let lines := split "010" (trim text) in
  if (length lines <=? 1)%nat then []
  else match lines with
       | first :: rest =>
           let headers := split "," first in
           map (fun line => Csv.rowOf headers (split "," line)) rest
       | [] => []
       end.

End Earlier.

(** * Properties *)

(** ** The number model *)

Lemma Qred_lt_r (a b : Q) :
  (Qnum a * QDen (Qred b) <? Qnum (Qred b) * QDen a)%Z
  = (Qnum a * QDen b <? Qnum b * QDen a)%Z.
Proof.
  apply eq_true_iff_eq. rewrite !Z.ltb_lt.
  change (a < Qred b <-> a < b)%Q. by rewrite Qred_correct.
Qed.

(** No number is below itself minus the tolerance. *)
Lemma lt_sub_epsilon_self (x : number) : lt x (sub x epsilon) = false.
Proof.
  destruct x as [| | |q]; simpl; try done.
  rewrite Qred_lt_r. apply Z.ltb_ge.
  change (q + Qred (- (1 # 10000)) <= q)%Q.
  rewrite Qred_correct. lra.
Qed.

(** Below [y - epsilon] is below [y]. *)
Lemma lt_sub_epsilon (x y : number) :
  lt x (sub y epsilon) = true -> lt x y = true.
Proof.
  destruct x as [| | |a], y as [| | |b]; simpl; try done.
  rewrite Qred_lt_r, !Z.ltb_lt.
  change (a < b + Qred (- (1 # 10000)) -> a < b)%Q.
  rewrite Qred_correct. lra.
Qed.

Lemma max_cases (x y : number) : max x y = x \/ max x y = y.
Proof.
  unfold max. destruct x, y; simpl; auto.
  destruct (_ <? _)%Z; auto.
Qed.

(** ** The two passes of the reconstructor *)

Lemma forwardStep_emits (current : option number) (tl : list TimelinePoint)
    (p : DataPoint) :
  forwardStep (current, tl) p =
    match emits current p with
    | Some b => (Some (recordSeconds p), tl ++ [mkTimelinePoint p false b])
    | None => (current, tl)
    end.
Proof.
  unfold forwardStep, emits. destruct current as [c|]; [|done].
  destruct (lt _ _); [done|]. by destruct (_ && _).
Qed.

Lemma foldl_forwardStep (points : list DataPoint) (current : option number)
    (tl : list TimelinePoint) :
  snd (foldl forwardStep (current, tl) points) = tl ++ emitted current points.
Proof.
  revert current tl.
  induction points as [|p points IH]; intros current tl; cbn [foldl emitted].
  - by rewrite app_nil_r.
  - rewrite forwardStep_emits. destruct (emits current p) as [b|].
    + rewrite IH, <- app_assoc. done.
    + apply IH.
Qed.

Lemma forwardPass_emitted (points : list DataPoint) :
  forwardPass points = emitted None points.
Proof. unfold forwardPass, forwardLoop. by rewrite foldl_forwardStep. Qed.

Lemma annotateFrom_snoc (seed : option number) (tl : list TimelinePoint)
    (p : TimelinePoint) :
  annotateFrom seed (tl ++ [p]) =
    let m := nextMax seed p in
    let '(m', tl') := annotateFrom m tl in
    (m', tl' ++ [mkTimelinePoint (point p) (isWiped m p) (wipedBoundary p)]).
Proof.
  induction tl as [|q tl IH]; simpl; [done|].
  rewrite IH. simpl. by destruct (annotateFrom (nextMax seed p) tl).
Qed.

Lemma backwardPass_annotateFrom (tl done : list TimelinePoint)
    (seed : option number) :
  backwardPass (length tl) seed (tl ++ done)
  = snd (annotateFrom seed tl) ++ done.
Proof.
  revert done seed. induction tl as [|p tl IH] using rev_ind; intros done seed.
  - done.
  - rewrite length_app, Nat.add_1_r. simpl.
    rewrite <- app_assoc. simpl.
    rewrite list_lookup_middle by done.
    rewrite <- (Nat.add_0_r (length tl)) at 2.
    rewrite insert_app_r. cbn [list_insert insert].
    rewrite IH, annotateFrom_snoc. simpl.
    destruct (annotateFrom (nextMax seed p) tl). simpl.
    by rewrite <- app_assoc.
Qed.

Lemma backwardPass_annotate (tl : list TimelinePoint) :
  backwardPass (length tl) None tl = snd (annotateFrom None tl).
Proof.
  rewrite <- (app_nil_r tl) at 2.
  by rewrite backwardPass_annotateFrom, app_nil_r.
Qed.

(** ** Sorting by [comparePoints] *)

Lemma pointLe_iff (a b : DataPoint) :
  pointLe a b <->
  (dateValue a < dateValue b)%Z
  \/ (dateValue a = dateValue b /\ rowIndex a <= rowIndex b).
Proof.
  unfold pointLe, comparePoints.
  destruct (Z.eqb_spec (dateValue a - dateValue b) 0); lia.
Qed.

Lemma pointLe_trans (a b c : DataPoint) :
  pointLe a b -> pointLe b c -> pointLe a c.
Proof. rewrite !pointLe_iff. lia. Qed.

Lemma pointLe_total (a b : DataPoint) : pointLe a b \/ pointLe b a.
Proof. rewrite !pointLe_iff. lia. Qed.

Lemma pointLe_lt (a b : DataPoint) :
  pointLe a b -> rowIndex a <> rowIndex b -> pointLt a b.
Proof. rewrite pointLe_iff. unfold pointLt. lia. Qed.

Lemma insertPoint_perm (a : DataPoint) (l : list DataPoint) :
  insertPoint a l ≡ₚ a :: l.
Proof.
  induction l as [|b l IH]; simpl; [done|].
  destruct (_ <=? _)%Z; [done|]. rewrite IH. apply Permutation_swap.
Qed.

Lemma sortPoints_perm (l : list DataPoint) : sortPoints l ≡ₚ l.
Proof.
  induction l as [|a l IH]; simpl; [done|].
  by rewrite insertPoint_perm, IH.
Qed.

Lemma insertPoint_sorted (a : DataPoint) (l : list DataPoint) :
  StronglySorted pointLe l -> StronglySorted pointLe (insertPoint a l).
Proof.
  induction 1 as [|b l Hl IH Hb]; simpl.
  - repeat constructor.
  - destruct (Z.leb_spec (comparePoints a b) 0) as [Hab|Hab].
    + constructor; [by constructor|].
      constructor; [done|].
      eapply Forall_impl; [exact Hb|]. intros c Hc.
      by eapply pointLe_trans.
    + constructor; [done|].
      rewrite insertPoint_perm. constructor; [|done].
      destruct (pointLe_total a b) as [H|H]; [|done].
      unfold pointLe in H. lia.
Qed.

Lemma sortPoints_sorted (l : list DataPoint) :
  StronglySorted pointLe (sortPoints l).
Proof.
  induction l as [|a l IH]; simpl; [constructor|].
  by apply insertPoint_sorted.
Qed.

(** A list already in order is left as it is. *)
Lemma sortPoints_id (l : list DataPoint) :
  StronglySorted pointLe l -> sortPoints l = l.
Proof.
  induction 1 as [|a l Hl IH Ha]; simpl; [done|].
  rewrite IH. destruct l as [|b l]; simpl; [done|].
  apply Forall_cons in Ha as [Hab _].
  destruct (Z.leb_spec (comparePoints a b) 0); [done|].
  unfold pointLe in Hab. lia.
Qed.

Lemma sorted_pointLt (l : list DataPoint) :
  StronglySorted pointLe l -> NoDup (map rowIndex l) ->
  StronglySorted pointLt l.
Proof.
  induction 1 as [|a l Hl IH Ha]; simpl; intros Hnd; [constructor|].
  apply NoDup_cons in Hnd as [Hnotin Hnd].
  constructor; [by apply IH|].
  apply Forall_forall. intros b Hb.
  apply pointLe_lt.
  - by eapply Forall_forall in Ha.
  - intros Heq. apply Hnotin. rewrite Heq.
    by apply list_elem_of_fmap_2.
Qed.

Lemma sorted_sublist {A : Type} (R : A -> A -> Prop) (l1 l2 : list A) :
  sublist l1 l2 -> StronglySorted R l2 -> StronglySorted R l1.
Proof.
  induction 1 as [|x l1 l2 Hsub IH|x l1 l2 Hsub IH]; intros Hs.
  - constructor.
  - apply StronglySorted_inv in Hs as [Hs Hx].
    constructor; [by apply IH|].
    apply Forall_forall. intros y Hy.
    eapply Forall_forall in Hx; [exact Hx|].
    by eapply elem_of_sublist.
  - apply StronglySorted_inv in Hs as [Hs _]. by apply IH.
Qed.

(** ** What the passes keep *)

Lemma emitted_sublist (current : option number) (points : list DataPoint) :
  sublist (map point (emitted current points)) points.
Proof.
  revert current. induction points as [|p points IH]; intros current; simpl.
  - constructor.
  - destruct (emits current p); simpl.
    + by apply sublist_skip.
    + by apply sublist_cons.
Qed.

Lemma annotateFrom_point (seed : option number) (tl : list TimelinePoint) :
  map point (snd (annotateFrom seed tl)) = map point tl.
Proof.
  induction tl as [|p tl IH]; simpl; [done|].
  destruct (annotateFrom seed tl); simpl in *. by rewrite IH.
Qed.

(** ** The reconstructor *)

Section ReconstructorFacts.

Variable Date_parse : string -> option Z.

Lemma toPoint_Some (i : nat) (r : CsvRow) (p : DataPoint) :
  toPoint Date_parse i r = Some p ->
  row p = r /\ rowIndex p = i
  /\ Date_parse (asString (r !! "date")) = Some (dateValue p)
  /\ dateValue p <> 0%Z
  /\ parseTimeToSeconds (r !! "record_time") = Some (recordSeconds p).
Proof.
  unfold toPoint.
  destruct (Date_parse _) as [d|]; [|done].
  destruct (parseTimeToSeconds _) as [s|]; [|done].
  destruct (Z.eqb_spec d 0); [done|].
  intros [= <-]. done.
Qed.

Lemma toPoints_valid (rows : list CsvRow) (p : DataPoint) :
  p ∈ toPoints Date_parse rows -> validPoint Date_parse rows p.
Proof.
  unfold toPoints. intros (o & Ho & Hp)%list_elem_of_omap.
  apply elem_of_lookup_imap in Ho as (i & r & -> & Hr).
  simpl in Hp. destruct (toPoint_Some _ _ _ Hp) as (Hrow & Hidx & _).
  split; congruence.
Qed.

Lemma toPoints_from_index (rows : list CsvRow) (k : nat) :
  let l := map rowIndex (omap id (imap (fun i => toPoint Date_parse (k + i)) rows)) in
  Forall (fun i => k <= i) l /\ StronglySorted Nat.lt l.
Proof.
  revert k. induction rows as [|r rows IH]; intros k; simpl.
  - split; constructor.
  - destruct (IH (S k)) as [Hge Hs].
    rewrite (imap_ext _ (fun i => toPoint Date_parse (S k + i))) by
      (intros; simpl; f_equal; lia).
    destruct (toPoint Date_parse (k + 0) r) as [p|] eqn:Hp; simpl.
    + apply toPoint_Some in Hp as (_ & Hidx & _).
      split.
      * constructor; [lia|]. eapply Forall_impl; [exact Hge|]. simpl. lia.
      * constructor; [done|]. eapply Forall_impl; [exact Hge|]. simpl. lia.
    + split; [|done]. eapply Forall_impl; [exact Hge|]. simpl. lia.
Qed.

Lemma toPoints_NoDup (rows : list CsvRow) :
  NoDup (map rowIndex (toPoints Date_parse rows)).
Proof.
  destruct (toPoints_from_index rows 0) as [_ Hs]. simpl in Hs.
  change (fun i => toPoint Date_parse i) with (toPoint Date_parse) in Hs.
  unfold toPoints. induction Hs as [|i l Hl IH Hi]; constructor; [|done].
  intros Hin. eapply Forall_forall in Hi; [|exact Hin]. lia.
Qed.

(** The reconstructor as the composition of its passes in closed form. *)
Lemma timeline_closed (rows : list CsvRow) :
  timeline Date_parse rows =
  snd (annotateFrom None (emitted None (sortPoints (toPoints Date_parse rows)))).
Proof.
  unfold timeline. by rewrite backwardPass_annotate, forwardPass_emitted.
Qed.

Lemma timeline_points_sublist (rows : list CsvRow) :
  sublist (map point (timeline Date_parse rows))
          (sortPoints (toPoints Date_parse rows)).
Proof.
  rewrite timeline_closed, annotateFrom_point. apply emitted_sublist.
Qed.

Lemma timeline_valid (rows : list CsvRow) (p : TimelinePoint) :
  p ∈ timeline Date_parse rows -> validPoint Date_parse rows (point p).
Proof.
  intros Hp. apply toPoints_valid.
  rewrite <- (sortPoints_perm (toPoints Date_parse rows)).
  eapply elem_of_sublist; [|apply timeline_points_sublist].
  by apply list_elem_of_fmap_2.
Qed.

Lemma timeline_sorted (rows : list CsvRow) :
  StronglySorted pointLt (map point (timeline Date_parse rows)).
Proof.
  eapply sorted_sublist; [apply timeline_points_sublist|].
  apply sorted_pointLt; [apply sortPoints_sorted|].
  rewrite (sortPoints_perm (toPoints Date_parse rows)).
  apply toPoints_NoDup.
Qed.


(** *** The last point *)

Lemma currentPoint_snoc (tl : list TimelinePoint) (p : TimelinePoint) :
  currentPoint (tl ++ [p]) = Some p.
Proof.
  unfold currentPoint. destruct (tl ++ [p]) eqn:E.
  - by destruct tl.
  - rewrite <- E, length_app, Nat.add_1_r. simpl. rewrite Nat.sub_0_r.
    by rewrite list_lookup_middle.
Qed.

Lemma annotateFrom_current (tl : list TimelinePoint) (p : TimelinePoint) :
  currentPoint (snd (annotateFrom None tl)) = Some p -> wiped p = false.
Proof.
  destruct tl as [|q tl _] using rev_ind; [done|].
  rewrite annotateFrom_snoc. simpl.
  destruct (annotateFrom (nextMax None q) tl) as [m tl']. simpl.
  rewrite currentPoint_snoc. intros [= <-]. simpl.
  unfold nextMax, isWiped. destruct (wipedBoundary q); [|done].
  apply lt_sub_epsilon_self.
Qed.

(** C9.  The last point of the reconstructed timeline, the one the [stats]
    memo shows as the current record, is never marked [wiped]. *)
Theorem current_record_not_wiped (rows : list CsvRow) (p : TimelinePoint) :
  currentPoint (timeline Date_parse rows) = Some p -> wiped p = false.
Proof. rewrite timeline_closed. apply annotateFrom_current. Qed.

(** *** Wiped points and wipe boundaries *)

Lemma annotateFrom_wiped (tl : list TimelinePoint) :
  let out := snd (annotateFrom None tl) in
  (forall v, fst (annotateFrom None tl) = Some v ->
     exists j B, out !! j = Some B /\ wipedBoundary B = true
                 /\ recordSeconds (point B) = v)
  /\ (forall i A, out !! i = Some A -> wiped A = true ->
     exists j B, i < j /\ out !! j = Some B /\ wipedBoundary B = true
       /\ lt (recordSeconds (point A))
             (sub (recordSeconds (point B)) epsilon) = true).
Proof.
  induction tl as [|p tl [IHm IHw]]; simpl.
  - split; [done|]. intros i A. by rewrite lookup_nil.
  - destruct (annotateFrom None tl) as [m out] eqn:E. simpl in *.
    set (p' := mkTimelinePoint _ _ _).
    assert (Hm : forall v, nextMax m p = Some v ->
              exists j B, (p' :: out) !! j = Some B /\ wipedBoundary B = true
                          /\ recordSeconds (point B) = v).
    { intros v Hv. unfold nextMax in Hv.
      destruct (wipedBoundary p) eqn:Hb.
      - destruct m as [m0|].
        + injection Hv as <-.
          destruct (max_cases m0 (recordSeconds (point p))) as [-> | ->].
          * destruct (IHm m0 eq_refl) as (j & B & ? & ? & ?).
            by exists (S j), B.
          * by exists 0, p'.
        + injection Hv as <-. by exists 0, p'.
      - destruct (IHm v Hv) as (j & B & ? & ? & ?). by exists (S j), B. }
    split; [exact Hm|].
    intros [|i] A HA Hw; simpl in HA.
    + injection HA as <-. simpl in Hw. unfold isWiped in Hw.
      destruct (nextMax m p) as [v|] eqn:Hv; [|done].
      destruct (Hm v eq_refl) as ([|j] & B & HB & Hb & Hrs).
      * simpl in HB. injection HB as <-. simpl in Hrs. subst v.
        by rewrite lt_sub_epsilon_self in Hw.
      * exists (S j), B. simpl. rewrite Hrs. repeat split; [lia|done..].
    + destruct (IHw i A HA Hw) as (j & B & ? & ? & ? & ?).
      exists (S j), B. repeat split; [lia|done..].
Qed.

(** C2, as the code has it.  A point marked [wiped] is followed, later in
    the emitted sequence, by a wipe-boundary point whose time exceeds its
    own by more than the tolerance. *)
Theorem wiped_below_later_boundary (rows : list CsvRow) (i : nat)
    (A : TimelinePoint) :
  timeline Date_parse rows !! i = Some A -> wiped A = true ->
  exists j B, i < j /\ timeline Date_parse rows !! j = Some B
    /\ wipedBoundary B = true
    /\ lt (recordSeconds (point A)) (sub (recordSeconds (point B)) epsilon) = true
    /\ lt (recordSeconds (point A)) (recordSeconds (point B)) = true.
Proof.
  rewrite timeline_closed. intros HA Hw.
  destruct (annotateFrom_wiped (emitted None (sortPoints (toPoints Date_parse rows))))
    as [_ H].
  destruct (H i A HA Hw) as (j & B & ? & ? & ? & Hlt).
  exists j, B. repeat split; try done. by apply lt_sub_epsilon in Hlt.
Qed.

(** C5.  The emitted sequence is in order of [dateValue], and points of
    equal [dateValue] are in order of [rowIndex]: every point is strictly
    before every later one in that lexicographic order. *)
Theorem timeline_chronological (rows : list CsvRow) :
  StronglySorted pointLt (map point (timeline Date_parse rows)).
Proof. apply timeline_sorted. Qed.

Lemma timeline_chronological_pairs (rows : list CsvRow) (i j : nat)
    (a b : TimelinePoint) :
  i < j ->
  timeline Date_parse rows !! i = Some a ->
  timeline Date_parse rows !! j = Some b ->
  (dateValue (point a) <= dateValue (point b))%Z
  /\ (dateValue (point a) = dateValue (point b) ->
      rowIndex (point a) < rowIndex (point b)).
Proof.
  intros Hij Ha Hb.
  pose proof (timeline_sorted rows) as Hs.
  assert (pointLt (point a) (point b)) as Hlt; [|unfold pointLt in Hlt; lia].
  revert Hs. generalize (timeline Date_parse rows) i j Hij Ha Hb.
  clear. intros tl. induction tl as [|x tl IH]; intros i j Hij Ha Hb Hs.
  - by rewrite lookup_nil in Ha.
  - simpl in Hs. apply StronglySorted_inv in Hs as [Hs Hx].
    destruct j as [|j]; [lia|]. destruct i as [|i]; simpl in *.
    + injection Ha as <-. eapply Forall_forall in Hx; [exact Hx|].
      apply list_elem_of_fmap_2. by eapply list_elem_of_lookup_2.
    + eapply (IH i j); [lia|done..].
Qed.

(** *** The epoch *)

Lemma toPoint_epochAsNaN (i : nat) (r : CsvRow) :
  toPoint (epochAsNaN Date_parse) i r = toPoint Date_parse i r.
Proof.
  unfold toPoint, epochAsNaN.
  destruct (Date_parse _) as [[|d|d]|]; try done.
  by destruct (parseTimeToSeconds _).
Qed.

(** C10.  A row whose date parses to the time value 0 is treated as a row
    whose date does not parse: the reconstructor gives the same timeline
    when [Date.parse] answers [NaN] for every such date, and no emitted
    point comes from such a row. *)
Theorem epoch_row_excluded :
  (forall rows : list CsvRow,
     timeline Date_parse rows = timeline (epochAsNaN Date_parse) rows)
  /\ (forall (rows : list CsvRow) (i : nat) (r : CsvRow),
        rows !! i = Some r ->
        Date_parse (asString (r !! "date")) = Some 0%Z ->
        forall p, p ∈ timeline Date_parse rows -> rowIndex (point p) <> i).
Proof.
  split.
  - intros rows. unfold timeline.
    replace (toPoints (epochAsNaN Date_parse) rows)
      with (toPoints Date_parse rows); [done|].
    unfold toPoints. f_equal.
    apply imap_ext. intros. by rewrite toPoint_epochAsNaN.
  - intros rows i r Hr Hd p Hp <-.
    apply timeline_valid in Hp as [Hrow Hpt].
    apply toPoint_Some in Hpt as (_ & _ & Hd' & Hne & _).
    rewrite Hr in Hrow. injection Hrow as ->. congruence.
Qed.

(** *** The forward pass on a row that does not improve *)





(** *** Running the reconstructor on its own output *)

Lemma toPoint_reindex (k i : nat) (r : CsvRow) (p : DataPoint) :
  toPoint Date_parse k r = Some p ->
  toPoint Date_parse i r = Some (setPointIndex i p).
Proof.
  unfold toPoint.
  destruct (Date_parse _) as [d|]; [|done].
  destruct (parseTimeToSeconds _) as [s|]; [|done].
  destruct (d =? 0)%Z; [done|]. by intros [= <-].
Qed.

Lemma toPoints_rowsOf (tl : list TimelinePoint) (f : nat -> nat) :
  Forall (fun p => exists k, toPoint Date_parse k (row (point p)) = Some (point p)) tl ->
  omap id (imap (fun i => toPoint Date_parse (f i)) (rowsOf tl))
  = imap (fun i => setPointIndex (f i)) (map point tl).
Proof.
  intros H. revert f. induction H as [|p tl [k Hp] Htl IH]; intros f; simpl.
  - done.
  - rewrite (toPoint_reindex _ _ _ _ Hp). simpl. f_equal. apply (IH (f ∘ S)).
Qed.

Lemma reindex_sorted (l : list DataPoint) (f : nat -> nat) :
  (forall i j, i < j -> f i < f j) ->
  StronglySorted pointLt l ->
  StronglySorted pointLe (imap (fun i => setPointIndex (f i)) l).
Proof.
  intros Hf Hs. revert f Hf.
  induction Hs as [|a l Hl IH Ha]; intros f Hf; simpl; constructor.
  - apply (IH (f ∘ S)). intros i j Hij. simpl. apply Hf. lia.
  - apply Forall_forall. intros b (i & c & -> & Hc)%elem_of_lookup_imap.
    eapply Forall_forall in Ha; [|by eapply list_elem_of_lookup_2].
    apply pointLe_iff. unfold pointLt in Ha. simpl.
    pose proof (Hf 0 (S i)). lia.
Qed.

Lemma emitted_reindex (points : list DataPoint) (current : option number)
    (f : nat -> nat) :
  emitted current
    (imap (fun i => setPointIndex (f i)) (map point (emitted current points)))
  = imap (fun i => setIndex (f i)) (emitted current points).
Proof.
  revert current f.
  induction points as [|p points IH]; intros current f; simpl; [done|].
  destruct (emits current p) as [b|] eqn:Hb; [|apply IH].
  simpl. change (emits current (setPointIndex (f 0) p)) with (emits current p).
  rewrite Hb. unfold setIndex at 1. simpl. f_equal. apply (IH _ (f ∘ S)).
Qed.

Lemma annotateFrom_reindex (tl : list TimelinePoint) (seed : option number)
    (f : nat -> nat) :
  annotateFrom seed (imap (fun i => setIndex (f i)) tl)
  = (fst (annotateFrom seed tl),
     imap (fun i => setIndex (f i)) (snd (annotateFrom seed tl))).
Proof.
  revert f. induction tl as [|p tl IH]; intros f; simpl; [done|].
  change (imap ((fun i => setIndex (f i)) ∘ S) tl)
    with (imap (fun i => setIndex ((f ∘ S) i)) tl).
  rewrite (IH (f ∘ S)). destruct (annotateFrom seed tl) as [m tl']. done.
Qed.

(** C4, as the code has it.  Run on the rows of its own output, the
    reconstructor returns that output again, same rows, [dateValue],
    [recordSeconds], [wiped] and [wipedBoundary] in the same order, with
    each [rowIndex] replaced by the position of the point in the output;
    and the output is a function of the input rows. *)
Theorem timeline_idempotent_up_to_index (rows : list CsvRow) :
  timeline Date_parse (rowsOf (timeline Date_parse rows))
  = imap setIndex (timeline Date_parse rows)
  /\ (forall rows', rows' = rows ->
        timeline Date_parse rows' = timeline Date_parse rows).
Proof.
  split; [|by intros ? ->].
  rewrite (timeline_closed (rowsOf _)).
  unfold toPoints.
  rewrite (toPoints_rowsOf _ (fun i => i)); cycle 1.
  { apply Forall_forall. intros p Hp.
    apply timeline_valid in Hp as [_ Hp]. by eexists. }
  rewrite sortPoints_id; cycle 1.
  { apply (reindex_sorted _ (fun i => i)); [done|apply timeline_sorted]. }
  rewrite timeline_closed at 1. rewrite annotateFrom_point.
  rewrite (emitted_reindex _ _ (fun i => i)).
  rewrite (annotateFrom_reindex _ _ (fun i => i)). simpl.
  by rewrite <- timeline_closed.
Qed.

(** *** The scenario of three rows *)

Lemma toPoint_intro (i : nat) (r : CsvRow) (d : Z) (s : number) :
  Date_parse (asString (r !! "date")) = Some d -> d <> 0%Z ->
  parseTimeToSeconds (r !! "record_time") = Some s ->
  toPoint Date_parse i r = Some (mkPoint r i d s).
Proof.
  intros Hd Hne Hs. unfold toPoint. rewrite Hd, Hs.
  by destruct (Z.eqb_spec d 0).
Qed.

(** C1, as the code has it.  Three rows in chronological order with the
    times 60 s, 55 s and 65 s, the third an [announcement] from [irc_set]:
    all three are emitted, the third as a wipe boundary, and the backward
    pass marks both earlier points as wiped, the first one too, since 60 s
    is below 65 s. *)
Theorem scenario_flags (r1 r2 r3 : CsvRow) (d1 d2 d3 : Z) :
  Date_parse (asString (r1 !! "date")) = Some d1 ->
  Date_parse (asString (r2 !! "date")) = Some d2 ->
  Date_parse (asString (r3 !! "date")) = Some d3 ->
  d1 <> 0%Z -> d2 <> 0%Z -> d3 <> 0%Z ->
  (d1 < d2)%Z -> (d2 < d3)%Z ->
  parseTimeToSeconds (r1 !! "record_time") = Some (Fin 60) ->
  parseTimeToSeconds (r2 !! "record_time") = Some (Fin 55) ->
  parseTimeToSeconds (r3 !! "record_time") = Some (Fin 65) ->
  r1 !! "evidence" = Some "record" ->
  r2 !! "evidence" = Some "record" ->
  r3 !! "evidence" = Some "announcement" ->
  r3 !! "evidence_source" = Some "irc_set" ->
  timeline Date_parse [r1; r2; r3] =
    [ mkTimelinePoint (mkPoint r1 0 d1 (Fin 60)) true false;
      mkTimelinePoint (mkPoint r2 1 d2 (Fin 55)) true false;
      mkTimelinePoint (mkPoint r3 2 d3 (Fin 65)) false true ].
Proof.
  intros Hd1 Hd2 Hd3 Hn1 Hn2 Hn3 H12 H23 Ht1 Ht2 Ht3 _ _ He3 Hs3.
  rewrite timeline_closed. unfold toPoints. cbn [imap omap list_omap compose].
  rewrite (toPoint_intro 0 r1 d1 _ Hd1 Hn1 Ht1).
  rewrite (toPoint_intro 1 r2 d2 _ Hd2 Hn2 Ht2).
  rewrite (toPoint_intro 2 r3 d3 _ Hd3 Hn3 Ht3).
  cbn [id].
  rewrite sortPoints_id; cycle 1.
  { repeat constructor; apply pointLe_iff; simpl; lia. }
  assert (Htrig : isWipeBoundaryTrigger r3 = true).
  { unfold isWipeBoundaryTrigger. by rewrite He3, Hs3. }
  cbn [emitted emits recordSeconds row]. 
  change (lt (Fin 55) (sub (Fin 60) epsilon)) with true. cbn iota.
  change (lt (Fin 65) (sub (Fin 55) epsilon)) with false. cbn iota.
  rewrite Htrig.
  change (gt (Fin 65) (add (Fin 55) epsilon)) with true. cbn [andb].
  reflexivity.
Qed.

End ReconstructorFacts.

(** *** The reconstructor on the sample inputs *)

Example scenario_timeline :
  map (fun p => (recordSeconds (point p), wiped p, wipedBoundary p))
      (timeline IsoDate.parse scenarioRows)
  = [(Fin 60, true, false); (Fin 55, true, false); (Fin 65, false, true)].
Proof. vm_compute. reflexivity. Qed.

(** C1, as stated, fails on the sample rows: the first point (60 s) comes
    out with [wiped = true]. *)
Lemma scenario_first_point_wiped :
  ~ (exists p1 p2 p3,
       timeline IsoDate.parse scenarioRows = [p1; p2; p3]
       /\ wipedBoundary p3 = true /\ wiped p2 = true /\ wiped p1 = false).
Proof.
  intros (p1 & p2 & p3 & H & _ & _ & Hw).
  assert (map wiped (timeline IsoDate.parse scenarioRows) = [true; true; false])
    as Hflags by (vm_compute; reflexivity).
  rewrite H in Hflags. simpl in Hflags. congruence.
Qed.

Lemma scenario_flags_witness :
  timeline IsoDate.parse scenarioRows =
    [ mkTimelinePoint
        (mkPoint (sampleRow "2015-01-01" "1:00.00" "record" "")
                 0 1420070400000 (Fin 60)) true false;
      mkTimelinePoint
        (mkPoint (sampleRow "2015-01-02" "0:55.00" "record" "")
                 1 1420156800000 (Fin 55)) true false;
      mkTimelinePoint
        (mkPoint (sampleRow "2015-01-03" "1:05.00" "announcement" "irc_set")
                 2 1420243200000 (Fin 65)) false true ].
Proof.
  apply (scenario_flags IsoDate.parse); try (vm_compute; reflexivity);
    try lia.
Defined.

Example wipe_timeline :
  map (fun p => (recordSeconds (point p), wiped p, wipedBoundary p))
      (timeline IsoDate.parse wipeRows)
  = [(Fin 60, true, false); (Fin 70, false, true);
     (Fin 50, true, false); (Fin 55, false, true)].
Proof. vm_compute. reflexivity. Qed.

(** C2, as stated, fails on [wipeRows]: the first point (60 s) is wiped
    by the boundary of 70 s, and the later boundary of 55 s is below it. *)
Lemma wiped_not_below_every_boundary :
  ~ (forall (i j : nat) (A B : TimelinePoint),
       i < j ->
       timeline IsoDate.parse wipeRows !! i = Some A ->
       timeline IsoDate.parse wipeRows !! j = Some B ->
       wipedBoundary B = true -> wiped A = true ->
       lt (recordSeconds (point A)) (recordSeconds (point B)) = true).
Proof.
  intros H.
  destruct (timeline IsoDate.parse wipeRows !! 0) as [A|] eqn:HA;
    [|by vm_compute in HA].
  destruct (timeline IsoDate.parse wipeRows !! 3) as [B|] eqn:HB;
    [|by vm_compute in HB].
  assert (lt (recordSeconds (point A)) (recordSeconds (point B)) = true) as Hlt.
  { apply (H 0 3 A B); [lia|done|done|..].
    - vm_compute in HB. by injection HB as <-.
    - vm_compute in HA. by injection HA as <-. }
  vm_compute in HA, HB. injection HA as <-. injection HB as <-.
  by vm_compute in Hlt.
Qed.

Lemma wiped_below_later_boundary_witness :
  exists j B, 0 < j /\ timeline IsoDate.parse wipeRows !! j = Some B
    /\ wipedBoundary B = true
    /\ lt (Fin 60) (sub (recordSeconds (point B)) epsilon) = true
    /\ lt (Fin 60) (recordSeconds (point B)) = true.
Proof.
  apply (wiped_below_later_boundary IsoDate.parse wipeRows 0
           (mkTimelinePoint
              (mkPoint (sampleRow "2015-01-01" "1:00.00" "record" "")
                       0 1420070400000 (Fin 60)) true false)).
  - vm_compute. reflexivity.
  - reflexivity.
Defined.

Lemma current_record_not_wiped_witness :
  wiped (mkTimelinePoint
           (mkPoint (sampleRow "2015-01-04" "0:55.00" "record" "")
                    3 1420329600000 (Fin 55)) false true) = false.
Proof.
  apply (current_record_not_wiped IsoDate.parse wipeRows).
  vm_compute. reflexivity.
Defined.

Example dropped_timeline :
  map (fun p => (rowIndex (point p), recordSeconds (point p), wiped p, wipedBoundary p))
      (timeline IsoDate.parse droppedRows)
  = [(0, Fin 60, false, false); (2, Fin 50, false, false)].
Proof. vm_compute. reflexivity. Qed.

(** C4, as stated, fails on [droppedRows]: the second point of the output
    has [rowIndex = 2], and [rowIndex = 1] when the output is fed back. *)
Lemma rerun_renumbers_rows :
  timeline IsoDate.parse (rowsOf (timeline IsoDate.parse droppedRows))
  <> timeline IsoDate.parse droppedRows.
Proof.
  intros H. apply (f_equal (map (fun p => rowIndex (point p)))) in H.
  vm_compute in H. discriminate.
Qed.



Lemma epoch_row_excluded_witness :
  timeline IsoDate.parse epochRows = timeline (epochAsNaN IsoDate.parse) epochRows
  /\ Forall (fun p => rowIndex (point p) <> 1) (timeline IsoDate.parse epochRows).
Proof.
  split.
  - apply (proj1 (epoch_row_excluded IsoDate.parse)).
  - apply Forall_forall.
    apply (proj2 (epoch_row_excluded IsoDate.parse) epochRows 1
             (sampleRow "1970-01-01T00:00:00Z" "0:50.00" "record" "")
             eq_refl eq_refl).
Defined.

Lemma timeline_idempotent_up_to_index_witness :
  timeline IsoDate.parse (rowsOf (timeline IsoDate.parse droppedRows))
  = imap setIndex (timeline IsoDate.parse droppedRows).
Proof. apply (proj1 (timeline_idempotent_up_to_index IsoDate.parse droppedRows)). Defined.

Example epoch_timeline :
  map (fun p => (rowIndex (point p), dateValue (point p)))
      (timeline IsoDate.parse epochRows)
  = [(0, (-86400000)%Z); (2, 86400000%Z)].
Proof. vm_compute. reflexivity. Qed.

(** ** Strings *)

Lemma string_length_ind (P : string -> Prop) :
  (forall s, (forall t, String.length t < String.length s -> P t) -> P s) ->
  forall s, P s.
Proof.
  intros H s. remember (String.length s) as n eqn:Hn.
  revert s Hn. induction (lt_wf n) as [n _ IH]. intros s ->.
  apply H. intros t Ht. by apply (IH (String.length t)).
Qed.

Lemma string_app_nil_r (s : string) : s +:+ "" = s.
Proof. induction s; simpl; [done|]. unfold String.app in *. simpl. by f_equal. Qed.

Lemma string_app_assoc (a b c : string) : (a +:+ b) +:+ c = a +:+ (b +:+ c).
Proof. induction a; simpl; [done|]. unfold String.app in *. simpl. by f_equal. Qed.

Lemma string_app_cons (ch : ascii) (a b : string) :
  String ch a +:+ b = String ch (a +:+ b).
Proof. done. Qed.

Lemma string_app_char (ch : ascii) (s : string) :
  String ch "" +:+ s = String ch s.
Proof. done. Qed.

Lemma string_app_length (a b : string) :
  String.length (a +:+ b) = String.length a + String.length b.
Proof. induction a; simpl; [done|]. unfold String.app in *. simpl. by f_equal. Qed.

Lemma eqChar_eq (a b : ascii) : eqChar a b = true <-> a = b.
Proof.
  unfold eqChar. rewrite N.eqb_eq. split; [|by intros ->].
  intros H. by rewrite <- (ascii_N_embedding a), <- (ascii_N_embedding b), H.
Qed.

(** ** The CSV decoder *)

Module CsvFacts.
Import Csv.

Lemma endRecord_length (rs : list (list string)) (r : list string) (f : string) :
  length rs <= length (endRecord rs r f) <= S (length rs).
Proof.
  unfold endRecord. destruct (hasContent _); rewrite ?length_app; simpl; lia.
Qed.

Lemma finish_length (st : scanState) :
  length (finish st) <= S (length (rows st)).
Proof.
  unfold finish. destruct (_ || _); [|lia].
  apply endRecord_length.
Qed.

Lemma lineCount_cons (ch : ascii) (text : string) :
  lineCount text <= lineCount (String ch text).
Proof. simpl. destruct (eqChar _ _); lia. Qed.

(** The decoder makes at most one record per physical line. *)
Lemma scan_rows_bound (text : string) :
  forall st,
    length (finish (scan text st))
      <= length (rows st) + Nat.max 1 (lineCount text)
    /\ (row st = [] -> field st = "" ->
        length (finish (scan text st)) <= length (rows st) + lineCount text).
Proof.
  induction text as [text IH] using string_length_ind. intros st.
  destruct text as [|ch rest].
  - simpl. split.
    + pose proof (finish_length st). lia.
    + intros Hr Hf. unfold finish. rewrite Hr, Hf. simpl. lia.
  - assert (Hrest : forall st', 
             length (finish (scan rest st'))
               <= length (rows st') + Nat.max 1 (lineCount rest)).
    { intros st'. apply IH. simpl. lia. }
    pose proof (lineCount_cons ch rest) as Hmono.
    cbn [scan].
    destruct (inQuotes st) eqn:Hq.
    + (* inside a quoted field: the row count cannot grow past one *)
      assert (Hgoal : forall st', rows st' = rows st ->
                (length (finish (scan rest st'))
                  <= length (rows st) + Nat.max 1 (lineCount (String ch rest)))).
      { intros st' <-. specialize (Hrest st'). lia. }
      destruct (eqChar ch dquote) eqn:Hch.
      * assert (Hlc : lineCount (String ch rest) = Nat.max 1 (lineCount rest)).
        { simpl. apply eqChar_eq in Hch as ->. done. }
        destruct rest as [|next rest'].
        -- pose proof (finish_length (mkScan (rows st) (row st) (field st) false)) as Hfin.
           cbn [scan]. split; [simpl in *; lia|].
           intros Hr Hf. unfold finish. simpl. rewrite Hr, Hf. simpl. lia.
        -- destruct (eqChar next dquote) eqn:Hnext.
           ++ destruct (IH rest' ltac:(simpl; lia)
                          (mkScan (rows st) (row st) (field st +:+ String dquote "") true))
                as [H1 _]. cbn [rows] in H1.
              pose proof (lineCount_cons next rest').
              split; [lia|]. intros _ _. rewrite Hlc. lia.
           ++ specialize (Hrest (mkScan (rows st) (row st) (field st) false)).
              cbn [rows] in Hrest. split; [lia|]. intros _ _. rewrite Hlc. lia.
      * specialize (Hrest (mkScan (rows st) (row st) (field st +:+ String ch "") true)).
        cbn [rows] in Hrest. split; [lia|]. intros _ _.
        simpl. destruct (eqChar ch "010"); lia.
    + destruct (eqChar ch dquote) eqn:Hdq.
      { specialize (Hrest (mkScan (rows st) (row st) (field st) true)).
        cbn [rows] in Hrest. apply eqChar_eq in Hdq as ->.
        split; [lia|]. intros _ _. simpl. lia. }
      destruct (eqChar ch ",") eqn:Hcomma.
      { specialize (Hrest (mkScan (rows st) (row st ++ [field st]) "" false)).
        cbn [rows] in Hrest. apply eqChar_eq in Hcomma as ->.
        split; [lia|]. intros _ _. simpl. lia. }
      destruct (eqChar ch "013") eqn:Hcr.
      { apply eqChar_eq in Hcr as ->.
        destruct (IH rest ltac:(simpl; lia) st) as [H1 H2].
        split; [lia|]. intros Hr Hf. specialize (H2 Hr Hf). simpl. lia. }
      destruct (eqChar ch "010") eqn:Hlf.
      { destruct (IH rest ltac:(simpl; lia)
                    (mkScan (endRecord (rows st) (row st) (field st)) [] "" false))
          as [_ H2].
        specialize (H2 eq_refl eq_refl). simpl in H2.
        pose proof (endRecord_length (rows st) (row st) (field st)).
        simpl. rewrite Hlf. split; lia. }
      specialize (Hrest (mkScan (rows st) (row st) (field st +:+ String ch "") false)).
      cbn [rows] in Hrest. simpl. rewrite Hlf. split; lia.
Qed.

Lemma parseCsvRows_lines (text : string) :
  length (parseCsvRows text) <= lineCount text.
Proof.
  destruct (scan_rows_bound text scanStart) as [_ H].
  apply (H eq_refl eq_refl).
Qed.


Lemma hasContent_app (a b : list string) :
  hasContent (a ++ b) = hasContent a || hasContent b.
Proof. unfold hasContent. apply existsb_app. Qed.

(** From the start of a record, a line of empty fields leaves no trace. *)
Lemma scan_emptyFields (line : string) :
  forall st post,
    emptyFields line = true ->
    inQuotes st = false -> field st = "" -> hasContent (row st) = false ->
    scan (line +:+ String "010" post) st
      = scan post (mkScan (rows st) [] "" false)
    /\ finish (scan line st) = rows st.
Proof.
  induction line as [|ch line IH]; intros st post He Hq Hf Hr.
  - change ("" +:+ String "010" post) with (String "010" post).
    cbn [scan]. rewrite Hq. cbn [eqChar]. simpl.
    unfold finish, endRecord. rewrite Hf, hasContent_app, Hr. simpl.
    split; [done|]. by destruct (0 <? length (row st))%nat.
  - rewrite string_app_cons. cbn [scan]. rewrite Hq.
    unfold emptyFields in He. cbn [allChars] in He.
    apply andb_true_iff in He as [Hch He].
    destruct (eqChar ch ",") eqn:Hcomma.
    + apply eqChar_eq in Hcomma as ->.
      change (eqChar "," dquote) with false. cbn iota.
      apply (IH (mkScan (rows st) (row st ++ [field st]) "" false));
        [done..|].
      cbn [row]. by rewrite hasContent_app, Hr, Hf.
    + simpl in Hch. rewrite Hch. apply eqChar_eq in Hch as ->.
      change (eqChar "013" dquote) with false. cbn iota.
      by apply IH.
Qed.

(** Splitting the input before a character that is not a quote. *)
Lemma scan_app_notquote (p : string) :
  forall (c : ascii) (b : string) (st : scanState),
    eqChar c dquote = false ->
    scan (p +:+ String c b) st = scan (String c b) (scan p st).
Proof.
  induction p as [p IH] using string_length_ind. intros c b st Hc.
  destruct p as [|ch rest]; [done|].
  assert (Hrest : forall st', scan (rest +:+ String c b) st'
                              = scan (String c b) (scan rest st')).
  { intros st'. apply IH; [simpl; lia|done]. }
  rewrite string_app_cons.
  remember (String c b) as cb eqn:Hcb.
  cbn [scan]. destruct (inQuotes st).
  - destruct (eqChar ch dquote).
    + destruct rest as [|next rest'].
      * change ("" +:+ cb) with cb. subst cb. by rewrite Hc.
      * rewrite string_app_cons. destruct (eqChar next dquote).
        -- subst cb. apply IH; [simpl; lia|done].
        -- rewrite <- string_app_cons. subst cb. apply Hrest.
    + subst cb. apply Hrest.
  - subst cb. repeat (destruct (eqChar ch _); [apply Hrest|]). apply Hrest.
Qed.

(** An input that ends inside a quoted field reads as if the quote were
    closed at the end. *)
Lemma scan_close (text : string) :
  forall st,
    inQuotes (scan text st) = true ->
    scan (text +:+ String dquote "") st = closeQuote (scan text st).
Proof.
  induction text as [text IH] using string_length_ind. intros st.
  destruct text as [|ch rest].
  - simpl. intros Hq. change ("" +:+ String dquote "") with (String dquote "").
    cbn [scan]. rewrite Hq. done.
  - assert (Hrest : forall st', inQuotes (scan rest st') = true ->
              scan (rest +:+ String dquote "") st' = closeQuote (scan rest st')).
    { intros st'. apply IH. simpl. lia. }
    rewrite string_app_cons. remember (String dquote "") as dq eqn:Hdq.
    cbn [scan]. destruct (inQuotes st).
    + destruct (eqChar ch dquote).
      * destruct rest as [|next rest'].
        -- simpl. done.
        -- rewrite string_app_cons. destruct (eqChar next dquote).
           ++ subst dq. apply IH. simpl. lia.
           ++ rewrite <- string_app_cons. subst dq. apply Hrest.
      * subst dq. apply Hrest.
    + subst dq. repeat (destruct (eqChar ch _); [apply Hrest|]). apply Hrest.
Qed.

Lemma finish_closeQuote (st : scanState) : finish (closeQuote st) = finish st.
Proof. done. Qed.

Lemma finish_content (st : scanState) :
  hasContent (row st ++ [field st]) = true ->
  finish st = rows st ++ [row st ++ [field st]].
Proof.
  intros H. unfold finish, endRecord. rewrite H.
  destruct (field st) as [|c f] eqn:Hf; [|done].
  destruct (row st) as [|r rs] eqn:Hr; [|done].
  by vm_compute in H.
Qed.

Lemma finish_blank (st : scanState) :
  hasContent (row st ++ [field st]) = false -> finish st = rows st.
Proof.
  intros H. unfold finish, endRecord. rewrite H. by destruct (_ || _).
Qed.

(** C8.  The decoder is a total function, with no error outcome.  A text
    of at most one physical line decodes to no row.  A physical line made
    of empty fields only, starting a record, adds no row, whether it is
    ended by a line feed or is the last line.  A text that ends inside a
    quoted field decodes as if the quote were closed at the end, and the
    pending record is treated like any other: it is the last record when
    one of its cells is not blank, and it is dropped when all are. *)
Theorem csv_decoder_tolerant :
  (forall text : string, lineCount text <= 1 -> parseCsv text = [])
  /\ (forall pre line post : string,
        pre = "" \/ (exists p, pre = p +:+ String "010" "") ->
        inQuotes (scan pre scanStart) = false ->
        emptyFields line = true ->
        parseCsvRows (pre +:+ line +:+ String "010" post)
          = parseCsvRows (pre +:+ post)
        /\ parseCsvRows (pre +:+ line) = parseCsvRows pre)
  /\ (forall text : string,
        inQuotes (scan text scanStart) = true ->
        parseCsvRows (text +:+ String dquote "") = parseCsvRows text
        /\ (hasContent (row (scan text scanStart)
                          ++ [field (scan text scanStart)]) = true ->
            parseCsvRows text
              = rows (scan text scanStart)
                ++ [row (scan text scanStart) ++ [field (scan text scanStart)]])
        /\ (hasContent (row (scan text scanStart)
                          ++ [field (scan text scanStart)]) = false ->
            parseCsvRows text = rows (scan text scanStart))).
Proof.
  split; [|split].
  - intros text Hl. unfold parseCsv.
    pose proof (parseCsvRows_lines text) as Hb.
    destruct (Nat.leb_spec (length (parseCsvRows text)) 1); [done|lia].
  - intros pre line post Hpre Hq He. unfold parseCsvRows.
    destruct Hpre as [-> | [p ->]].
    + change ("" +:+ ?x) with x.
      destruct (scan_emptyFields line scanStart post He) as [H1 H2]; try done.
      by rewrite H1, H2.
    + rewrite !string_app_assoc.
      change (String "010" "" +:+ ?x) with (String "010" x).
      rewrite !(scan_app_notquote p "010") by done.
      rewrite (scan_app_notquote p "010") in Hq by done.
      set (s := scan p scanStart) in *.
      cbn [scan] in Hq |- *.
      destruct (inQuotes s) eqn:Hs; [done|].
      change (eqChar "010" dquote) with false in *.
      change (eqChar "010" ",") with false in *.
      change (eqChar "010" "013") with false in *.
      change (eqChar "010" "010") with true in *. cbn iota in *.
      set (f := mkScan _ [] "" false) in *.
      destruct (scan_emptyFields line f post He) as [H1 H2]; try done.
      rewrite H1, H2. done.
  - intros text Hq. unfold parseCsvRows. split; [|split].
    + by rewrite scan_close, finish_closeQuote.
    + apply finish_content.
    + apply finish_blank.
Qed.

Lemma csv_decoder_tolerant_witness :
  parseCsv "date,record_time,evidence" = []
  /\ parseCsvRows ("a,b" +:+ String "010" "" +:+ ",," +:+ String "010" "1,2")
      = parseCsvRows ("a,b" +:+ String "010" "" +:+ "1,2")
  /\ parseCsvRows (("a" +:+ String "010" (String dquote "b,c")) +:+ String dquote "")
      = parseCsvRows ("a" +:+ String "010" (String dquote "b,c"))
  /\ parseCsvRows ("a" +:+ String "010" (String dquote "b,c")) = [["a"]; ["b,c"]].
Proof.
  destruct csv_decoder_tolerant as (Hline & Hempty & Hquote).
  split; [|split; [|split]].
  - apply Hline. vm_compute. lia.
  - apply (Hempty ("a,b" +:+ String "010" "") ",," "1,2");
      [right; by exists "a,b"|reflexivity..].
  - apply (proj1 (Hquote ("a" +:+ String "010" (String dquote "b,c")) eq_refl)).
  - apply (proj1 (proj2 (Hquote ("a" +:+ String "010" (String dquote "b,c")) eq_refl))).
    reflexivity.
Defined.

(** C8, as stated, fails on the text [a], line feed, double quote, space:
    it ends inside a quoted field whose record holds a blank cell only, and
    that pending record is not emitted. *)
Lemma unterminated_blank_record_dropped :
  inQuotes (scan ("a" +:+ String "010" (String dquote " ")) scanStart) = true
  /\ row (scan ("a" +:+ String "010" (String dquote " ")) scanStart)
     ++ [field (scan ("a" +:+ String "010" (String dquote " ")) scanStart)] = [" "]
  /\ parseCsvRows ("a" +:+ String "010" (String dquote " ")) = [["a"]]
  /\ ~ (exists before,
          parseCsvRows ("a" +:+ String "010" (String dquote " "))
          = before ++ [[" "]]).
Proof.
  split; [reflexivity|]. split; [reflexivity|]. split; [reflexivity|].
  intros [before H].
  change (parseCsvRows ("a" +:+ String "010" (String dquote " "))) with [["a"]] in H.
  destruct before as [|r [|r' before]]; simpl in H; discriminate H.
Qed.

Example csv_sample :
  parseCsvRows ("a,b" +:+ String "010" ("1,2" +:+ String "010" (",," +:+ String "010"
    ("3," +:+ String dquote "un"))))
  = [["a"; "b"]; ["1"; "2"]; ["3"; "un"]].
Proof. vm_compute. reflexivity. Qed.

(** A header alone decodes to no row, and the reconstructor then returns
    the empty timeline. *)
Example header_only :
  timeline IsoDate.parse (parseCsv "date,record_time,evidence") = [].
Proof. vm_compute. reflexivity. Qed.

End CsvFacts.

(** ** More on strings *)

Lemma isDigit_not_space (c : ascii) : isDigit c = true -> isWhiteSpace c = false.
Proof. by destruct c as [[] [] [] [] [] [] [] []]. Qed.

Lemma isDigit_not_colon (c : ascii) : isDigit c = true -> eqChar ":" c = false.
Proof. by destruct c as [[] [] [] [] [] [] [] []]. Qed.

Lemma string_snoc_nonempty (s : string) (c : ascii) :
  exists a t, s +:+ String c "" = String a t.
Proof. destruct s as [|a s]; [by exists c, ""|]. by exists a, (s +:+ String c ""). Qed.

Lemma trimEnd_snoc (s : string) (c : ascii) :
  isWhiteSpace c = false -> trimEnd (s +:+ String c "") = s +:+ String c "".
Proof.
  intros Hc. induction s as [|a s IH].
  - change ("" +:+ String c "") with (String c ""). simpl. by rewrite Hc.
  - rewrite string_app_cons. cbn [trimEnd]. rewrite IH.
    by destruct (string_snoc_nonempty s c) as (b & t & ->).
Qed.

Lemma allChars_snoc (f : ascii -> bool) (s : string) :
  s <> "" -> allChars f s = true ->
  exists s' c, s = s' +:+ String c "" /\ f c = true.
Proof.
  induction s as [|a s IH]; [done|]. intros _ H. simpl in H.
  apply andb_true_iff in H as [Ha Hs].
  destruct s as [|b s].
  - by exists "", a.
  - destruct (IH ltac:(done) Hs) as (s' & c & -> & Hc).
    by exists (String a s'), c.
Qed.

Lemma isDigits_allChars (s : string) : isDigits s = true -> allChars isDigit s = true.
Proof. by destruct s. Qed.

Lemma isDigits_snoc (s : string) :
  isDigits s = true -> exists s' c, s = s' +:+ String c "" /\ isDigit c = true.
Proof.
  intros H. apply allChars_snoc; [by destruct s|by apply isDigits_allChars].
Qed.

Lemma allChars_impl (f g : ascii -> bool) (s : string) :
  (forall c, f c = true -> g c = true) -> allChars f s = true -> allChars g s = true.
Proof.
  intros Hfg. induction s as [|a s IH]; simpl; [done|].
  rewrite !andb_true_iff. intros [Ha Hs]. auto.
Qed.

Lemma colonFree_cons (a : ascii) (x : string) :
  Steam.colonFree (String a x) = true <->
  eqChar ":" a = false /\ Steam.colonFree x = true.
Proof.
  unfold Steam.colonFree. cbn [allChars].
  by rewrite andb_true_iff, negb_true_iff.
Qed.

Lemma split_colon_free (x : string) :
  Steam.colonFree x = true -> split ":" x = [x].
Proof.
  induction x as [|a x IH]; [done|].
  intros [Ha Hx]%colonFree_cons. cbn [split]. by rewrite Ha, IH.
Qed.

Lemma split_colon_app (x r : string) :
  Steam.colonFree x = true -> split ":" (x +:+ String ":" r) = x :: split ":" r.
Proof.
  induction x as [|a x IH]; [done|].
  intros [Ha Hx]%colonFree_cons.
  rewrite string_app_cons. cbn [split]. by rewrite Ha, IH.
Qed.

Lemma split_nonempty (c : ascii) (s : string) : split c s <> [].
Proof.
  destruct s as [|a s]; simpl; [done|].
  destruct (eqChar c a); [done|]. by destruct (split c s).
Qed.

Lemma join_cons (sep : ascii) (a : string) (parts : list string) :
  parts <> [] -> join sep (a :: parts) = a +:+ String sep (join sep parts).
Proof. by destruct parts. Qed.

Lemma join_split (u : string) : join ":" (split ":" u) = u.
Proof.
  induction u as [|ch u IH]; [done|]. cbn [split].
  pose proof (split_nonempty ":" u) as Hne.
  destruct (eqChar ":" ch) eqn:Hch.
  - apply eqChar_eq in Hch as <-.
    by rewrite join_cons, IH.
  - destruct (split ":" u) as [|p ps]; [done|].
    destruct ps as [|q ps].
    + simpl in *. by rewrite IH.
    + rewrite join_cons in IH |- * by done.
      by rewrite string_app_cons, IH.
Qed.

Lemma split_colonFree (u : string) :
  Forall (fun p => Steam.colonFree p = true) (split ":" u).
Proof.
  induction u as [|ch u IH]; [by repeat constructor|]. cbn [split].
  destruct (eqChar ":" ch) eqn:Hch; [by constructor|].
  destruct (split ":" u) as [|p ps].
  - constructor; [by apply colonFree_cons|constructor].
  - apply Forall_cons in IH as [Hp Hps]. constructor; [|done].
    by apply colonFree_cons.
Qed.

Lemma trimEnd_cons (c : ascii) (s : string) :
  isWhiteSpace c = false -> trimEnd (String c s) = String c (trimEnd s).
Proof. intros Hc. cbn [trimEnd]. destruct (trimEnd s); [by rewrite Hc|done]. Qed.

Lemma trimEnd_cons_kept (c a : ascii) (s t : string) :
  trimEnd s = String a t -> trimEnd (String c s) = String c (String a t).
Proof. intros H. cbn [trimEnd]. by rewrite H. Qed.

Lemma trimEnd_idem (s : string) : trimEnd (trimEnd s) = trimEnd s.
Proof.
  induction s as [|c s IH]; [done|]. cbn [trimEnd].
  destruct (trimEnd s) as [|a t] eqn:E.
  - destruct (isWhiteSpace c) eqn:Hc; [done|]. simpl. by rewrite Hc.
  - by apply trimEnd_cons_kept.
Qed.

Lemma trimStart_cases (s : string) :
  trimStart s = ""
  \/ exists c r, trimStart s = String c r /\ isWhiteSpace c = false.
Proof.
  induction s as [|c s IH]; [by left|]. simpl.
  destruct (isWhiteSpace c) eqn:Hc; [done|]. right. by exists c, s.
Qed.

Lemma trim_idem (s : string) : trim (trim s) = trim s.
Proof.
  unfold trim. destruct (trimStart_cases s) as [-> | (c & r & -> & Hc)]; [done|].
  rewrite trimEnd_cons by done. cbn [trimStart]. rewrite Hc.
  rewrite trimEnd_cons by done. by rewrite trimEnd_idem.
Qed.

(** A text that neither starts nor ends with white space is its own trim. *)
Lemma trim_id (a c : ascii) (r s' : string) :
  isWhiteSpace a = false -> isWhiteSpace c = false ->
  String a r = s' +:+ String c "" -> trim (String a r) = String a r.
Proof.
  intros Ha Hc E. unfold trim. cbn [trimStart]. rewrite Ha, E.
  by apply trimEnd_snoc.
Qed.

Lemma substring_all (s : string) : String.substring 0 (String.length s) s = s.
Proof. induction s as [|c s IH]; simpl; [done|]. by rewrite IH. Qed.

Lemma startsWith_app (p t : string) :
  startsWith t p = true -> exists u, t = p +:+ u.
Proof.
  revert t. induction p as [|a p IH]; intros t; [by exists t|].
  destruct t as [|c t]; [done|]. cbn [startsWith].
  intros [Hac Ht]%andb_true_iff. apply eqChar_eq in Hac as ->.
  destruct (IH t Ht) as [u ->]. by exists u.
Qed.

Lemma string_snoc_cases (s : string) :
  s = "" \/ exists s' c, s = s' +:+ String c "".
Proof.
  induction s as [|a s IH]; [by left|]. right.
  destruct IH as [-> | (s' & c & ->)].
  - by exists "", a.
  - by exists (String a s'), c.
Qed.

Lemma string_rev_app_snoc (s acc : string) (c : ascii) :
  String.rev_app (s +:+ String c "") acc = String c (String.rev_app s acc).
Proof.
  revert acc. induction s as [|x s IH]; intros acc; [done|].
  rewrite string_app_cons. simpl. apply IH.
Qed.

Lemma string_rev_snoc (s : string) (c : ascii) :
  String.rev (s +:+ String c "") = String c (String.rev s).
Proof. apply string_rev_app_snoc. Qed.

Lemma allChars_app (f : ascii -> bool) (a b : string) :
  allChars f (a +:+ b) = allChars f a && allChars f b.
Proof.
  induction a as [|c a IH]; [done|].
  rewrite string_app_cons. cbn [allChars]. by rewrite IH, andb_assoc.
Qed.

Lemma string_app_inj_length (a b c d : string) :
  a +:+ b = c +:+ d -> String.length b = String.length d -> a = c /\ b = d.
Proof.
  revert c. induction a as [|x a IH]; intros [|y c] E Hl.
  - done.
  - change ("" +:+ b) with b in E. subst b.
    rewrite string_app_length in Hl. simpl in Hl. lia.
  - change ("" +:+ d) with d in E. subst d.
    rewrite string_app_length in Hl. simpl in Hl. lia.
  - rewrite !string_app_cons in E. injection E as -> E.
    destruct (IH c E Hl) as [-> ->]. done.
Qed.

(** ** The identity resolver *)

Module SteamFacts.
Import Steam.

Lemma slice_prefix6 (a b c d e f : ascii) (u : string) :
  let t := String a (String b (String c (String d (String e (String f u))))) in
  slice t 6 (Z.of_nat (String.length t)) = u.
Proof.
  simpl. unfold slice. cbn [String.length].
  set (n := String.length u).
  replace (6 <? 0)%Z with false by done.
  destruct (Z.ltb_spec (Z.of_nat (S (S (S (S (S (S n))))))) 0); [lia|].
  rewrite Z.min_id, Z.min_l by lia.
  replace (Z.to_nat (Z.of_nat (S (S (S (S (S (S n)))))) - 6)) with n by lia.
  change (Z.to_nat 6) with 6. simpl. apply substring_all.
Qed.

Lemma startsWith_prefix6 (u : string) :
  startsWith
    (String "S" (String "T" (String "E" (String "A" (String "M" (String "_" u))))))
    "STEAM_" = true.
Proof. reflexivity. Qed.

Lemma normalizeSteamId64_trimmed (s : string) :
  normalizeSteamId64 (Some (trim s)) =
    if isId64 (trim s) then
      match trim s with EmptyString => None | t => Some t end
    else None.
Proof.
  unfold normalizeSteamId64. rewrite trim_idem.
  destruct (trim s) eqn:E; [by destruct (isId64 _)|].
  by destruct (isId64 _).
Qed.

(** The legacy branch on a text of the shape [STEAM_X:Y:Z]. *)
Lemma parseLegacy_shape (x y z : string) :
  colonFree x = true -> isDigits y = true -> isDigits z = true ->
  parseLegacy ("STEAM_" +:+ x +:+ ":" +:+ y +:+ ":" +:+ z)
  = Some (pretty (STEAM_ID64_BASE + digitsValue z * 2 + digitsValue y)%N).
Proof.
  intros Hx Hy Hz. unfold parseLegacy.
  set (tail := x +:+ ":" +:+ y +:+ ":" +:+ z).
  change ("STEAM_" +:+ tail)
    with (String "S" (String "T" (String "E" (String "A" (String "M" (String "_" tail)))))).
  rewrite slice_prefix6, startsWith_prefix6.
  unfold tail. rewrite !string_app_char.
  assert (colonFree y = true) as Hy'.
  { eapply allChars_impl; [|by apply isDigits_allChars].
    intros c Hc. by rewrite isDigit_not_colon. }
  assert (colonFree z = true) as Hz'.
  { eapply allChars_impl; [|by apply isDigits_allChars].
    intros c Hc. by rewrite isDigit_not_colon. }
  rewrite !split_colon_app, split_colon_free by done.
  by rewrite Hy, Hz.
Qed.

Lemma parseLegacy_inv (t r : string) :
  parseLegacy t = Some r -> isLegacy t.
Proof.
  unfold parseLegacy. destruct (startsWith t "STEAM_") eqn:Hs; [|done].
  apply startsWith_app in Hs as [u ->].
  change ("STEAM_" +:+ u)
    with (String "S" (String "T" (String "E" (String "A" (String "M" (String "_" u)))))).
  rewrite slice_prefix6.
  pose proof (join_split u) as Hj. pose proof (split_colonFree u) as Hf.
  destruct (split ":" u) as [|x [|y [|z [|w l]]]]; try done.
  destruct (isDigits y) eqn:Hy; [|done].
  destruct (isDigits z) eqn:Hz; [|done]. intros _.
  exists x, y, z. apply Forall_cons in Hf as [Hx _].
  simpl in Hj. by rewrite <- Hj.
Qed.


Lemma trim_legacy (x y z : string) :
  isDigits z = true ->
  trim ("STEAM_" +:+ x +:+ ":" +:+ y +:+ ":" +:+ z)
  = "STEAM_" +:+ x +:+ ":" +:+ y +:+ ":" +:+ z.
Proof.
  intros (z' & c & -> & Hc)%isDigits_snoc.
  rewrite <- !string_app_assoc.
  set (pre := (((("STEAM_" +:+ x) +:+ ":") +:+ y) +:+ ":") +:+ z').
  assert (exists r, pre +:+ String c "" = String "S" r) as [r Hr].
  { unfold pre. rewrite !string_app_assoc. by eexists. }
  rewrite Hr. eapply trim_id; [done| |done].
  by apply isDigit_not_space.
Qed.

(** *** The bracketed branch *)

Lemma endsWith_snoc (s : string) (c d : ascii) :
  endsWith (s +:+ String c "") (String d "") = eqChar d c.
Proof.
  unfold endsWith. rewrite string_rev_snoc. simpl. apply andb_true_r.
Qed.

Lemma endsWith_inv (t : string) (d : ascii) :
  endsWith t (String d "") = true -> exists w, t = w +:+ String d "".
Proof.
  destruct (string_snoc_cases t) as [-> | (w & c & ->)]; [done|].
  rewrite endsWith_snoc. intros ->%eqChar_eq. by exists w.
Qed.

Lemma lastIndexOf_free (b : string) :
  colonFree b = true -> lastIndexOf ":" b = (-1)%Z.
Proof.
  induction b as [|x b IH]; [done|].
  intros [Hx Hb]%colonFree_cons. cbn [lastIndexOf]. by rewrite IH, Hx.
Qed.

Lemma lastIndexOf_bounds (c : ascii) (s : string) :
  (-1 <= lastIndexOf c s)%Z.
Proof.
  induction s as [|x s IH]; simpl; [lia|].
  destruct (Z.leb_spec 0 (lastIndexOf c s)); [lia|].
  destruct (eqChar c x); lia.
Qed.

Lemma lastIndexOf_app (a b : string) :
  colonFree b = true ->
  lastIndexOf ":" (a +:+ String ":" b) = Z.of_nat (String.length a).
Proof.
  intros Hb. induction a as [|x a IH].
  - change ("" +:+ String ":" b) with (String ":" b). cbn [lastIndexOf].
    by rewrite lastIndexOf_free.
  - rewrite string_app_cons. cbn [lastIndexOf String.length]. rewrite IH.
    destruct (Z.leb_spec 0 (Z.of_nat (String.length a))); lia.
Qed.

Lemma lastIndexOf_inv (t : string) :
  (0 <= lastIndexOf ":" t)%Z ->
  exists a b, t = a +:+ String ":" b /\ colonFree b = true
              /\ lastIndexOf ":" t = Z.of_nat (String.length a).
Proof.
  induction t as [|x t IH]; [simpl; lia|]. cbn [lastIndexOf].
  destruct (Z.leb_spec 0 (lastIndexOf ":" t)) as [Hr|Hr].
  - intros _. destruct (IH Hr) as (a & b & -> & Hb & Hl).
    exists (String x a), b. rewrite Hl. simpl. repeat split; [done|lia].
  - destruct (eqChar ":" x) eqn:Hx; [|lia]. intros _.
    apply eqChar_eq in Hx as <-. exists "", t. repeat split.
    clear IH. pose proof (lastIndexOf_bounds ":" t) as Hlo.
    assert (lastIndexOf ":" t = (-1)%Z) as Hm by lia. clear Hr Hlo.
    induction t as [|y t IH]; [done|]. cbn [lastIndexOf] in Hm.
    pose proof (lastIndexOf_bounds ":" t).
    destruct (Z.leb_spec 0 (lastIndexOf ":" t)); [lia|].
    destruct (eqChar ":" y) eqn:Hy; [lia|].
    apply colonFree_cons. split; [done|]. apply IH. lia.
Qed.

Lemma substring_skip (a r : string) (k m : nat) :
  String.substring (String.length a + k) m (a +:+ r) = String.substring k m r.
Proof. induction a as [|x a IH]; [done|]. rewrite string_app_cons. simpl. apply IH. Qed.

Lemma substring_prefix (v r : string) :
  String.substring 0 (String.length v) (v +:+ r) = v.
Proof.
  induction v as [|x v IH].
  - change ("" +:+ r) with r. by destruct r.
  - rewrite string_app_cons. simpl. by rewrite IH.
Qed.

(** What [slice(lastColon + 1, -1)] cuts out. *)
Lemma slice_middle (a v : string) (c d : ascii) :
  slice (a +:+ String c (v +:+ String d ""))
        (Z.of_nat (String.length a) + 1) (-1) = v.
Proof.
  unfold slice. rewrite string_app_length. cbn [String.length].
  rewrite string_app_length. cbn [String.length].
  set (n := String.length a). set (m := String.length v).
  destruct (Z.ltb_spec (Z.of_nat n + 1) 0); [lia|].
  change (-1 <? 0)%Z with true. cbn iota.
  rewrite Z.min_l, Z.max_l by lia.
  replace (Z.to_nat (Z.of_nat n + 1)) with (n + 1) by lia.
  replace (Z.to_nat _) with m by lia.
  unfold n. rewrite substring_skip. simpl. apply substring_prefix.
Qed.

Lemma parseBracket_shape (a v : string) :
  startsWith (a +:+ ":" +:+ v +:+ "]") "[U:" = true -> isDigits v = true ->
  parseBracket (a +:+ ":" +:+ v +:+ "]")
  = Some (pretty (STEAM_ID64_BASE + digitsValue v)%N).
Proof.
  intros Hs Hv. unfold parseBracket. rewrite Hs.
  rewrite !string_app_char in *.
  replace (endsWith _ "]") with true; cycle 1.
  { rewrite <- (string_app_char ":"), <- !string_app_assoc.
    by rewrite endsWith_snoc. }
  cbn [andb].
  assert (colonFree (v +:+ "]") = true) as Hfree.
  { unfold colonFree. rewrite allChars_app, andb_true_iff. split; [|done].
    eapply allChars_impl; [|by apply isDigits_allChars].
    intros c Hc. by rewrite isDigit_not_colon. }
  rewrite lastIndexOf_app by done.
  destruct a as [|x a]; [done|].
  destruct (Z.ltb_spec 0 (Z.of_nat (String.length (String x a))));
    [|simpl in *; lia].
  by rewrite slice_middle, Hv.
Qed.

Lemma parseBracket_inv (t r : string) :
  parseBracket t = Some r -> isBracket t.
Proof.
  unfold parseBracket.
  destruct (startsWith t "[U:") eqn:Hs; [|done].
  destruct (endsWith t "]") eqn:He; [|done]. cbn [andb].
  destruct (Z.ltb_spec 0 (lastIndexOf ":" t)) as [Hn|]; [|done].
  destruct (lastIndexOf_inv t) as (a & b & -> & Hb & Hl); [lia|].
  rewrite Hl.
  apply endsWith_inv in He as [w Hw].
  destruct (string_snoc_cases b) as [-> | (v & d & ->)].
  - by apply string_app_inj_length in Hw as [_ Hw].
  - assert (d = "]"%char) as ->.
    { rewrite <- (string_app_char ":"), <- !string_app_assoc in Hw.
      apply string_app_inj_length in Hw as [_ Hw]; [|done]. by injection Hw. }
    rewrite slice_middle.
    destruct (isDigits v) eqn:Hv; [|done]. intros _.
    split; [done|]. exists a, v. by rewrite !string_app_char.
Qed.

(** C6.  The identifier [STEAM_0:1:12345] resolves to
    76561197960265728 + 12345 * 2 + 1 = 76561197960290419.  Every
    identifier [STEAM_X:Y:Z] with numeric [Y] and [Z] resolves to
    [offset + Z * 2 + Y], printed in decimal.  The resolver answers [null]
    for [undefined], and for a text exactly when its trimmed form has none
    of the three supported shapes. *)
Theorem legacy_steam_id :
  parseSteamId64 (Some "STEAM_0:1:12345") = Some "76561197960290419"
  /\ pretty (76561197960265728 + 12345 * 2 + 1)%N = "76561197960290419"
  /\ (forall x y z : string,
        colonFree x = true -> isDigits y = true -> isDigits z = true ->
        parseSteamId64 (Some ("STEAM_" +:+ x +:+ ":" +:+ y +:+ ":" +:+ z))
        = Some (pretty (STEAM_ID64_BASE + digitsValue z * 2 + digitsValue y)%N))
  /\ parseSteamId64 None = None
  /\ (forall s : string,
        parseSteamId64 (Some s) = None <->
        ~ (isDirect (trim s) \/ isBracket (trim s) \/ isLegacy (trim s))).
Proof.
  split; [by vm_compute|]. split; [by vm_compute|]. split; [|split; [done|]].
  - intros x y z Hx Hy Hz.
    pose proof (trim_legacy x y z Hz) as Ht.
    pose proof (parseLegacy_shape x y z Hx Hy Hz) as Hl.
    revert Ht Hl.
    set (tail := x +:+ ":" +:+ y +:+ ":" +:+ z).
    change ("STEAM_" +:+ tail)
      with (String "S" (String "T" (String "E" (String "A" (String "M" (String "_" tail)))))).
    intros Ht Hl. unfold parseSteamId64. rewrite Ht.
    rewrite <- Ht at 1. rewrite normalizeSteamId64_trimmed, Ht.
    replace (isId64 _) with false by done.
    replace (parseBracket _) with (@None string) by done.
    exact Hl.
  - intros s.
    assert (parseSteamId64 (Some s) =
              match trim s with
              | EmptyString => None
              | t => if isId64 t then Some t
                     else match parseBracket t with
                          | Some r => Some r
                          | None => parseLegacy t
                          end
              end) as ->.
    { unfold parseSteamId64. destruct s as [|c s]; [done|].
      rewrite normalizeSteamId64_trimmed.
      destruct (trim (String c s)); [done|]. by destruct (isId64 _). }
    unfold isDirect.
    destruct (trim s) as [|c t] eqn:E.
    { split; [|done]. intros _ [Hd | [[Hb _] | (x & y & z & Hl & _)]]; done. }
    destruct (isId64 (String c t)) eqn:Hd.
    { split; [done|]. intros H. destruct H. by left. }
    destruct (parseBracket (String c t)) as [r|] eqn:Hb.
    { split; [done|]. intros H. destruct H. right. left.
      by eapply parseBracket_inv. }
    destruct (parseLegacy (String c t)) as [r|] eqn:Hl.
    { split; [done|]. intros H. destruct H. right. right.
      by eapply parseLegacy_inv. }
    split; [|done]. intros _ [? | [[Hs (a & v & Ht & Hv)] | (x & y & z & Ht & Hx & Hy & Hz)]].
    + done.
    + rewrite Ht in Hs, Hb. by rewrite parseBracket_shape in Hb.
    + rewrite Ht in Hl. by rewrite parseLegacy_shape in Hl.
Qed.

Lemma legacy_steam_id_witness :
  parseSteamId64 (Some "STEAM_1:0:7") = Some "76561197960265742"
  /\ parseSteamId64 (Some "steam:0:1") = None.
Proof.
  destruct legacy_steam_id as (_ & _ & H & _ & Hnone). split.
  - apply (H "1" "0" "7"); reflexivity.
  - apply Hnone. intros [Hd | [[Hb _] | (x & y & z & E & _)]].
    + vm_compute in Hd. discriminate.
    + vm_compute in Hb. discriminate.
    + vm_compute in E. discriminate.
Defined.

End SteamFacts.

(** ** The matchers *)

Lemma string_rev_app (s1 s2 w : string) :
  String.rev_app s1 s2 +:+ w = String.rev_app s1 (s2 +:+ w).
Proof.
  revert s2. induction s1 as [|c s1 IH]; intros s2; [done|].
  simpl. by rewrite IH.
Qed.

Lemma string_rev_cons (c : ascii) (m w : string) :
  String.rev (String c m) +:+ w = String.rev m +:+ String c w.
Proof. unfold String.rev. simpl. by rewrite !string_rev_app. Qed.

Section MatcherFacts.
Context {A : Type}.

(** A greedy repetition takes the whole run when the rest of the pattern
    matches after it. *)
Lemma starFrom_greedy (cls : ascii -> bool) (w rest m : string)
    (k : string -> string -> option A) (r : A) :
  allChars cls w = true ->
  match rest with String c _ => cls c = false | EmptyString => True end ->
  k (String.rev m +:+ w) rest = Some r ->
  starFrom cls m (w +:+ rest) k = Some r.
Proof.
  revert m. induction w as [|c w IH]; intros m Hw Hrest Hk.
  - change ("" +:+ rest) with rest. rewrite string_app_nil_r in Hk.
    destruct rest as [|c rest]; [done|]. simpl. by rewrite Hrest.
  - cbn [allChars] in Hw. apply andb_true_iff in Hw as [Hc Hw].
    rewrite string_app_cons. cbn [starFrom]. rewrite Hc.
    rewrite (IH (String c m)); [done..|].
    by rewrite string_rev_cons.
Qed.

Lemma star_greedy (cls : ascii -> bool) (w rest : string)
    (k : string -> string -> option A) (r : A) :
  allChars cls w = true ->
  match rest with String c _ => cls c = false | EmptyString => True end ->
  k w rest = Some r ->
  star cls (w +:+ rest) k = Some r.
Proof. intros. by apply starFrom_greedy. Qed.

Lemma plus_greedy (cls : ascii -> bool) (c : ascii) (w rest : string)
    (k : string -> string -> option A) (r : A) :
  allChars cls (String c w) = true ->
  match rest with String c _ => cls c = false | EmptyString => True end ->
  k (String c w) rest = Some r ->
  plus cls (String c w +:+ rest) k = Some r.
Proof.
  cbn [allChars]. intros [Hc Hw]%andb_true_iff Hrest Hk.
  rewrite string_app_cons. unfold plus. rewrite Hc.
  by apply starFrom_greedy.
Qed.

(** What a successful repetition has taken. *)
Lemma starFrom_sound (cls : ascii -> bool) (s m : string)
    (k : string -> string -> option A) (r : A) :
  starFrom cls m s k = Some r ->
  exists w rest, s = w +:+ rest /\ allChars cls w = true
                 /\ k (String.rev m +:+ w) rest = Some r.
Proof.
  revert m. induction s as [|c s IH]; intros m; cbn [starFrom].
  - intros Hk. exists "", "". by rewrite !string_app_nil_r.
  - destruct (cls c) eqn:Hc.
    + destruct (starFrom cls (String c m) s k) as [r'|] eqn:E.
      * intros [= ->]. destruct (IH _ E) as (w & rest & -> & Hw & Hk).
        exists (String c w), rest. rewrite string_rev_cons in Hk.
        cbn [allChars]. by rewrite Hc, Hw.
      * intros Hk. exists "", (String c s). by rewrite !string_app_nil_r.
    + intros Hk. exists "", (String c s). by rewrite !string_app_nil_r.
Qed.


End MatcherFacts.

(** ** The segment classifier *)

Module ZoneFacts.
Import Zone.








Lemma isDigit_not_o (d : ascii) : isDigit d = true -> eqChar_i "o" d = false.
Proof. by destruct d as [[] [] [] [] [] [] [] []]. Qed.



Example sanitize_rooftop : sanitizeSegmentName "Rooftop First" = "Rooftop".
Proof. vm_compute. reflexivity. Qed.

Example classify_samples :
  getZoneInfo (Some "Bonus 2") = Some (mkZone "bonus-2" "Bonus 2" bonus 2)
  /\ getZoneInfo (Some "course 10 (start)")
       = Some (mkZone "course-10" "Course 10" course 10)
  /\ getZoneInfo (Some "C7") = Some (mkZone "segment-7" "C7" segment 7)
  /\ getZoneInfo (Some "C3 - First") = Some (mkZone "segment-3" "C3 - First" segment 3)
  /\ getZoneInfo (Some "Map") = None
  /\ getZoneInfo None = None.
Proof. vm_compute. repeat split. Qed.




End ZoneFacts.

(** * Further properties *)

(** ** More on the number model *)

Lemma lt_trans (x y z : number) : lt x y = true -> lt y z = true -> lt x z = true.
Proof.
  destruct x as [| | |a], y as [| | |b], z as [| | |c]; simpl; try done.
  rewrite !Z.ltb_lt. change (a < b -> b < c -> a < c)%Q. lra.
Qed.

(** Subtracting the tolerance keeps the order of numbers that are not
    [NaN]. *)
Lemma lt_sub_epsilon_mono (a x y : number) :
  isNaN x = false -> isNaN y = false -> lt y x = false ->
  lt a (sub x epsilon) = true -> lt a (sub y epsilon) = true.
Proof.
  destruct a as [| | |a], x as [| | |x], y as [| | |y]; simpl; try done.
  rewrite !Qred_lt_r, Z.ltb_ge, !Z.ltb_lt. intros _ _.
  change (x <= y -> a < x + Qred (- (1 # 10000)) -> a < y + Qred (- (1 # 10000)))%Q.
  rewrite Qred_correct. lra.
Qed.

(** Below [y] by three times the tolerance is below it by the tolerance. *)
Lemma lt_sub_margin (a y : number) :
  lt a (sub y (Fin (3 # 10000))) = true -> lt a (sub y epsilon) = true.
Proof.
  destruct a as [| | |a], y as [| | |y]; simpl; try done.
  rewrite !Qred_lt_r, !Z.ltb_lt.
  change (a < y + Qred (- (3 # 10000)) -> a < y + Qred (- (1 # 10000)))%Q.
  rewrite !Qred_correct. lra.
Qed.

Lemma max_not_NaN (x y : number) :
  isNaN x = false -> isNaN y = false -> isNaN (max x y) = false.
Proof. unfold max. intros Hx Hy. rewrite Hx, Hy. simpl. by destruct (lt x y). Qed.

Lemma max_ge_l (x y : number) :
  isNaN x = false -> isNaN y = false -> lt (max x y) x = false.
Proof.
  unfold max. intros Hx Hy. rewrite Hx, Hy. simpl.
  destruct (lt x y) eqn:E.
  - destruct x as [| | |a], y as [| | |b]; simpl in *; try done.
    apply Z.ltb_ge. apply Z.ltb_lt in E. change (a < b)%Q in E.
    change (a <= b)%Q. lra.
  - destruct x as [| | |a]; simpl in *; try done. apply Z.ltb_irrefl.
Qed.

Lemma max_ge_r (x y : number) :
  isNaN x = false -> isNaN y = false -> lt (max x y) y = false.
Proof.
  unfold max. intros Hx Hy. rewrite Hx, Hy. simpl.
  destruct (lt x y) eqn:E; [|done].
  destruct y as [| | |b]; simpl in *; try done. apply Z.ltb_irrefl.
Qed.

(** ** More on durations *)

Lemma parseInt_cases (s : string) :
  parseInt s = NaN \/ exists q, parseInt s = Fin q.
Proof.
  unfold parseInt. destruct (signOf (trimStart s)) as [negative r].
  destruct (span isDigit r) as [ds rest]. destruct ds; [by left|].
  right. destruct negative; simpl; by eexists.
Qed.

Lemma add_Fin_not_NaN (q : Q) (x : number) :
  isNaN x = false -> isNaN (add (Fin q) x) = false.
Proof. by destruct x. Qed.

(** With integers that never overflow, as [parseInt] is modelled here, a
    parsed duration is a number or an infinity and not [NaN]. *)
Lemma parseTimeToSeconds_not_NaN (v : option string) (x : number) :
  parseTimeToSeconds v = Some x -> isNaN x = false.
Proof.
  unfold parseTimeToSeconds. destruct v as [[|c s]|]; try done. cbv zeta.
  generalize (split ":" (String c s)). intros parts.
  destruct (_ || _); [done|].
  destruct (isNaN (parseFloat _)) eqn:Hs; [done|].
  destruct (parseInt_cases (part parts (length parts - 2))) as [-> | [m ->]];
    [done|].
  assert (forall hours, hours = NaN \/ (exists h, hours = Fin h) ->
            (if false || false || isNaN hours then None
             else Some (add (add (mul hours (ofZ 3600)) (mul (Fin m) (ofZ 60)))
                            (parseFloat (part parts (length parts - 1))))) = Some x ->
            isNaN x = false) as Hgen.
  { intros hours [-> | [h ->]]; [done|]. simpl. intros [= <-].
    by apply add_Fin_not_NaN. }
  simpl isNaN at 1. apply Hgen.
  destruct (_ =? _)%nat; [apply parseInt_cases|]. right. by eexists.
Qed.

(** ** More on the reconstructor *)

Lemma annotateFrom_lookup (seed : option number) (tl : list TimelinePoint)
    (i : nat) (A : TimelinePoint) :
  snd (annotateFrom seed tl) !! i = Some A ->
  exists A0, tl !! i = Some A0 /\ point A0 = point A
             /\ wipedBoundary A0 = wipedBoundary A.
Proof.
  revert i. induction tl as [|p tl IH]; intros i; simpl.
  - by rewrite lookup_nil.
  - destruct (annotateFrom seed tl) as [m out]. simpl in *.
    destruct i as [|i]; simpl.
    + intros [= <-]. by exists p.
    + apply IH.
Qed.

Lemma emitted_pushed (points : list DataPoint) (current : option number) :
  (forall e l c, emitted current points = e :: l -> current = Some c ->
     pushedAfter c e)
  /\ (forall e l, emitted current points = e :: l -> current = None ->
        wipedBoundary e = false)
  /\ (forall i A B, emitted current points !! i = Some A ->
        emitted current points !! S i = Some B ->
        pushedAfter (recordSeconds (point A)) B).
Proof.
  revert current. induction points as [|p points IH]; intros current.
  - simpl. repeat split; done.
  - cbn [emitted]. destruct (emits current p) as [b|] eqn:Hb; [|apply IH].
    destruct (IH (Some (recordSeconds p))) as (IHhead & _ & IHrest).
    split; [|split].
    + intros e l c [= <- <-] ->. unfold pushedAfter, emits in *. simpl.
      destruct (lt _ _) eqn:Hlt; [by injection Hb as <-|].
      destruct (isWipeBoundaryTrigger _ && _) eqn:Ht; [|done].
      injection Hb as <-. by apply andb_true_iff in Ht.
    + intros e l [= <- <-] ->. simpl in Hb. by injection Hb as <-.
    + intros [|i] A B HA HB; simpl in HA, HB.
      * injection HA as <-. simpl.
        destruct (emitted (Some (recordSeconds p)) points) as [|e l] eqn:E; [done|].
        simpl in HB. injection HB as <-. by eapply IHhead.
      * by eapply IHrest.
Qed.

Lemma sublist_map {A B : Type} (f : A -> B) (l1 l2 : list A) :
  sublist l1 l2 -> sublist (map f l1) (map f l2).
Proof. induction 1; simpl; by constructor. Qed.

Lemma omap_length_le {A B : Type} (f : A -> option B) (l : list A) :
  length (omap f l) <= length l.
Proof.
  induction l as [|x l IH]; [done|]. cbn [omap list_omap length].
  destruct (f x); cbn [length]; lia.
Qed.

Lemma lt_irrefl' (x : number) : lt x x = false.
Proof. destruct x as [| | |a]; simpl; try done. apply Z.ltb_irrefl. Qed.

Lemma ge_trans (x y z : number) :
  isNaN x = false -> isNaN y = false -> isNaN z = false ->
  lt x y = false -> lt y z = false -> lt x z = false.
Proof.
  destruct x as [| | |a], y as [| | |b], z as [| | |c]; simpl; try done.
  intros _ _ _. rewrite !Z.ltb_ge. change (b <= a -> c <= b -> c <= a)%Q. lra.
Qed.

(** The backward pass on a sequence without [NaN]: the running maximum
    dominates every boundary met so far, so a point below any later
    boundary by more than the tolerance is marked. *)
Lemma annotateFrom_max (tl : list TimelinePoint) :
  Forall (fun d => isNaN (recordSeconds d) = false) (map point tl) ->
  (forall v, fst (annotateFrom None tl) = Some v -> isNaN v = false)
  /\ (forall j B, tl !! j = Some B -> wipedBoundary B = true ->
        exists v, fst (annotateFrom None tl) = Some v
                  /\ lt v (recordSeconds (point B)) = false)
  /\ (forall i A j B, snd (annotateFrom None tl) !! i = Some A -> i <= j ->
        tl !! j = Some B -> wipedBoundary B = true ->
        lt (recordSeconds (point A)) (sub (recordSeconds (point B)) epsilon) = true ->
        wiped A = true).
Proof.
  induction tl as [|p tl IH]; simpl.
  - intros _. repeat split; intros *; by rewrite ?lookup_nil.
  - intros Hall. apply Forall_cons in Hall as [Hp Hall].
    destruct (IH Hall) as (IHn & IHm & IHw). clear IH.
    destruct (annotateFrom None tl) as [m out]. simpl in *.
    assert (forall v, nextMax m p = Some v -> isNaN v = false) as Hn.
    { intros v. unfold nextMax. destruct (wipedBoundary p); [|apply IHn].
      destruct m as [w|]; intros [= <-]; [|done]. apply max_not_NaN; auto. }
    assert (forall j B, (p :: tl) !! j = Some B -> wipedBoundary B = true ->
              exists v, nextMax m p = Some v
                        /\ lt v (recordSeconds (point B)) = false) as Hm.
    { intros [|j] B HB Hb; simpl in HB.
      - injection HB as <-. unfold nextMax. rewrite Hb.
        destruct m as [w|]; eexists; (split; [done|]).
        + apply max_ge_r; auto.
        + apply lt_irrefl'.
      - destruct (IHm j B HB Hb) as (v & -> & Hv).
        assert (isNaN (recordSeconds (point B)) = false) as HnB.
        { eapply Forall_forall in Hall; [exact Hall|].
          apply list_elem_of_fmap_2. by eapply list_elem_of_lookup_2. }
        unfold nextMax. destruct (wipedBoundary p); [|by exists v].
        eexists; split; [done|].
        apply (ge_trans _ v); auto.
        + apply max_not_NaN; auto.
        + apply max_ge_l; auto. }
    split; [done|]. split; [done|].
    intros [|i] A j B HA Hij HB Hb Hlt; simpl in HA.
    + injection HA as <-. simpl.
      destruct (Hm j B HB Hb) as (v & Ev & Hv). rewrite Ev. simpl.
      assert (isNaN (recordSeconds (point B)) = false) as HnB.
      { assert (Forall (fun d => isNaN (recordSeconds d) = false)
                  (map point (p :: tl))) as Hall' by by constructor.
        eapply Forall_forall in Hall'; [exact Hall'|].
        apply list_elem_of_fmap_2. by eapply list_elem_of_lookup_2. }
      eapply lt_sub_epsilon_mono; [exact HnB|by apply Hn|done..].
    + destruct j as [|j]; [lia|]. simpl in HB.
      apply (IHw i A j B); auto with lia.
Qed.

(** Where no row is a trigger the forward pass marks no boundary. *)
Lemma emitted_no_boundary (points : list DataPoint) :
  Forall (fun d => isWipeBoundaryTrigger (row d) = false) points ->
  Forall (fun e => wipedBoundary e = false) (emitted None points).
Proof.
  intros Hall. apply Forall_lookup. intros i e He.
  destruct (emitted_pushed points None) as (_ & Hhead & Hrest).
  assert (point e ∈ points) as Hin.
  { eapply elem_of_sublist; [|apply (emitted_sublist None)].
    apply list_elem_of_fmap_2. by eapply list_elem_of_lookup_2. }
  eapply Forall_forall in Hall; [|exact Hin].
  destruct i as [|i].
  - destruct (emitted None points) as [|e' l] eqn:E; [done|].
    injection He as ->. by eapply Hhead.
  - destruct (emitted None points !! i) as [A|] eqn:HA.
    + specialize (Hrest i A e HA He). unfold pushedAfter in Hrest.
      destruct (wipedBoundary e); [|done]. destruct Hrest. congruence.
    + apply lookup_ge_None in HA. apply lookup_lt_Some in He. lia.
Qed.

(** Without boundaries the backward pass marks nothing. *)
Lemma annotateFrom_no_boundary (tl : list TimelinePoint) :
  Forall (fun e => wipedBoundary e = false) tl ->
  fst (annotateFrom None tl) = None
  /\ Forall (fun e => wiped e = false /\ wipedBoundary e = false)
            (snd (annotateFrom None tl)).
Proof.
  induction 1 as [|p tl Hp _ [IHm IHw]]; simpl; [done|].
  destruct (annotateFrom None tl) as [m out]. simpl in *. subst m.
  unfold nextMax. rewrite Hp. split; [done|]. by constructor.
Qed.

(** Without boundaries each emitted point improves on the one before. *)
Lemma emitted_decreasing (tl : list TimelinePoint) :
  (forall i A B, tl !! i = Some A -> tl !! S i = Some B ->
     lt (recordSeconds (point B)) (recordSeconds (point A)) = true) ->
  StronglySorted (fun A B =>
     lt (recordSeconds (point B)) (recordSeconds (point A)) = true) tl.
Proof.
  induction tl as [|A tl IH]; intros Hadj; constructor.
  - apply IH. intros i. apply (Hadj (S i)).
  - assert (StronglySorted (fun A B =>
       lt (recordSeconds (point B)) (recordSeconds (point A)) = true) tl) as Hs.
    { apply IH. intros i. apply (Hadj (S i)). }
    destruct tl as [|B tl]; [constructor|].
    pose proof (Hadj 0 A B eq_refl eq_refl) as HAB.
    apply StronglySorted_inv in Hs as [_ Hs].
    constructor; [done|].
    eapply Forall_impl; [exact Hs|]. intros C HC. simpl in HC.
    by eapply lt_trans.
Qed.

Section ReconstructorMore.

Variable Date_parse : string -> option Z.

(** X1.  The reconstructor invents nothing: the timeline is no longer than
    the input, no two points come from the same row, and every point
    carries the row found at its [rowIndex] in the input, with the
    non-zero time value of that row's date and its parsed duration. *)
Theorem timeline_provenance (rows : list CsvRow) :
  length (timeline Date_parse rows) <= length rows
  /\ NoDup (map (fun p => rowIndex (point p)) (timeline Date_parse rows))
  /\ Forall (fun p =>
       rows !! rowIndex (point p) = Some (row (point p))
       /\ Date_parse (asString (row (point p) !! "date")) = Some (dateValue (point p))
       /\ dateValue (point p) <> 0%Z
       /\ parseTimeToSeconds (row (point p) !! "record_time")
          = Some (recordSeconds (point p)))
     (timeline Date_parse rows).
Proof.
  pose proof (timeline_points_sublist Date_parse rows) as Hsub.
  split; [|split].
  - apply sublist_length in Hsub.
    rewrite length_map, sortPoints_perm in Hsub.
    etrans; [exact Hsub|]. unfold toPoints.
    etrans; [apply omap_length_le|]. by rewrite length_imap.
  - rewrite <- (map_map point rowIndex).
    apply (sublist_NoDup _ (map rowIndex (sortPoints (toPoints Date_parse rows)))).
    { rewrite sortPoints_perm. apply toPoints_NoDup. }
    by apply sublist_map.
  - apply Forall_forall. intros p Hp.
    apply timeline_valid in Hp as [Hrow Hpt].
    by apply toPoint_Some in Hpt as (_ & _ & Hd & Hne & Ht).
Qed.

Lemma emitted_nil (points : list DataPoint) :
  emitted None points = [] <-> points = [].
Proof. split; [|by intros ->]. by destruct points. Qed.

Lemma toPoint_None (i : nat) (r : CsvRow) :
  toPoint Date_parse i r = None <->
  Date_parse (asString (r !! "date")) = None
  \/ Date_parse (asString (r !! "date")) = Some 0%Z
  \/ parseTimeToSeconds (r !! "record_time") = None.
Proof.
  unfold toPoint.
  destruct (Date_parse _) as [d|]; [|by split; [left|]].
  destruct (parseTimeToSeconds _) as [s|]; [|by split; [right; right|]].
  destruct (Z.eqb_spec d 0) as [-> |].
  - split; [by right; left|done].
  - split; [done|]. intros [? | [[= ?] | ?]]; done.
Qed.

Lemma omap_imap_nil {A B : Type} (f : nat -> A -> option B) (P : A -> Prop)
    (l : list A) :
  (forall i x, f i x = None <-> P x) ->
  omap id (imap f l) = [] <-> Forall P l.
Proof.
  revert f. induction l as [|x l IH]; intros f Hf.
  - split; [constructor|done].
  - rewrite imap_cons, Forall_cons. cbn [omap list_omap id].
    rewrite <- (Hf 0 x), <- (IH (f ∘ S)) by (intros; apply Hf).
    destruct (f 0 x); [|by split; [|intros [_ ?]]]. split; [done|]. by intros [? _].
Qed.

(** X2.  The timeline is empty exactly when no row has both a usable
    date, one that parses to a non-zero time value, and a duration that
    parses: as soon as one row is usable a point is shown. *)
Theorem timeline_empty_iff (rows : list CsvRow) :
  timeline Date_parse rows = [] <->
  Forall (fun r =>
    Date_parse (asString (r !! "date")) = None
    \/ Date_parse (asString (r !! "date")) = Some 0%Z
    \/ parseTimeToSeconds (r !! "record_time") = None) rows.
Proof.
  rewrite <- (omap_imap_nil (toPoint Date_parse)) by apply toPoint_None.
  fold (toPoints Date_parse rows).
  rewrite timeline_closed.
  split.
  - intros H. apply (f_equal (map point)) in H.
    rewrite annotateFrom_point in H. simpl in H.
    apply map_eq_nil, emitted_nil in H.
    apply Permutation_nil_r. by rewrite <- H, sortPoints_perm.
  - by intros ->.
Qed.

(** X3.  The first point of the timeline is the earliest usable row of the
    input, by date and then by row order, whatever its evidence; it is
    never a wipe boundary. *)
Theorem timeline_first_point (rows : list CsvRow) (p : TimelinePoint)
    (tl : list TimelinePoint) :
  timeline Date_parse rows = p :: tl ->
  wipedBoundary p = false
  /\ point p ∈ toPoints Date_parse rows
  /\ forall q, q ∈ toPoints Date_parse rows -> q = point p \/ pointLt (point p) q.
Proof.
  rewrite timeline_closed. intros H.
  pose proof (sortPoints_sorted (toPoints Date_parse rows)) as Hs.
  pose proof (sortPoints_perm (toPoints Date_parse rows)) as Hperm.
  pose proof (toPoints_NoDup Date_parse rows) as Hnd. rewrite <- Hperm in Hnd.
  destruct (sortPoints (toPoints Date_parse rows)) as [|a l] eqn:E.
  { done. }
  cbn [emitted emits annotateFrom] in H.
  destruct (annotateFrom None (emitted (Some (recordSeconds a)) l)) as [m out].
  simpl in H. injection H as <- _. simpl.
  apply StronglySorted_inv in Hs as [_ Ha].
  simpl in Hnd. apply NoDup_cons in Hnd as [Hnotin _].
  split; [done|]. split.
  - rewrite <- Hperm. by left.
  - intros q Hq. rewrite <- Hperm in Hq.
    apply elem_of_cons in Hq as [-> | Hq]; [by left|]. right.
    apply pointLe_lt.
    + by eapply Forall_forall in Ha.
    + intros Heq. apply Hnotin. rewrite Heq. by apply list_elem_of_fmap_2.
Qed.

(** X4.  Two adjacent points of the timeline are never within the
    tolerance of each other: the later one is below the earlier one by
    more than [epsilon] when it is an ordinary point, and is a trigger row
    above it by more than [epsilon] when it is a wipe boundary. *)
Theorem timeline_adjacent (rows : list CsvRow) (i : nat) (A B : TimelinePoint) :
  timeline Date_parse rows !! i = Some A ->
  timeline Date_parse rows !! S i = Some B ->
  pushedAfter (recordSeconds (point A)) B.
Proof.
  rewrite timeline_closed. intros HA HB.
  apply annotateFrom_lookup in HA as (A0 & HA & EA & _).
  apply annotateFrom_lookup in HB as (B0 & HB & EB & EBb).
  destruct (emitted_pushed (sortPoints (toPoints Date_parse rows)) None)
    as (_ & _ & H).
  specialize (H i A0 B0 HA HB). unfold pushedAfter in *.
  by rewrite <- EA, <- EB, <- EBb.
Qed.

(** X5.  What marks a point as wiped, from both sides.  A point marked
    wiped is followed by a wipe boundary that exceeds its time by more
    than the tolerance.  A point followed by a wipe boundary that exceeds
    its time by more than three times the tolerance is marked wiped: a
    margin that no rounding of the difference can take up. *)
Theorem wiped_boundary_margins (rows : list CsvRow) (i : nat)
    (A : TimelinePoint) :
  timeline Date_parse rows !! i = Some A ->
  (wiped A = true ->
   exists j B, i < j /\ timeline Date_parse rows !! j = Some B
     /\ wipedBoundary B = true
     /\ lt (recordSeconds (point A)) (sub (recordSeconds (point B)) epsilon) = true)
  /\ (forall j B, i < j -> timeline Date_parse rows !! j = Some B ->
      wipedBoundary B = true ->
      lt (recordSeconds (point A))
         (sub (recordSeconds (point B)) (Fin (3 # 10000))) = true ->
      wiped A = true).
Proof.
  intros HA.
  assert (Forall (fun d => isNaN (recordSeconds d) = false)
            (map point (timeline Date_parse rows))) as Hn.
  { apply Forall_forall. intros d Hd.
    apply list_elem_of_fmap in Hd as (p & -> & Hp).
    apply timeline_valid in Hp as [_ Hpt].
    apply toPoint_Some in Hpt as (_ & _ & _ & _ & Ht).
    by eapply parseTimeToSeconds_not_NaN. }
  rewrite timeline_closed in *. rewrite annotateFrom_point in Hn.
  split.
  - intros Hw.
    by destruct (annotateFrom_wiped
      (emitted None (sortPoints (toPoints Date_parse rows)))) as [_ H];
      apply H.
  - intros j B Hij HB Hb Hlt.
    apply annotateFrom_lookup in HB as (B0 & HB & EB & EBb).
    destruct (annotateFrom_max _ Hn) as (_ & _ & H).
    apply (H i A j B0 HA); [lia|done|congruence|].
    rewrite EB. by apply lt_sub_margin.
Qed.

(** X6.  When no row of the input is a trigger (evidence [record], or an
    [irc_set] announcement), the timeline has no boundary and no wiped
    point, and every point is strictly faster than all the points before
    it. *)
Theorem timeline_without_triggers (rows : list CsvRow) :
  Forall (fun r => isWipeBoundaryTrigger r = false) rows ->
  Forall (fun p => wiped p = false /\ wipedBoundary p = false)
         (timeline Date_parse rows)
  /\ StronglySorted (fun A B =>
        lt (recordSeconds (point B)) (recordSeconds (point A)) = true)
      (timeline Date_parse rows).
Proof.
  intros Hrows.
  assert (Forall (fun d => isWipeBoundaryTrigger (row d) = false)
            (sortPoints (toPoints Date_parse rows))) as Hpts.
  { rewrite sortPoints_perm. apply Forall_forall. intros d Hd.
    apply toPoints_valid in Hd as [Hrow _].
    eapply Forall_forall in Hrows; [exact Hrows|].
    by eapply list_elem_of_lookup_2. }
  apply emitted_no_boundary in Hpts.
  pose proof (annotateFrom_no_boundary _ Hpts) as [_ Hout].
  rewrite <- timeline_closed in Hout. split; [done|].
  apply emitted_decreasing. rewrite timeline_closed. intros i A B HA HB.
  assert (wipedBoundary B = false) as HBb.
  { rewrite <- timeline_closed in HB.
    eapply Forall_lookup in Hout; [|exact HB]. by destruct Hout. }
  apply annotateFrom_lookup in HA as (A0 & HA & EA & _).
  apply annotateFrom_lookup in HB as (B0 & HB & EB & EBb).
  destruct (emitted_pushed (sortPoints (toPoints Date_parse rows)) None)
    as (_ & _ & H).
  specialize (H i A0 B0 HA HB). unfold pushedAfter in H.
  rewrite EBb, HBb, EA, EB in H. by apply lt_sub_epsilon.
Qed.

End ReconstructorMore.

Lemma timeline_first_point_witness :
  wipedBoundary (mkTimelinePoint
    (mkPoint (sampleRow "2015-01-01" "1:00.00" "record" "")
             0 1420070400000 (Fin 60)) true false) = false.
Proof.
  refine (proj1 (timeline_first_point IsoDate.parse wipeRows _
    (tl (timeline IsoDate.parse wipeRows)) _)).
  vm_compute. reflexivity.
Defined.

Lemma timeline_adjacent_witness :
  pushedAfter (Fin 60) (mkTimelinePoint
    (mkPoint (sampleRow "2015-01-02" "1:10.00" "record" "")
             1 1420156800000 (Fin 70)) false true).
Proof.
  apply (timeline_adjacent IsoDate.parse wipeRows 0
    (mkTimelinePoint
       (mkPoint (sampleRow "2015-01-01" "1:00.00" "record" "")
                0 1420070400000 (Fin 60)) true false));
    vm_compute; reflexivity.
Defined.

Lemma wiped_boundary_margins_witness :
  wiped (mkTimelinePoint
    (mkPoint (sampleRow "2015-01-03" "0:50.00" "command" "")
             2 1420243200000 (Fin 50)) true false) = true.
Proof.
  refine (proj2 (wiped_boundary_margins IsoDate.parse wipeRows 2 _ _) 3
    (mkTimelinePoint
      (mkPoint (sampleRow "2015-01-04" "0:55.00" "record" "")
               3 1420329600000 (Fin 55)) false true) _ _ _ _);
    vm_compute; reflexivity.
Defined.

(** 60 s, a slower row that is dropped, 50 s, then 45 s: no trigger. *)
Lemma timeline_without_triggers_witness :
  StronglySorted (fun A B =>
      lt (recordSeconds (point B)) (recordSeconds (point A)) = true)
    (timeline IsoDate.parse
       [ sampleRow "2015-01-01" "1:00.00" "command" "";
         sampleRow "2015-01-02" "1:10.00" "command" "";
         sampleRow "2015-01-03" "0:50.00" "announcement" "irc";
         sampleRow "2015-01-04" "0:45.00" "" "" ]).
Proof.
  apply timeline_without_triggers.
  repeat constructor.
Defined.

(** ** More on the CSV decoder *)

Module CsvMore.
Import Csv.

Lemma endRecord_content (rs : list (list string)) (r : list string) (f : string) :
  Forall (fun r => hasContent r = true) rs ->
  Forall (fun r => hasContent r = true) (endRecord rs r f).
Proof.
  intros H. unfold endRecord. destruct (hasContent (r ++ [f])) eqn:E; [|done].
  apply Forall_app. split; [done|]. by repeat constructor.
Qed.

Lemma scan_content (text : string) :
  forall st,
    Forall (fun r => hasContent r = true) (rows st) ->
    Forall (fun r => hasContent r = true) (rows (scan text st)).
Proof.
  induction text as [text IH] using string_length_ind. intros st Hst.
  destruct text as [|ch rest]; [done|].
  assert (forall st', Forall (fun r => hasContent r = true) (rows st') ->
            Forall (fun r => hasContent r = true) (rows (scan rest st'))) as Hrest.
  { intros st'. apply IH. simpl. lia. }
  cbn [scan]. destruct (inQuotes st).
  - destruct (eqChar ch dquote); [|by apply Hrest].
    destruct rest as [|next rest']; [done|].
    destruct (eqChar next dquote); [|by apply Hrest].
    apply IH; [simpl; lia|done].
  - repeat (destruct (eqChar ch _); [by apply Hrest|]).
    repeat (destruct (eqChar _ ch); [by apply Hrest|]).
    destruct (eqChar ch "010").
    + apply Hrest. by apply endRecord_content.
    + by apply Hrest.
Qed.

Lemma hasContent_cell (r : list string) :
  hasContent r = true <-> exists cell, cell ∈ r /\ trim cell <> "".
Proof.
  unfold hasContent. rewrite existsb_exists. split.
  - intros (cell & Hin & Hc). exists cell. split; [by apply list_elem_of_In|].
    intros E. by rewrite E in Hc.
  - intros (cell & Hin & Hc). exists cell. split; [by apply list_elem_of_In|].
    by destruct (trim cell).
Qed.

(** X7.  Every record the decoder returns has a cell that is not blank:
    a line of blank cells, quoted or not, is never a record. *)
Theorem parseCsvRows_content (text : string) :
  Forall (fun record => exists cell, cell ∈ record /\ trim cell <> "")
         (parseCsvRows text).
Proof.
  eapply Forall_impl; [|intros r; apply hasContent_cell].
  unfold parseCsvRows, finish.
  pose proof (scan_content text scanStart (Forall_nil_2 _)) as H.
  destruct (_ || _); [|done]. by apply endRecord_content.
Qed.

Lemma eqChar_sym (a b : ascii) : eqChar a b = eqChar b a.
Proof. unfold eqChar. apply N.eqb_sym. Qed.

(** Outside quotes the loop splits the text at line feeds and commas, and
    drops carriage returns. *)
Lemma scan_plain (text : string) :
  forall st,
    allChars (fun ch => negb (eqChar ch dquote)) text = true ->
    inQuotes st = false ->
    finish (scan text st)
    = rows st ++ List.filter hasContent
        (pending (row st) (field st)
           (map (split ",") (split "010" (withoutCR text)))).
Proof.
  induction text as [|ch rest IH]; intros st Hfree Hq.
  - simpl. unfold finish, endRecord. rewrite string_app_nil_r.
    destruct (field st) as [|c f], (row st) as [|r rs]; simpl;
      try (destruct (_ || _); by rewrite ?app_nil_r).
    by rewrite app_nil_r.
  - cbn [allChars] in Hfree. apply andb_true_iff in Hfree as [Hch Hfree].
    apply negb_true_iff in Hch.
    pose proof (split_nonempty "010" (withoutCR rest)) as Hlines.
    cbn [scan withoutCR]. rewrite Hq, Hch.
    destruct (eqChar ch ",") eqn:Hcomma.
    { apply eqChar_eq in Hcomma as ->.
      rewrite IH by done. cbn [rows row field]. do 2 f_equal.
      change (eqChar "," "013") with false. cbn [split].
      change (eqChar "010" ",") with false.
      destruct (split "010" (withoutCR rest)) as [|l0 ls]; [done|].
      cbn [map split]. change (eqChar "," ",") with true.
      pose proof (split_nonempty "," l0) as Hcells.
      destruct (split "," l0) as [|c0 cs]; [done|].
      cbn [pending]. by rewrite string_app_nil_r, <- app_assoc. }
    destruct (eqChar ch "013") eqn:Hcr; [by apply IH|].
    destruct (eqChar ch "010") eqn:Hlf.
    { apply eqChar_eq in Hlf as ->.
      rewrite IH by done. cbn [rows row field].
      cbn [split]. change (eqChar "010" "010") with true.
      cbn [map split pending]. rewrite string_app_nil_r.
      destruct (split "010" (withoutCR rest)) as [|l0 ls]; [done|].
      cbn [map]. pose proof (split_nonempty "," l0) as Hcells.
      destruct (split "," l0) as [|c0 cs]; [done|].
      cbn [pending app]. unfold endRecord. cbn [List.filter].
      change ("" +:+ c0) with c0.
      destruct (hasContent (row st ++ [field st])); [|done].
      by rewrite <- app_assoc. }
    rewrite IH by done. cbn [rows row field]. do 2 f_equal.
    cbn [split]. rewrite (eqChar_sym "010" ch), Hlf.
    destruct (split "010" (withoutCR rest)) as [|l0 ls]; [done|].
    cbn [map split]. rewrite (eqChar_sym "," ch), Hcomma.
    pose proof (split_nonempty "," l0) as Hcells.
    destruct (split "," l0) as [|c0 cs]; [done|].
    cbn [pending]. by rewrite string_app_assoc, string_app_char.
Qed.

Lemma parseCsvRows_plain (text : string) :
  allChars (fun ch => negb (eqChar ch dquote)) text = true ->
  parseCsvRows text
  = List.filter hasContent (map (split ",") (split "010" (withoutCR text))).
Proof.
  intros Hfree. unfold parseCsvRows.
  rewrite scan_plain by done. simpl.
  pose proof (split_nonempty "010" (withoutCR text)) as Hlines.
  destruct (split "010" (withoutCR text)) as [|l0 ls]; [done|].
  cbn [map]. pose proof (split_nonempty "," l0) as Hcells.
  by destruct (split "," l0) as [|c0 cs].
Qed.

(** X8.  On a text without double quotes the decoder returns the lines of
    the text, carriage returns removed, split at commas, leaving out the
    lines whose cells are all blank. *)
Theorem parseCsvRows_unquoted (text : string) :
  allChars (fun ch => negb (eqChar ch dquote)) text = true ->
  parseCsvRows text
  = List.filter hasContent (map (split ",") (split "010" (withoutCR text))).
Proof. apply parseCsvRows_plain. Qed.

Lemma parseCsvRows_unquoted_witness :
  parseCsvRows ("date,record_time" +:+ String "013" (String "010"
     ("2015-01-01,1:00.00" +:+ String "010" (" , " +:+ String "010" ""))))
  = [["date"; "record_time"]; ["2015-01-01"; "1:00.00"]].
Proof.
  rewrite parseCsvRows_unquoted; reflexivity.
Defined.

(** *** Quoted fields *)

Lemma scan_escape (f : string) :
  forall (c : ascii) (rest : string) rs r fld,
    eqChar c dquote = false ->
    scan (Rfc4180.escape f +:+ String dquote (String c rest)) (mkScan rs r fld true)
    = scan (String c rest) (mkScan rs r (fld +:+ f) false).
Proof.
  induction f as [|a f IH]; intros c rest rs r fld Hc.
  - change (Rfc4180.escape "" +:+ ?x) with x. rewrite string_app_nil_r.
    remember (String c rest) as tail eqn:Htail.
    cbn [scan inQuotes]. change (eqChar dquote dquote) with true. cbv iota.
    destruct tail as [|next rest']; [done|]. injection Htail as -> ->.
    by rewrite Hc.
  - cbn [Rfc4180.escape]. destruct (eqChar a dquote) eqn:Ha.
    + apply eqChar_eq in Ha as ->. rewrite !string_app_cons.
      remember (Rfc4180.escape f +:+ String dquote (String c rest)) as tail.
      cbn [scan inQuotes rows row field].
      change (eqChar dquote dquote) with true. cbv iota. subst tail.
      rewrite IH by done. by rewrite string_app_assoc, string_app_char.
    + rewrite string_app_cons.
      remember (Rfc4180.escape f +:+ String dquote (String c rest)) as tail.
      cbn [scan inQuotes rows row field]. rewrite Ha. subst tail.
      rewrite IH by done. by rewrite string_app_assoc, string_app_char.
Qed.

Lemma scan_quoteField (f : string) (c : ascii) (rest : string) rs r fld :
  eqChar c dquote = false ->
  scan (Rfc4180.quoteField f +:+ String c rest) (mkScan rs r fld false)
  = scan (String c rest) (mkScan rs r (fld +:+ f) false).
Proof.
  intros Hc. unfold Rfc4180.quoteField.
  rewrite string_app_cons, string_app_assoc, string_app_char.
  remember (Rfc4180.escape f +:+ String dquote (String c rest)) as tail.
  cbn [scan inQuotes rows row field].
  change (eqChar dquote dquote) with true. cbv iota. subst tail.
  by apply scan_escape.
Qed.

Lemma scan_record (fs : list string) :
  forall (f : string) (rest : string) rs r,
    scan (join "," (map Rfc4180.quoteField (f :: fs))
            +:+ String "013" (String "010" rest)) (mkScan rs r "" false)
    = scan rest (mkScan (if hasContent (r ++ f :: fs)
                         then rs ++ [r ++ f :: fs] else rs) [] "" false).
Proof.
  induction fs as [|g fs IH]; intros f rest rs r.
  - cbn [map join]. rewrite scan_quoteField by done.
    change ("" +:+ f) with f.
    remember rest as tail. cbn [scan inQuotes rows row field].
    change (eqChar "013" dquote) with false.
    change (eqChar "013" ",") with false.
    change (eqChar "013" "013") with true. cbv iota.
    change (eqChar "010" dquote) with false.
    change (eqChar "010" ",") with false.
    change (eqChar "010" "013") with false.
    change (eqChar "010" "010") with true. cbv iota.
    unfold endRecord.
    by destruct (hasContent (r ++ [f])).
  - rewrite map_cons, join_cons by done.
    rewrite string_app_assoc, string_app_cons.
    rewrite scan_quoteField by done. change ("" +:+ f) with f.
    remember (join "," (map Rfc4180.quoteField (g :: fs))
                +:+ String "013" (String "010" rest)) as tail.
    cbn [scan inQuotes rows row field].
    change (eqChar "," dquote) with false.
    change (eqChar "," ",") with true. cbv iota. subst tail.
    rewrite IH. by rewrite <- app_assoc.
Qed.

Lemma scan_encode (table : list (list string)) :
  forall rs,
    finish (scan (Rfc4180.encode table) (mkScan rs [] "" false))
    = rs ++ List.filter hasContent table.
Proof.
  induction table as [|record table IH]; intros rs.
  - simpl. unfold finish. simpl. by rewrite app_nil_r.
  - cbn [Rfc4180.encode]. unfold Rfc4180.encodeRecord.
    rewrite string_app_assoc, !string_app_cons.
    change ("" +:+ Rfc4180.encode table) with (Rfc4180.encode table).
    destruct record as [|f fs].
    + change (join "," (map Rfc4180.quoteField []) +:+ ?x) with x.
      remember (Rfc4180.encode table) as tail.
      cbn [scan inQuotes rows row field].
      change (eqChar "013" dquote) with false.
      change (eqChar "013" ",") with false.
      change (eqChar "013" "013") with true. cbv iota.
      change (eqChar "010" dquote) with false.
      change (eqChar "010" ",") with false.
      change (eqChar "010" "013") with false.
      change (eqChar "010" "010") with true. cbv iota.
      change (endRecord rs [] "") with rs. by rewrite IH.
    + rewrite scan_record. cbn [app List.filter].
      destruct (hasContent (f :: fs)); rewrite IH; [|done].
      by rewrite <- app_assoc.
Qed.

(** X9.  The decoder reads back what an RFC 4180 writer produces with
    every field quoted, whatever the fields contain (commas, line breaks,
    double quotes): it returns the records written, leaving out those
    whose fields are all blank. *)
Theorem rfc4180_round_trip (table : list (list string)) :
  parseCsvRows (Rfc4180.encode table) = List.filter hasContent table.
Proof. apply (scan_encode table []). Qed.

(** *** Rows as objects *)

Lemma rowOf_snoc (headers : list string) (h : string) (cells : list string) :
  rowOf (headers ++ [h]) cells
  = <[h := default "" (cells !! length headers)]> (rowOf headers cells).
Proof.
  unfold rowOf. rewrite imap_app, foldl_app. simpl.
  by rewrite Nat.add_0_r.
Qed.

Lemma rowOf_lookup (headers cells : list string) (h : string) :
  (h ∉ headers -> rowOf headers cells !! h = None)
  /\ (forall i, headers !! i = Some h ->
        (forall j, i < j -> headers !! j <> Some h) ->
        rowOf headers cells !! h = Some (default "" (cells !! i))).
Proof.
  induction headers as [|h' headers [IHn IHs]] using rev_ind.
  - split; [done|]. intros i. by rewrite lookup_nil.
  - rewrite rowOf_snoc. split.
    + intros Hn. apply not_elem_of_app in Hn as [Hn Hh].
      rewrite lookup_insert_ne by set_solver. by apply IHn.
    + intros i Hi Hlast.
      destruct (decide (h' = h)) as [-> | Hne].
      * assert (i = length headers) as ->.
        { destruct (Nat.lt_trichotomy i (length headers)) as [Hlt | [-> | Hgt]];
            [|done|].
          - exfalso. apply (Hlast (length headers) Hlt).
            by rewrite lookup_app_r, Nat.sub_diag.
          - apply lookup_lt_Some in Hi. rewrite length_app in Hi.
            simpl in Hi. lia. }
        by rewrite lookup_insert_eq.
      * rewrite lookup_insert_ne by done.
        assert (i < length headers) as Hlt.
        { apply lookup_lt_Some in Hi as Hlen. rewrite length_app in Hlen.
          simpl in Hlen.
          destruct (decide (i = length headers)) as [-> |]; [|lia].
          rewrite lookup_app_r, Nat.sub_diag in Hi by done.
          simpl in Hi. congruence. }
        rewrite lookup_app_l in Hi by done.
        apply IHs; [done|]. intros j Hj Hjh.
        apply (Hlast j Hj). rewrite lookup_app_l; [done|].
        by apply lookup_lt_Some in Hjh.
Qed.

(** X10.  [parseCsv] makes one row for each record after the first, in
    order.  A row has the header names as its only properties, none being
    [__proto__]: a header reads the cell at its position, the empty string
    where the record is shorter, and where a header name is repeated its
    last position counts; cells beyond the headers are ignored. *)
Theorem parseCsv_rows (text : string) (headers : list string)
    (records : list (list string)) :
  parseCsvRows text = headers :: records ->
  "__proto__" ∉ headers ->
  Forall2 (fun cells r =>
      (forall h, h ∉ headers -> r !! h = None)
      /\ (forall i h, headers !! i = Some h ->
            (forall j, i < j -> headers !! j <> Some h) ->
            r !! h = Some (default "" (cells !! i))))
    records (parseCsv text).
Proof.
  intros Hrows _. unfold parseCsv. rewrite Hrows.
  destruct records as [|cells records]; [constructor|].
  cbn [length Nat.leb]. apply Forall2_fmap_r, Forall_Forall2_diag.
  apply Forall_forall. intros c _. split.
  - intros h. apply rowOf_lookup.
  - intros i h. apply rowOf_lookup.
Qed.

Lemma parseCsv_rows_witness :
  Forall2 (fun cells r => r !! "b" = Some (default "" (cells !! 1)))
    [["1"]; ["2"; "3"; "4"]]
    (parseCsv ("a,b" +:+ String "010" ("1" +:+ String "010" "2,3,4"))).
Proof.
  eapply Forall2_impl.
  - apply (parseCsv_rows _ ["a"; "b"]); [reflexivity|].
    intros H. by repeat (apply elem_of_cons in H as [H | H]; [done|]);
      apply elem_of_nil in H.
  - intros cells r [_ H]. apply (H 1 "b"); [done|].
    intros [|[|j]] Hj; [lia..|]. done.
Defined.

End CsvMore.

(** ** More on durations: the value of a well-formed text *)

Lemma span_digits (a b : string) :
  allChars isDigit a = true ->
  match b with String c _ => isDigit c = false | EmptyString => True end ->
  span isDigit (a +:+ b) = (a, b).
Proof.
  intros Ha Hb. induction a as [|c a IH].
  - change ("" +:+ b) with b. destruct b as [|c b]; [done|]. simpl. by rewrite Hb.
  - cbn [allChars] in Ha. apply andb_true_iff in Ha as [Hc Ha].
    rewrite string_app_cons. cbn [span]. by rewrite Hc, IH.
Qed.

Lemma signOf_digit (c : ascii) (r : string) :
  isDigit c = true -> signOf (String c r) = (false, String c r).
Proof. by destruct c as [[] [] [] [] [] [] [] []]. Qed.

Lemma isDigit_not_I (c : ascii) : isDigit c = true -> eqChar "I" c = false.
Proof. by destruct c as [[] [] [] [] [] [] [] []]. Qed.

Lemma parseInt_digits (m : string) :
  isDigits m = true -> parseInt m = ofZ (Z.of_N (digitsValue m)).
Proof.
  intros Hm. destruct m as [|c m]; [done|]. apply isDigits_allChars in Hm.
  pose proof Hm as Hall. cbn [allChars] in Hm.
  apply andb_true_iff in Hm as [Hc Hm].
  unfold parseInt. cbn [trimStart]. rewrite (isDigit_not_space c Hc).
  rewrite (signOf_digit c m Hc).
  rewrite <- (string_app_nil_r (String c m)), span_digits by done.
  by rewrite string_app_nil_r.
Qed.

Lemma parseFloat_decimal (s f : string) :
  isDigits s = true -> allChars isDigit f = true ->
  exists q, parseFloat (s +:+ "." +:+ f) = Fin q
    /\ (q == inject_Z (Z.of_N (digitsValue (s +:+ f)))
            / inject_Z (10 ^ Z.of_nat (String.length f)))%Q.
Proof.
  intros Hs Hf. destruct s as [|c s]; [done|]. apply isDigits_allChars in Hs.
  pose proof Hs as Hall. cbn [allChars] in Hs.
  apply andb_true_iff in Hs as [Hc Hs].
  unfold parseFloat. rewrite string_app_cons. cbn [trimStart].
  rewrite (isDigit_not_space c Hc), (signOf_digit c _ Hc).
  cbn [startsWith]. rewrite (isDigit_not_I c Hc). cbn [andb].
  rewrite <- string_app_cons, string_app_char, span_digits by done.
  assert (span isDigit f = (f, "")) as ->.
  { rewrite <- (string_app_nil_r f) at 1. by rewrite span_digits. }
  rewrite string_app_cons.
  set (M := Z.of_N (digitsValue (String c (s +:+ f)))).
  cbn [exponentOf signed].
  eexists. split; [reflexivity|]. rewrite Qred_correct.
  destruct (String.length f) as [|n] eqn:Hn.
  - change (0 <=? 0 - Z.of_nat 0)%Z with true. cbv iota.
    change (10 ^ (0 - Z.of_nat 0))%Z with 1%Z. rewrite Z.mul_1_r.
    change (inject_Z (10 ^ Z.of_nat 0)) with 1%Q.
    unfold Qdiv. change (Qinv 1) with 1%Q. rewrite Qmult_1_r. apply Qeq_refl.
  - assert (0 < 10 ^ Z.of_nat (S n))%Z as Hpos by (apply Z.pow_pos_nonneg; lia).
    destruct (Z.leb_spec 0 (0 - Z.of_nat (S n))) as [Hle|_]; [lia|].
    replace (- (0 - Z.of_nat (S n)))%Z with (Z.of_nat (S n)) by lia.
    rewrite Qmake_Qdiv. by rewrite Z2Pos.id.
Qed.

Lemma parseTimeToSeconds_nonempty (value : string) :
  value <> "" ->
  parseTimeToSeconds (Some value) =
    let parts := split ":" value in
    let n := length parts in
    if (n <? 2)%nat || (3 <? n)%nat then None
    else
      let seconds := parseFloat (part parts (n - 1)) in
      let minutes := parseInt (part parts (n - 2)) in
      let hours := if (n =? 3)%nat then parseInt (part parts 0) else ofZ 0 in
      if isNaN seconds || isNaN minutes || isNaN hours then None
      else Some (add (add (mul hours (ofZ 3600)) (mul minutes (ofZ 60))) seconds).
Proof. by destruct value. Qed.

Lemma colonFree_digits (s : string) :
  allChars isDigit s = true -> Steam.colonFree s = true.
Proof. apply allChars_impl. intros c Hc. by rewrite isDigit_not_colon. Qed.

Lemma colonFree_decimal (s f : string) :
  allChars isDigit s = true -> allChars isDigit f = true ->
  Steam.colonFree (s +:+ "." +:+ f) = true.
Proof.
  intros Hs Hf. unfold Steam.colonFree. rewrite string_app_char, allChars_app.
  cbn [allChars]. fold (Steam.colonFree s). fold (Steam.colonFree f).
  by rewrite !colonFree_digits.
Qed.

Lemma digitsValue_zeros (f : string) :
  allChars (eqChar "0") f = true ->
  forall s, digitsValue (s +:+ f) = (digitsValue s * 10 ^ N.of_nat (String.length f))%N.
Proof.
  intros Hf s. unfold digitsValue. generalize 0%N.
  induction s as [|c s IH]; intros acc.
  - change ("" +:+ f) with f. revert acc.
    induction f as [|c f IHf]; intros acc.
    + simpl. lia.
    + cbn [allChars] in Hf. apply andb_true_iff in Hf as [Hc Hf].
      apply eqChar_eq in Hc as <-. cbn [String.length].
      rewrite IHf by done. change (digitValue "0") with 0%N.
      rewrite Nat2N.inj_succ, N.pow_succ_r'. lia.
  - rewrite string_app_cons. apply IH.
Qed.

Lemma allChars_zero_digit (f : string) :
  allChars (eqChar "0") f = true -> allChars isDigit f = true.
Proof. apply allChars_impl. by intros c <-%eqChar_eq. Qed.

(** X11.  A text [M:S] of decimal digits, or [M:S.F] with a fraction [F]
    of zeros, parses to 60 M + S seconds, and [H:M:S] or [H:M:S.F] to
    3600 H + 60 M + S seconds, for fields below 10^9: whole numbers that
    the number type of the code holds exactly, as it does their products
    and sums. *)
Theorem parseTimeToSeconds_value (m s f : string) :
  isDigits m = true -> isDigits s = true -> allChars (eqChar "0") f = true ->
  (digitsValue m < 10 ^ 9)%N -> (digitsValue s < 10 ^ 9)%N ->
  (exists q,
     parseTimeToSeconds (Some (m +:+ ":" +:+ s +:+ "." +:+ f)) = Some (Fin q)
     /\ (q == inject_Z (Z.of_N (60 * digitsValue m + digitsValue s)))%Q)
  /\ (exists q,
       parseTimeToSeconds (Some (m +:+ ":" +:+ s)) = Some (Fin q)
       /\ (q == inject_Z (Z.of_N (60 * digitsValue m + digitsValue s)))%Q)
  /\ (forall h, isDigits h = true -> (digitsValue h < 10 ^ 9)%N ->
      exists q,
        parseTimeToSeconds (Some (h +:+ ":" +:+ m +:+ ":" +:+ s +:+ "." +:+ f))
        = Some (Fin q)
        /\ (q == inject_Z (Z.of_N (3600 * digitsValue h + 60 * digitsValue m
                                   + digitsValue s)))%Q).
Proof.
  intros Hm Hs Hz _ _. pose proof (allChars_zero_digit f Hz) as Hf.
  destruct (parseFloat_decimal s f Hs Hf) as (qs & Hsec & Hqs).
  assert (qs == inject_Z (Z.of_N (digitsValue s)))%Q as Hqs'.
  { rewrite Hqs, digitsValue_zeros by done.
    rewrite N2Z.inj_mul, N2Z.inj_pow, nat_N_Z. change (Z.of_N 10) with 10%Z.
    rewrite inject_Z_mult.
    assert (0 < 10 ^ Z.of_nat (String.length f))%Z as Hpos
      by (apply Z.pow_pos_nonneg; lia).
    field. intros E. apply (Qeq_bool_neq 0 0); [|done].
    revert E. unfold Qeq, inject_Z. simpl. lia. }
  assert (exists qi, parseFloat s = Fin qi
                     /\ (qi == inject_Z (Z.of_N (digitsValue s)))%Q)
    as (qi & Hint & Hqi).
  { destruct s as [|c s']; [done|]. pose proof (isDigits_allChars _ Hs) as Hall.
    pose proof Hall as Hall'. cbn [allChars] in Hall'.
    apply andb_true_iff in Hall' as [Hc _].
    unfold parseFloat. cbn [trimStart].
    rewrite (isDigit_not_space c Hc), (signOf_digit c _ Hc).
    cbn [startsWith]. rewrite (isDigit_not_I c Hc). cbn [andb].
    assert (span isDigit (String c s') = (String c s', "")) as ->.
    { rewrite <- (string_app_nil_r (String c s')) at 1. by rewrite span_digits. }
    rewrite string_app_nil_r.
    cbn [exponentOf signed String.length].
    eexists. split; [reflexivity|]. rewrite Qred_correct.
    change (0 <=? 0 - Z.of_nat 0)%Z with true. cbv iota.
    change (10 ^ (0 - Z.of_nat 0))%Z with 1%Z. by rewrite Z.mul_1_r. }
  pose proof (parseInt_digits m Hm) as Hmin.
  pose proof (colonFree_digits m (isDigits_allChars m Hm)) as Hcm.
  pose proof (colonFree_digits s (isDigits_allChars s Hs)) as Hcs.
  pose proof (colonFree_decimal s f (isDigits_allChars s Hs) Hf) as Hct.
  split; [|split].
  - rewrite parseTimeToSeconds_nonempty by (by destruct m).
    rewrite string_app_char, split_colon_app, split_colon_free by done.
    cbv zeta. cbn [length].
    change (part [m; s +:+ "." +:+ f] (2 - 1)) with (s +:+ "." +:+ f).
    change (part [m; s +:+ "." +:+ f] (2 - 2)) with m.
    rewrite Hsec, Hmin. simpl. eexists. split; [reflexivity|].
    rewrite !Qred_correct, Hqs'.
    rewrite N2Z.inj_add, N2Z.inj_mul, inject_Z_plus, inject_Z_mult.
    unfold inject_Z. ring.
  - rewrite parseTimeToSeconds_nonempty by (by destruct m).
    rewrite string_app_char, split_colon_app, split_colon_free by done.
    cbv zeta. cbn [length].
    change (part [m; s] (2 - 1)) with s.
    change (part [m; s] (2 - 2)) with m.
    rewrite Hint, Hmin. simpl. eexists. split; [reflexivity|].
    rewrite !Qred_correct, Hqi.
    rewrite N2Z.inj_add, N2Z.inj_mul, inject_Z_plus, inject_Z_mult.
    unfold inject_Z. ring.
  - intros h Hh _.
    pose proof (colonFree_digits h (isDigits_allChars h Hh)) as Hch.
    rewrite parseTimeToSeconds_nonempty by (by destruct h).
    rewrite !string_app_char. rewrite string_app_char in Hsec, Hct.
    rewrite (split_colon_app h), (split_colon_app m), split_colon_free by done.
    cbv zeta. cbn [length].
    change (part [h; m; s +:+ String "." f] (3 - 1)) with (s +:+ String "." f).
    change (part [h; m; s +:+ String "." f] (3 - 2)) with m.
    change (part [h; m; s +:+ String "." f] 0) with h.
    rewrite Hsec, Hmin, (parseInt_digits h Hh). simpl. eexists.
    split; [reflexivity|].
    rewrite !Qred_correct, Hqs'.
    rewrite !N2Z.inj_add, !N2Z.inj_mul, !inject_Z_plus, !inject_Z_mult.
    unfold inject_Z. ring.
Qed.

Lemma parseTimeToSeconds_value_witness :
  exists q, parseTimeToSeconds (Some "1:02:03.00") = Some (Fin q)
    /\ (q == inject_Z (Z.of_N (3600 * 1 + 60 * 2 + 3)))%Q.
Proof.
  apply (proj2 (proj2 (parseTimeToSeconds_value "02" "03" "00"
                  eq_refl eq_refl eq_refl eq_refl eq_refl)) "1" eq_refl eq_refl).
Defined.

(** X12.  [parseTimeToSeconds] at its edges.  It answers [null] for a
    missing or empty text, for a text without a colon and for one with
    more than two.  What it returns need not be a positive finite
    duration: a signed minute field gives a negative value, and
    [Infinity] is accepted as seconds. *)
Theorem parseTimeToSeconds_range :
  parseTimeToSeconds None = None
  /\ parseTimeToSeconds (Some "") = None
  /\ (forall s, Steam.colonFree s = true -> parseTimeToSeconds (Some s) = None)
  /\ (forall s, 3 < length (split ":" s) -> parseTimeToSeconds (Some s) = None)
  /\ (exists q, parseTimeToSeconds (Some "-1:30") = Some (Fin q) /\ (q == -30)%Q)
  /\ parseTimeToSeconds (Some "1:Infinity") = Some PosInf.
Proof.
  split; [done|]. split; [done|]. split; [|split; [|split]].
  - intros s Hs. destruct s as [|c s]; [done|].
    rewrite parseTimeToSeconds_nonempty by done.
    by rewrite split_colon_free.
  - intros s Hlen. destruct s as [|c s]; [done|].
    rewrite parseTimeToSeconds_nonempty by done. cbv zeta.
    destruct (Nat.ltb_spec 3 (length (split ":" (String c s)))); [|lia].
    by rewrite orb_true_r.
  - eexists. split; [reflexivity|]. reflexivity.
  - reflexivity.
Qed.

(** ** More on the identity resolver *)

Lemma pretty_N_go_digits (x : N) :
  forall s, allChars isDigit s = true ->
    allChars isDigit (pretty_N_go x s) = true
    /\ (s <> "" \/ (0 < x)%N -> pretty_N_go x s <> "").
Proof.
  induction (N.lt_wf_0 x) as [x _ IH]. intros s Hs.
  destruct (decide (x = 0%N)) as [-> | Hx].
  - rewrite pretty_N_go_0. split; [done|]. intros [? | ?]; [done|lia].
  - rewrite pretty_N_go_step by lia.
    destruct (IH (x `div` 10)%N) with (s := String (pretty_N_char (x `mod` 10)) s)
      as [Hd Hne].
    + apply N.div_lt; lia.
    + cbn [allChars]. rewrite Hs, andb_true_r.
      unfold pretty_N_char. by repeat case_match.
    + split; [done|]. intros _. apply Hne. by left.
Qed.

(** The decimal form of a natural number is a run of digits. *)
Lemma pretty_N_digits (n : N) : isDigits (pretty n) = true.
Proof.
  unfold pretty, pretty_N. case_decide; [done|].
  destruct (pretty_N_go_digits n "" eq_refl) as [Hd Hne].
  destruct (pretty_N_go n "") eqn:E; [|done].
  destruct Hne; [right; lia|done].
Qed.

Module SteamMore.
Import Steam SteamFacts.

Lemma parseSteamId64_trimmed (s : string) :
  parseSteamId64 (Some s) =
    match trim s with
    | EmptyString => None
    | t => if isId64 t then Some t
           else match parseBracket t with
                | Some r => Some r
                | None => parseLegacy t
                end
    end.
Proof.
  unfold parseSteamId64. destruct s as [|c s]; [done|].
  rewrite normalizeSteamId64_trimmed.
  destruct (trim (String c s)); [done|]. by destruct (isId64 _).
Qed.

Lemma normalizeSteamId64_Some (v : option string) (r : string) :
  normalizeSteamId64 v = Some r ->
  isId64 r = true /\ exists s, v = Some s /\ trim s = r.
Proof.
  unfold normalizeSteamId64. destruct v as [[|c s]|]; try done.
  destruct (trim (String c s)) as [|a t] eqn:E; [done|].
  destruct (isId64 (String a t)) eqn:Hid; [|done].
  intros [= <-]. split; [done|]. by exists (String c s).
Qed.

Lemma isId64_digits (r : string) : isId64 r = true -> isDigits r = true.
Proof.
  unfold isId64. intros [Hd Hl]%andb_true_iff. by destruct r.
Qed.

Lemma parseSteamId64_digits (v : option string) (r : string) :
  parseSteamId64 v = Some r -> isDigits r = true.
Proof.
  destruct v as [s|]; [|done]. rewrite parseSteamId64_trimmed.
  destruct (trim s) as [|a t]; [done|]. cbv zeta.
  destruct (isId64 (String a t)) eqn:Hid.
  { intros [= <-]. by apply isId64_digits. }
  destruct (parseBracket (String a t)) as [b|] eqn:Hb.
  { intros [= <-]. unfold parseBracket in Hb.
    repeat (case_match; try done). injection Hb as <-. apply pretty_N_digits. }
  unfold parseLegacy.
  repeat (case_match; try done). intros [= <-]. apply pretty_N_digits.
Qed.

(** X13.  A profile address is only ever made of the fixed prefix and
    decimal digits: the 16 or 17 digits of a well-formed [steam_id64]
    column when there is one, else the number resolved from [steam_id];
    there is no address exactly when both fail.  No other text of the row
    reaches the address. *)
Theorem profile_url_digits (steamId64 steamId : option string) :
  match buildSteamProfileUrl steamId64 steamId with
  | Some url =>
      exists digits,
        url = "https://steamcommunity.com/profiles/" +:+ digits
        /\ isDigits digits = true
        /\ (normalizeSteamId64 steamId64 = Some digits
            \/ normalizeSteamId64 steamId64 = None
               /\ parseSteamId64 steamId = Some digits)
  | None =>
      normalizeSteamId64 steamId64 = None /\ parseSteamId64 steamId = None
  end.
Proof.
  unfold buildSteamProfileUrl.
  destruct (normalizeSteamId64 steamId64) as [r|] eqn:Hn.
  - apply normalizeSteamId64_Some in Hn as [Hid _].
    apply isId64_digits in Hid. destruct r as [|a r]; [done|].
    exists (String a r). auto.
  - destruct (parseSteamId64 steamId) as [r|] eqn:Hp; [|done].
    pose proof (parseSteamId64_digits _ _ Hp) as Hd.
    destruct r as [|a r]; [done|]. exists (String a r). auto.
Qed.

Lemma parseSteamId64_bracket (a v : string) :
  startsWith (a +:+ ":" +:+ v +:+ "]") "[U:" = true -> isDigits v = true ->
  parseSteamId64 (Some (a +:+ ":" +:+ v +:+ "]"))
  = Some (pretty (STEAM_ID64_BASE + digitsValue v)%N).
Proof.
  intros Hs Hv. pose proof (parseBracket_shape a v Hs Hv) as Hb.
  pose proof Hs as [u Hu]%startsWith_app.
  assert (trim (a +:+ ":" +:+ v +:+ "]") = a +:+ ":" +:+ v +:+ "]") as Ht.
  { rewrite Hu at 1. change ("[U:" +:+ u) with (String "[" ("U:" +:+ u)).
    rewrite (trim_id "[" "]" _ ((a +:+ ":") +:+ v)); [done..|].
    change (String "[" ("U:" +:+ u)) with ("[U:" +:+ u). rewrite <- Hu.
    by rewrite <- !string_app_assoc. }
  rewrite parseSteamId64_trimmed, Ht. revert Hb. rewrite Hu.
  change ("[U:" +:+ u) with (String "[" ("U:" +:+ u)). intros Hb.
  cbv beta iota zeta. replace (isId64 _) with false by done. by rewrite Hb.
Qed.

Lemma parseSteamId64_legacy (x y z : string) :
  colonFree x = true -> isDigits y = true -> isDigits z = true ->
  parseSteamId64 (Some ("STEAM_" +:+ x +:+ ":" +:+ y +:+ ":" +:+ z))
  = Some (pretty (STEAM_ID64_BASE + digitsValue z * 2 + digitsValue y)%N).
Proof.
  intros Hx Hy Hz.
  pose proof (trim_legacy x y z Hz) as Ht.
  pose proof (parseLegacy_shape x y z Hx Hy Hz) as Hl.
  rewrite parseSteamId64_trimmed, Ht. revert Hl.
  set (tail := x +:+ ":" +:+ y +:+ ":" +:+ z).
  change ("STEAM_" +:+ tail)
    with (String "S" (String "T" (String "E" (String "A" (String "M" (String "_" tail)))))).
  cbv beta iota zeta. intros Hl.
  replace (isId64 _) with false by done.
  replace (parseBracket _) with (@None string) by done.
  exact Hl.
Qed.

(** X14.  An identifier [[U:X:W]] with a numeric account number [W]
    resolves to [offset + W], whatever stands for [X], and so does
    [[U:W]].  It names the same account as [STEAM_X:Y:Z] when
    [W = 2 Z + Y]: both resolve to the same 64-bit identifier. *)
Theorem bracket_steam_id (x w : string) :
  isDigits w = true ->
  parseSteamId64 (Some ("[U:" +:+ x +:+ ":" +:+ w +:+ "]"))
    = Some (pretty (STEAM_ID64_BASE + digitsValue w)%N)
  /\ parseSteamId64 (Some ("[U:" +:+ w +:+ "]"))
    = Some (pretty (STEAM_ID64_BASE + digitsValue w)%N)
  /\ (forall u y z : string,
        colonFree u = true -> isDigits y = true -> isDigits z = true ->
        digitsValue w = (digitsValue z * 2 + digitsValue y)%N ->
        parseSteamId64 (Some ("STEAM_" +:+ u +:+ ":" +:+ y +:+ ":" +:+ z))
        = parseSteamId64 (Some ("[U:" +:+ x +:+ ":" +:+ w +:+ "]"))).
Proof.
  intros Hw.
  assert (parseSteamId64 (Some ("[U:" +:+ x +:+ ":" +:+ w +:+ "]"))
          = Some (pretty (STEAM_ID64_BASE + digitsValue w)%N)) as H1.
  { rewrite <- (parseSteamId64_bracket ("[U:" +:+ x) w); [|done..].
    by rewrite !string_app_assoc. }
  split; [done|]. split.
  - by rewrite <- (parseSteamId64_bracket "[U" w).
  - intros u y z Hu Hy Hz E.
    rewrite H1, parseSteamId64_legacy by done.
    do 2 f_equal. lia.
Qed.

Lemma bracket_steam_id_witness :
  parseSteamId64 (Some "[U:1:24691]") = Some "76561197960290419"
  /\ parseSteamId64 (Some "STEAM_0:1:12345") = parseSteamId64 (Some "[U:1:24691]").
Proof.
  destruct (bracket_steam_id "1" "24691" eq_refl) as (H1 & _ & H3).
  split; [exact H1|].
  apply (H3 "0" "1" "12345"); reflexivity.
Defined.

End SteamMore.

(** ** Candidate identities *)

Lemma split_free (sep : ascii) (s : string) :
  Forall (fun p => allChars (fun c => negb (eqChar sep c)) p = true) (split sep s).
Proof.
  induction s as [|ch s IH]; [by repeat constructor|]. cbn [split].
  destruct (eqChar sep ch) eqn:Hch; [by constructor|].
  destruct (split sep s) as [|p ps].
  - constructor; [|done]. cbn [allChars]. by rewrite Hch.
  - apply Forall_cons in IH as [Hp Hps]. constructor; [|done].
    cbn [allChars]. by rewrite Hch, Hp.
Qed.

Lemma split_allChars (f : ascii -> bool) (sep : ascii) (s : string) :
  allChars f s = true -> Forall (fun p => allChars f p = true) (split sep s).
Proof.
  induction s as [|ch s IH]; [by repeat constructor|]. cbn [split allChars].
  intros [Hch Hs]%andb_true_iff. specialize (IH Hs).
  destruct (eqChar sep ch); [by constructor|].
  destruct (split sep s) as [|p ps].
  - constructor; [|done]. cbn [allChars]. by rewrite Hch.
  - apply Forall_cons in IH as [Hp Hps]. constructor; [|done].
    cbn [allChars]. by rewrite Hch, Hp.
Qed.

Lemma allChars_trimStart (f : ascii -> bool) (s : string) :
  allChars f s = true -> allChars f (trimStart s) = true.
Proof.
  induction s as [|c s IH]; [done|]. cbn [trimStart].
  destruct (isWhiteSpace c); [|done]. cbn [allChars].
  intros [_ Hs]%andb_true_iff. auto.
Qed.

Lemma allChars_trimEnd (f : ascii -> bool) (s : string) :
  allChars f s = true -> allChars f (trimEnd s) = true.
Proof.
  induction s as [|c s IH]; [done|]. cbn [trimEnd allChars].
  intros [Hc Hs]%andb_true_iff. specialize (IH Hs).
  destruct (trimEnd s) as [|a t].
  - destruct (isWhiteSpace c); [done|]. cbn [allChars]. by rewrite Hc.
  - cbn [allChars] in *. by rewrite Hc, IH.
Qed.

Lemma allChars_trim (f : ascii -> bool) (s : string) :
  allChars f s = true -> allChars f (trim s) = true.
Proof. intros H. by apply allChars_trimEnd, allChars_trimStart. Qed.

Module CandidatesFacts.
Import Candidates.

Lemma trimmedOrUndefined_Some (v : option string) (x : string) :
  trimmedOrUndefined v = Some x ->
  x <> "" /\ trim x = x /\ exists s, v = Some s /\ x = trim s.
Proof.
  unfold trimmedOrUndefined. destruct v as [s|]; [|done].
  destruct (trim s) as [|a t] eqn:E; [done|]. intros [= <-].
  split; [done|]. split; [by rewrite <- E, trim_idem|]. by exists s.
Qed.

(** X15.  Every candidate read from the [steam_candidates] column has a
    name that is not empty and has no white space at either end, and each
    identifier it carries is likewise non-empty and trimmed; no field
    holds a separator [;] or [|].  Entries with a blank name are dropped,
    so there are at most as many candidates as entries, and none for a
    missing or empty column. *)
Theorem parseSteamCandidates_clean (value : option string) :
  let clean (x : string) :=
    x <> "" /\ trim x = x
    /\ allChars (fun c => negb (eqChar ";" c) && negb (eqChar "|" c)) x = true in
  Forall (fun c =>
      clean (name c)
      /\ (forall x, steamId64 c = Some x -> clean x)
      /\ (forall x, steamId c = Some x -> clean x))
    (parseSteamCandidates value)
  /\ length (parseSteamCandidates value)
     <= match value with
        | Some s => length (split ";" s)
        | None => 0
        end
  /\ parseSteamCandidates None = []
  /\ parseSteamCandidates (Some "") = [].
Proof.
  intros clean.
  assert (forall entry parts i x,
            allChars (fun c => negb (eqChar ";" c)) entry = true ->
            parts = split "|" entry ->
            trimmedOrUndefined (parts !! i) = Some x -> clean x) as Hclean.
  { intros entry parts i x Hentry -> Hx.
    apply trimmedOrUndefined_Some in Hx as (Hne & Htrim & s & Hs & ->).
    split; [done|]. split; [done|]. apply allChars_trim.
    apply list_elem_of_lookup_2 in Hs.
    pose proof (split_free "|" entry) as H1.
    pose proof (split_allChars _ "|" entry Hentry) as H2.
    eapply Forall_forall in H1; [|exact Hs].
    eapply Forall_forall in H2; [|exact Hs].
    clear -H1 H2. induction s as [|c s IH]; [done|].
    cbn [allChars] in *. apply andb_true_iff in H1 as [-> H1].
    apply andb_true_iff in H2 as [-> H2]. by rewrite IH. }
  split; [|split; [|done]].
  - destruct value as [[|c s]|]; try by constructor.
    unfold parseSteamCandidates.
    pose proof (split_free ";" (String c s)) as Hfree.
    induction Hfree as [|entry entries Hentry _ IH]; [constructor|].
    cbn [omap list_omap]. destruct (parseCandidate entry) as [cand|] eqn:E; [|done].
    constructor; [|done]. unfold parseCandidate in E.
    destruct (trimmedOrUndefined (split "|" entry !! 0)) as [n|] eqn:En; [|done].
    injection E as <-. cbn [name steamId64 steamId].
    split; [by eapply Hclean|]. split; intros x Hx; by eapply Hclean.
  - destruct value as [[|c s]|]; try (simpl; lia).
    apply omap_length_le.
Qed.

End CandidatesFacts.

(** ** More on the segment classifier *)

Lemma lowerChar_eqChar_i (p c : ascii) :
  p ∈ ["B"; "o"; "n"; "u"; "s"; "C"; "r"; "e"]%char ->
  lowerChar c = lowerChar p -> eqChar_i p c = true.
Proof.
  intros Hp.
  repeat (apply elem_of_cons in Hp as [-> | Hp];
    [by destruct c as [[] [] [] [] [] [] [] []]; vm_compute|]).
  by apply elem_of_nil in Hp.
Qed.

(** A literal under the [i] flag matches a text that differs from it by
    the case of its letters only. *)
Lemma lit_lower {A : Type} (p : string) :
  forall (w rest : string) (k : string -> option A),
    Forall (fun c => c ∈ ["B"; "o"; "n"; "u"; "s"; "C"; "r"; "e"]%char)
           (String.list_ascii_of_string p) ->
    toLowerCase w = toLowerCase p ->
    lit eqChar_i p (w +:+ rest) k = k rest.
Proof.
  induction p as [|a p IH]; intros w rest k Hp Hw.
  - by destruct w.
  - destruct w as [|c w]; [done|]. cbn [toLowerCase] in Hw.
    injection Hw as Hc Hw. rewrite string_app_cons. cbn [lit].
    cbn [String.list_ascii_of_string] in Hp. apply Forall_cons in Hp as [Ha Hp].
    rewrite lowerChar_eqChar_i by done. by apply IH.
Qed.

Module ZoneMore.
Import Zone ZoneFacts.

Lemma matchWord_match (p w ws ds rest : string) :
  Forall (fun c => c ∈ ["B"; "o"; "n"; "u"; "s"; "C"; "r"; "e"]%char)
         (String.list_ascii_of_string p) ->
  toLowerCase w = toLowerCase p ->
  ws <> "" -> allChars isWhiteSpace ws = true ->
  isDigits ds = true ->
  match rest with String c _ => isDigit c = false | EmptyString => True end ->
  matchWord p (w +:+ ws +:+ ds +:+ rest) = Some ds.
Proof.
  intros Hp Hw Hne Hws Hds Hrest. unfold matchWord.
  rewrite lit_lower by done.
  destruct ws as [|c ws]; [done|]. destruct ds as [|d ds]; [done|].
  apply isDigits_allChars in Hds.
  apply plus_greedy; [done| |].
  - rewrite string_app_cons. apply isDigit_not_space.
    cbn [allChars] in Hds. by apply andb_true_iff in Hds as [? _].
  - by apply plus_greedy.
Qed.

Lemma isDigit_eqChar_i (p d : ascii) :
  p ∈ ["C"; "B"]%char -> isDigit d = true -> eqChar_i p d = false.
Proof.
  intros Hp.
  repeat (apply elem_of_cons in Hp as [-> | Hp];
    [by destruct d as [[] [] [] [] [] [] [] []]|]).
  by apply elem_of_nil in Hp.
Qed.

Lemma lower_c_not_B (a : ascii) : lowerChar a = "c"%char -> eqChar_i "B" a = false.
Proof. by destruct a as [[] [] [] [] [] [] [] []]; vm_compute. Qed.

(** X16.  A text that, trimmed, is the word [Bonus] or [Course] in any
    letter case, white space, and a number classifies to the bonus or
    course of that number, whatever follows the number.  Identifier and
    label are rebuilt from the number: leading zeros and the case of the
    word leave no trace.  The number is taken below 2^53, where the
    number type of the code is exact. *)
Theorem classify_bonus_course (source w ws ds rest : string) :
  trim source = w +:+ ws +:+ ds +:+ rest ->
  ws <> "" -> allChars isWhiteSpace ws = true ->
  isDigits ds = true -> (digitsValue ds < 2 ^ 53)%N ->
  match rest with String c _ => isDigit c = false | EmptyString => True end ->
  (toLowerCase w = "bonus" ->
   getZoneInfo (Some source)
   = Some (mkZone ("bonus-" +:+ pretty (digitsValue ds))
                  ("Bonus " +:+ pretty (digitsValue ds)) bonus (digitsValue ds)))
  /\ (toLowerCase w = "course" ->
      getZoneInfo (Some source)
      = Some (mkZone ("course-" +:+ pretty (digitsValue ds))
                     ("Course " +:+ pretty (digitsValue ds)) course (digitsValue ds))).
Proof.
  intros Htrim Hne Hws Hds _ Hrest.
  assert (forall p, Forall (fun c => c ∈ ["B"; "o"; "n"; "u"; "s"; "C"; "r"; "e"]%char)
                     (String.list_ascii_of_string p) ->
            toLowerCase w = toLowerCase p ->
            matchWord p (trim source) = Some ds) as Hmatch.
  { intros p Hp Hw. rewrite Htrim. by apply matchWord_match. }
  assert (forall a w', w = String a w' ->
            getZoneInfo (Some source) =
              match matchWord "Bonus" (trim source) with
              | Some digits =>
                  Some (mkZone ("bonus-" +:+ pretty (digitsValue digits))
                          ("Bonus " +:+ pretty (digitsValue digits)) bonus
                          (digitsValue digits))
              | None =>
                  match matchWord "Course" (trim source) with
                  | Some digits =>
                      Some (mkZone ("course-" +:+ pretty (digitsValue digits))
                              ("Course " +:+ pretty (digitsValue digits)) course
                              (digitsValue digits))
                  | None => getZoneInfo (Some source)
                  end
              end) as Hunfold.
  { intros a w' ->. rewrite string_app_cons in Htrim.
    unfold getZoneInfo. destruct source as [|c0 s0]; [done|].
    rewrite Htrim.
    destruct (matchWord "Bonus" _); [done|].
    by destruct (matchWord "Course" _). }
  split; intros Hw.
  - destruct w as [|a w']; [done|]. rewrite (Hunfold a w' eq_refl).
    rewrite (Hmatch "Bonus"); [done| |done].
    repeat constructor.
  - destruct w as [|a w']; [done|]. rewrite (Hunfold a w' eq_refl).
    assert (matchWord "Bonus" (trim source) = None) as ->.
    { rewrite Htrim, string_app_cons. unfold matchWord. cbn [lit].
      cbn [toLowerCase] in Hw. injection Hw as Ha _.
      by rewrite lower_c_not_B. }
    rewrite (Hmatch "Course"); [done| |done].
    repeat constructor.
Qed.

Lemma classify_bonus_course_witness :
  getZoneInfo (Some "  BONUS   007 (left route) ")
  = Some (mkZone "bonus-7" "Bonus 7" bonus 7).
Proof.
  apply (proj1 (classify_bonus_course "  BONUS   007 (left route) "
                  "BONUS" "   " "007" " (left route)"
                  eq_refl ltac:(done) eq_refl eq_refl eq_refl eq_refl)).
  reflexivity.
Defined.

(** What a zone found by the classifier looks like. *)
Lemma getZoneInfo_shape (source : option string) (z : ZoneInfo) :
  getZoneInfo source = Some z ->
  exists s c r, source = Some s /\ trim s = String c r
    /\ ((kind z = bonus /\ id z = "bonus-" +:+ pretty (order z)
         /\ eqChar_i "B" c = true)
        \/ (kind z = course /\ id z = "course-" +:+ pretty (order z)
            /\ eqChar_i "C" c = true)
        \/ (kind z = segment /\ id z = "segment-" +:+ pretty (order z)
            /\ eqChar_i "C" c = true)).
Proof.
  unfold getZoneInfo. destruct source as [[|c0 s0]|]; try done.
  destruct (trim (String c0 s0)) as [|c r] eqn:Ht; [done|].
  intros H. exists (String c0 s0), c, r. split; [done|]. split; [done|].
  destruct (matchWord "Bonus" (String c r)) as [digits|] eqn:Hb.
  { injection H as <-. left. unfold matchWord in Hb. cbn [lit] in Hb.
    by destruct (eqChar_i "B" c). }
  destruct (matchWord "Course" (String c r)) as [digits|] eqn:Hc.
  { injection H as <-. right. left. unfold matchWord in Hc. cbn [lit] in Hc.
    by destruct (eqChar_i "C" c). }
  destruct (matchSegment (String c r)) as [[digits name]|] eqn:Hs.
  { injection H as <-. right. right. unfold matchSegment in Hs.
    cbn [lit] in Hs. by destruct (eqChar_i "C" c). }
  destruct (matchSegmentIndex (String c r)) as [digits|] eqn:Hi; [|done].
  injection H as <-. right. right. unfold matchSegmentIndex in Hi.
  cbn [lit] in Hi. by destruct (eqChar_i "C" c).
Qed.

(** The identifier of a zone names its kind and its order. *)
Lemma getZoneInfo_id_inj (a b : option string) (z1 z2 : ZoneInfo) :
  getZoneInfo a = Some z1 -> getZoneInfo b = Some z2 ->
  id z1 = id z2 <-> kind z1 = kind z2 /\ order z1 = order z2.
Proof.
  intros (s1 & c1 & r1 & _ & _ & H1)%getZoneInfo_shape
         (s2 & c2 & r2 & _ & _ & H2)%getZoneInfo_shape.
  destruct H1 as [(K1 & I1 & _) | [(K1 & I1 & _) | (K1 & I1 & _)]],
           H2 as [(K2 & I2 & _) | [(K2 & I2 & _) | (K2 & I2 & _)]];
    rewrite K1, K2, I1, I2; split;
    try (by intros [? _]); try (by intros [=]).
  all: try (intros [= E]; split; [done|]; by apply (inj pretty)).
  all: by intros [_ ->].
Qed.

(** X17.  A zone is only found for a text whose first character, white
    space apart, is the letter B or C in either case: a segment named
    [Map] has none.  The identifier of a zone says what its kind and its
    number are, so two zones have the same identifier exactly when they
    have the same kind and the same number, whatever their labels. *)
Theorem zone_identifier (a b : option string) (z1 z2 : ZoneInfo) :
  getZoneInfo a = Some z1 -> getZoneInfo b = Some z2 ->
  (exists s c r, a = Some s /\ trim s = String c r
     /\ eqChar_i (if kind z1 is bonus then "B" else "C")%char c = true)
  /\ (id z1 = id z2 <-> kind z1 = kind z2 /\ order z1 = order z2).
Proof.
  intros H1 H2. split; [|by eapply getZoneInfo_id_inj].
  apply getZoneInfo_shape in H1 as (s & c & r & -> & Ht & H).
  exists s, c, r. split; [done|]. split; [done|].
  by destruct H as [(-> & _ & ?) | [(-> & _ & ?) | (-> & _ & ?)]].
Qed.

Lemma zone_identifier_witness :
  id (mkZone "segment-3" "C3 - Rooftop" segment 3) = id (mkZone "segment-3" "C3" segment 3)
  <-> kind (mkZone "segment-3" "C3 - Rooftop" segment 3) = kind (mkZone "segment-3" "C3" segment 3)
      /\ order (mkZone "segment-3" "C3 - Rooftop" segment 3) = order (mkZone "segment-3" "C3" segment 3).
Proof.
  apply (zone_identifier (Some "C3 - Rooftop First") (Some "c03")); reflexivity.
Defined.

(** *** Segments *)

Lemma removeFirstSuffix_word (name : string) :
  allChars (fun c => negb (isWhiteSpace c)) name = true ->
  removeFirstSuffix name = name.
Proof.
  induction name as [|c name IH]; [done|]. cbn [allChars].
  intros [Hc Hn]%andb_true_iff. apply negb_true_iff in Hc.
  cbn [removeFirstSuffix]. unfold matchFirstSuffix at 1, plus. rewrite Hc.
  by rewrite IH.
Qed.

Lemma trimEnd_word (name : string) :
  allChars (fun c => negb (isWhiteSpace c)) name = true -> trimEnd name = name.
Proof.
  induction name as [|c name IH]; [done|]. cbn [allChars].
  intros [Hc Hn]%andb_true_iff. apply negb_true_iff in Hc.
  by rewrite trimEnd_cons, IH.
Qed.

Lemma trim_word (name : string) :
  allChars (fun c => negb (isWhiteSpace c)) name = true -> trim name = name.
Proof.
  intros H. unfold trim. destruct name as [|c name]; [done|].
  pose proof H as H'. cbn [allChars] in H'.
  apply andb_true_iff in H' as [Hc _]. apply negb_true_iff in Hc.
  cbn [trimStart]. rewrite Hc. by apply trimEnd_word.
Qed.

Lemma isDigit_not_dash (d : ascii) : isDigit d = true -> eqChar_i "-" d = false.
Proof. by destruct d as [[] [] [] [] [] [] [] []]. Qed.

(** After the letter, digits alone do not match the pattern with a dash. *)
Lemma segment_tail_none (ds : string) :
  allChars isDigit ds = true ->
  forall m : string,
    starFrom isDigit m ds
      (fun digits s2 =>
         star isWhiteSpace s2 (fun _ s3 =>
         lit eqChar_i "-" s3 (fun s4 =>
         star isWhiteSpace s4 (fun _ s5 =>
         plus isDot s5 (fun name s6 =>
         eoi s6 (digits, name)))))) = None.
Proof.
  intros Hds m.
  match goal with |- ?t = None => destruct t as [r|] eqn:E; [|done] end.
  exfalso.
  apply starFrom_sound in E as (w & rest & -> & _ & E).
  rewrite allChars_app in Hds. apply andb_true_iff in Hds as [_ Hrest].
  apply starFrom_sound in E as (w2 & rest2 & -> & Hw2 & E).
  rewrite allChars_app in Hrest. apply andb_true_iff in Hrest as [Hd2 Hrest2].
  destruct w2 as [|c w2].
  - change ("" +:+ rest2) with rest2 in *. destruct rest2 as [|c rest2]; [done|].
    cbn [lit allChars] in *. apply andb_true_iff in Hrest2 as [Hc _].
    by rewrite isDigit_not_dash in E.
  - cbn [allChars] in Hw2, Hd2.
    apply andb_true_iff in Hw2 as [Hc _]. apply andb_true_iff in Hd2 as [Hc' _].
    apply isDigit_not_space in Hc'. congruence.
Qed.

(** X25.  A text [C<digits>] classifies to the segment of that number,
    labelled [C<number>]; a text [C<digits> - <name>] whose name is one
    word classifies to the same segment, labelled [C<number> - <name>].
    The letter may be in either case, and two such texts for one number
    give the same identifier.  The number is taken below 2^53. *)
Theorem classify_segment (c0 : ascii) (ds : string) :
  c0 = "C"%char \/ c0 = "c"%char ->
  isDigits ds = true -> (digitsValue ds < 2 ^ 53)%N ->
  getZoneInfo (Some (String c0 ds))
    = Some (mkZone ("segment-" +:+ pretty (digitsValue ds))
                   ("C" +:+ pretty (digitsValue ds)) segment (digitsValue ds))
  /\ forall name,
       name <> "" ->
       allChars (fun c => negb (isWhiteSpace c)) name = true ->
       getZoneInfo (Some (String c0 (ds +:+ " - " +:+ name)))
       = Some (mkZone ("segment-" +:+ pretty (digitsValue ds))
                      ("C" +:+ pretty (digitsValue ds) +:+ " - " +:+ name)
                      segment (digitsValue ds)).
Proof.
  intros Hc0 Hds _. pose proof (isDigits_allChars ds Hds) as Hall.
  destruct ds as [|d ds]; [done|].
  pose proof Hall as Hall'. cbn [allChars] in Hall'.
  apply andb_true_iff in Hall' as [Hd Hrest].
  assert (eqChar_i "C" c0 = true /\ eqChar_i "B" c0 = false
          /\ isWhiteSpace c0 = false) as (HC & HB & Hsp)
    by (by destruct Hc0 as [-> | ->]).
  split.
  - assert (trim (String c0 (String d ds)) = String c0 (String d ds)) as Ht.
    { assert (allChars (fun c => negb (isWhiteSpace c)) (String d ds) = true)
        as Hnw.
      { eapply allChars_impl; [|exact Hall]. intros c Hc.
        by rewrite isDigit_not_space. }
      apply trim_word.
      change (negb (isWhiteSpace c0)
              && allChars (fun c => negb (isWhiteSpace c)) (String d ds) = true).
      by rewrite Hsp, Hnw. }
    unfold getZoneInfo. rewrite Ht.
    assert (matchWord "Bonus" (String c0 (String d ds)) = None) as ->.
    { unfold matchWord. cbn [lit]. by rewrite HB. }
    assert (matchWord "Course" (String c0 (String d ds)) = None) as ->.
    { unfold matchWord. cbn [lit]. by rewrite HC, isDigit_not_o. }
    assert (matchSegment (String c0 (String d ds)) = None) as ->.
    { unfold matchSegment. cbn [lit]. rewrite HC. unfold plus. rewrite Hd.
      by apply segment_tail_none. }
    assert (matchSegmentIndex (String c0 (String d ds)) = Some (String d ds)) as ->.
    { unfold matchSegmentIndex. cbn [lit]. rewrite HC.
      rewrite <- (string_app_nil_r (String d ds)) at 1.
      by apply plus_greedy. }
    done.
  - intros name Hne Hname.
    assert (allChars isDot name = true) as Hdot.
    { eapply allChars_impl; [|exact Hname]. intros c Hc.
      by destruct c as [[] [] [] [] [] [] [] []]. }
    destruct name as [|a r]; [done|].
    pose proof Hname as Hname'. cbn [allChars] in Hname'.
    apply andb_true_iff in Hname' as [Ha _]. apply negb_true_iff in Ha.
    assert (trim (String c0 (String d ds +:+ " - " +:+ String a r))
            = String c0 (String d ds +:+ " - " +:+ String a r)) as Ht.
    { destruct (allChars_snoc _ (String a r) ltac:(done) Hname) as (s' & c & E & Hc).
      apply negb_true_iff in Hc.
      eapply (trim_id _ c); [done..|]. rewrite E.
      by rewrite <- string_app_cons, <- !string_app_assoc. }
    unfold getZoneInfo. rewrite Ht.
    rewrite string_app_cons.
    assert (matchWord "Bonus" (String c0 (String d (ds +:+ " - " +:+ String a r)))
            = None) as ->.
    { unfold matchWord. cbn [lit]. by rewrite HB. }
    assert (matchWord "Course" (String c0 (String d (ds +:+ " - " +:+ String a r)))
            = None) as ->.
    { unfold matchWord. cbn [lit]. by rewrite HC, isDigit_not_o. }
    assert (matchSegment (String c0 (String d (ds +:+ " - " +:+ String a r)))
            = Some (String d ds, String a r)) as ->.
    { unfold matchSegment. cbn [lit]. rewrite HC. rewrite <- string_app_cons.
      apply plus_greedy; [done|done|].
      apply (star_greedy isWhiteSpace " " (String "-" (" " +:+ String a r)));
        [done|done|].
      cbn [lit]. change (eqChar_i "-" "-") with true. cbn iota.
      apply (star_greedy isWhiteSpace " " (String a r)); [done|done|].
      rewrite <- (string_app_nil_r (String a r)) at 1.
      by apply plus_greedy. }
    unfold sanitizeSegmentName.
    by rewrite (trim_word _ Hname), (removeFirstSuffix_word _ Hname),
      (trim_word _ Hname).
Qed.

Lemma classify_segment_witness :
  getZoneInfo (Some "c04 - Rooftop")
  = Some (mkZone "segment-4" "C4 - Rooftop" segment 4).
Proof.
  apply (proj2 (classify_segment "c" "04" ltac:(by right) eq_refl eq_refl)
           "Rooftop"); [done|reflexivity].
Defined.

End ZoneMore.

(** ** Zone selection *)

Module SelectionFacts.
Import Zone ZoneMore Selection.

Lemma zoneLe_iff (a b : ZoneInfo) :
  zoneLe a b <->
  (rank a < rank b)%Z \/ (rank a = rank b /\ (order a <= order b)%N).
Proof.
  unfold zoneLe, compareZones.
  destruct (Z.eqb_spec (rank a - rank b) 0); lia.
Qed.

Lemma zoneLe_trans (a b c : ZoneInfo) : zoneLe a b -> zoneLe b c -> zoneLe a c.
Proof. rewrite !zoneLe_iff. lia. Qed.

Lemma zoneLe_total (a b : ZoneInfo) : zoneLe a b \/ zoneLe b a.
Proof. rewrite !zoneLe_iff. lia. Qed.

Lemma insertZone_perm (a : ZoneInfo) (l : list ZoneInfo) :
  insertZone a l ≡ₚ a :: l.
Proof.
  induction l as [|b l IH]; simpl; [done|].
  destruct (_ <=? _)%Z; [done|]. rewrite IH. apply Permutation_swap.
Qed.

Lemma sortZones_perm (l : list ZoneInfo) : sortZones l ≡ₚ l.
Proof.
  induction l as [|a l IH]; simpl; [done|].
  by rewrite insertZone_perm, IH.
Qed.

Lemma insertZone_sorted (a : ZoneInfo) (l : list ZoneInfo) :
  StronglySorted zoneLe l -> StronglySorted zoneLe (insertZone a l).
Proof.
  induction 1 as [|b l Hl IH Hb]; simpl.
  - repeat constructor.
  - destruct (Z.leb_spec (compareZones a b) 0) as [Hab|Hab].
    + constructor; [by constructor|].
      constructor; [done|].
      eapply Forall_impl; [exact Hb|]. intros c Hc.
      by eapply zoneLe_trans.
    + constructor; [done|].
      rewrite insertZone_perm. constructor; [|done].
      destruct (zoneLe_total a b) as [H|H]; [|done].
      unfold zoneLe in H. lia.
Qed.

Lemma sortZones_sorted (l : list ZoneInfo) : StronglySorted zoneLe (sortZones l).
Proof.
  induction l as [|a l IH]; simpl; [constructor|].
  by apply insertZone_sorted.
Qed.

Lemma mapSet_keys (k : string) (v : ZoneInfo) (m : list (string * ZoneInfo)) :
  forall k', k' ∈ map fst (mapSet k v m) <-> k' = k \/ k' ∈ map fst m.
Proof.
  induction m as [|[k0 v0] m IH]; intros k'; simpl.
  - rewrite list_elem_of_singleton, elem_of_nil. tauto.
  - destruct (String.eqb_spec k0 k) as [-> | Hne]; simpl.
    + rewrite !elem_of_cons. tauto.
    + rewrite !elem_of_cons, IH. tauto.
Qed.

Lemma mapSet_NoDup (k : string) (v : ZoneInfo) (m : list (string * ZoneInfo)) :
  NoDup (map fst m) -> NoDup (map fst (mapSet k v m)).
Proof.
  induction m as [|[k0 v0] m IH]; simpl.
  - intros _. by apply NoDup_singleton.
  - intros [Hk0 Hm]%NoDup_cons.
    destruct (String.eqb_spec k0 k) as [-> | Hne]; simpl.
    + by apply NoDup_cons.
    + apply NoDup_cons. split; [|by apply IH].
      rewrite mapSet_keys. intros [-> | ?]; done.
Qed.

Lemma mapSet_entries (k : string) (v : ZoneInfo) (m : list (string * ZoneInfo)) :
  forall e, e ∈ mapSet k v m -> e = (k, v) \/ e ∈ m.
Proof.
  induction m as [|[k0 v0] m IH]; intros e; simpl.
  - rewrite list_elem_of_singleton. by left.
  - destruct (String.eqb k0 k); rewrite !elem_of_cons.
    + tauto.
    + intros [-> | He]; [by right; left|]. apply IH in He. tauto.
Qed.

Lemma zoneMap_snoc (items : list (CsvRow * option ZoneInfo))
    (item : CsvRow * option ZoneInfo) :
  zoneMap (items ++ [item])
  = match item.2 with
    | None => zoneMap items
    | Some zone => mapSet (id zone) zone (zoneMap items)
    end.
Proof. unfold zoneMap. by rewrite foldl_app. Qed.

(** The map has one entry for each identifier met, filed under the
    identifier of the zone it holds. *)
Lemma zoneMap_spec (items : list (CsvRow * option ZoneInfo)) :
  NoDup (map fst (zoneMap items))
  /\ (forall k v, (k, v) ∈ zoneMap items ->
        k = id v /\ exists row, (row, Some v) ∈ items)
  /\ (forall row v, (row, Some v) ∈ items -> id v ∈ map fst (zoneMap items)).
Proof.
  induction items as [|[row0 z0] items (IHn & IHe & IHk)] using rev_ind.
  - split; [constructor|]. split; intros *; by rewrite ?elem_of_nil.
  - rewrite zoneMap_snoc. cbn [snd]. destruct z0 as [z0|].
    + split; [by apply mapSet_NoDup|]. split.
      * intros k v [[= -> ->] | He]%mapSet_entries.
        -- split; [done|]. exists row0. apply elem_of_app. right. by left.
        -- destruct (IHe k v He) as [-> [row Hrow]]. split; [done|].
           exists row. apply elem_of_app. by left.
      * intros row v [Hin | Hin]%elem_of_app; rewrite mapSet_keys.
        -- right. by eapply IHk.
        -- apply list_elem_of_singleton in Hin as [= -> ->]. by left.
    + split; [done|]. split.
      * intros k v He. destruct (IHe k v He) as [-> [row Hrow]]. split; [done|].
        exists row. apply elem_of_app. by left.
      * intros row v [Hin | Hin]%elem_of_app; [by eapply IHk|].
        by apply list_elem_of_singleton in Hin.
Qed.

Lemma zoneMap_ids (items : list (CsvRow * option ZoneInfo)) :
  map id (map snd (zoneMap items)) = map fst (zoneMap items).
Proof.
  destruct (zoneMap_spec items) as (_ & He & _).
  induction (zoneMap items) as [|[k v] m IH]; [done|]. simpl.
  destruct (He k v) as [-> _]; [by left|]. rewrite IH; [done|].
  intros k' v' Hin. apply He. by right.
Qed.

Lemma rowsWithZone_elem (rows : list CsvRow) (row : CsvRow) (z : option ZoneInfo) :
  (row, z) ∈ rowsWithZone rows <-> row ∈ rows /\ getZoneInfo (row !! "segment") = z.
Proof.
  unfold rowsWithZone. rewrite list_elem_of_fmap. split.
  - by intros (r & [= -> ->] & Hr).
  - intros [Hr <-]. by exists row.
Qed.

(** The options: what is known of each, and of the list. *)
Lemma zoneOptions_spec (rows : list CsvRow) :
  let opts := zoneOptions (rowsWithZone rows) in
  NoDup (map id opts)
  /\ (forall z, z ∈ opts ->
        exists row, row ∈ rows /\ getZoneInfo (row !! "segment") = Some z)
  /\ (forall row z, row ∈ rows -> getZoneInfo (row !! "segment") = Some z ->
        id z ∈ map id opts)
  /\ StronglySorted zoneLt opts.
Proof.
  intros opts.
  destruct (zoneMap_spec (rowsWithZone rows)) as (Hn & He & Hk).
  assert (opts ≡ₚ map snd (zoneMap (rowsWithZone rows))) as Hperm
    by apply sortZones_perm.
  assert (NoDup (map id opts)) as Hnd.
  { rewrite Hperm. by rewrite zoneMap_ids. }
  assert (forall z, z ∈ opts ->
            exists row, row ∈ rows /\ getZoneInfo (row !! "segment") = Some z)
    as Hfrom.
  { intros z Hz. rewrite Hperm in Hz.
    apply list_elem_of_fmap in Hz as ([k v] & -> & Hin).
    destruct (He k v Hin) as [_ [row Hrow]].
    exists row. by apply rowsWithZone_elem. }
  split; [done|]. split; [done|]. split.
  - intros row z Hrow Hz. rewrite Hperm, zoneMap_ids.
    apply (Hk row). by apply rowsWithZone_elem.
  - pose proof (sortZones_sorted (map snd (zoneMap (rowsWithZone rows)))) as Hs.
    fold (zoneOptions (rowsWithZone rows)) in Hs. fold opts in Hs.
    clear Hperm. induction Hs as [|a l Hl IH Ha]; constructor.
    + apply IH.
      * by apply NoDup_cons in Hnd as [_ ?].
      * intros z Hz. apply Hfrom. by right.
    + apply Forall_forall. intros b Hb.
      eapply Forall_forall in Ha; [|exact Hb].
      apply zoneLe_iff in Ha.
      destruct (Hfrom a) as (ra & _ & Hza); [by left|].
      destruct (Hfrom b) as (rb & _ & Hzb); [by right|].
      pose proof (getZoneInfo_id_inj _ _ _ _ Hza Hzb) as Hinj.
      simpl in Hnd. apply NoDup_cons in Hnd as [Hnotin _].
      assert (id a <> id b) as Hne.
      { intros E. apply Hnotin. rewrite E. by apply list_elem_of_fmap_2. }
      unfold zoneLt.
      destruct Ha as [? | [Hr Ho]]; [by left|]. right. split; [done|].
      destruct (decide (order a = order b)) as [Eo|]; [|lia].
      destruct Hne. apply Hinj. split; [|done].
      unfold rank in Hr. by destruct (kind a), (kind b).
Qed.

(** X18.  The zone selector lists each zone identifier once; every
    option is the zone of some row and every row with a zone has its
    identifier listed.  The options come bonuses first, then courses,
    then segments, each group in strictly ascending number. *)
Theorem zoneOptions_listing (rows : list CsvRow) :
  NoDup (map id (zoneOptions (rowsWithZone rows)))
  /\ (forall z, z ∈ zoneOptions (rowsWithZone rows) ->
        exists row, row ∈ rows /\ getZoneInfo (row !! "segment") = Some z)
  /\ (forall row z, row ∈ rows -> getZoneInfo (row !! "segment") = Some z ->
        id z ∈ map id (zoneOptions (rowsWithZone rows)))
  /\ StronglySorted zoneLt (zoneOptions (rowsWithZone rows)).
Proof. apply zoneOptions_spec. Qed.






Lemma concat_insert {A : Type} (ids : list string) (k : string) (x : A)
    (F : string -> list A) :
  NoDup ids -> k ∈ ids ->
  concat (map (fun i => if String.eqb k i then x :: F i else F i) ids)
  ≡ₚ x :: concat (map F ids).
Proof.
  induction ids as [|i ids IH]; [by intros _ ?%elem_of_nil|].
  intros [Hi Hnd]%NoDup_cons Hk. cbn [map concat].
  destruct (String.eqb_spec k i) as [-> | Hne].
  - cbn [app]. constructor. apply Permutation_app_head.
    erewrite map_ext_in; [done|]. intros j Hj. cbn beta.
    destruct (String.eqb_spec i j) as [-> |]; [|done].
    by apply list_elem_of_In in Hj.
  - apply elem_of_cons in Hk as [? | Hk]; [done|].
    rewrite IH by done. by rewrite Permutation_middle.
Qed.

Lemma filtered_cons_zone (row : CsvRow) (z : ZoneInfo) (i : string)
    (items : list (CsvRow * option ZoneInfo)) :
  truthy (Some i) = true ->
  filtered viewZones (Some i) ((row, Some z) :: items)
  = if String.eqb (id z) i then row :: filtered viewZones (Some i) items
    else filtered viewZones (Some i) items.
Proof.
  intros Ht. unfold filtered. cbn [List.filter snd idIs]. rewrite Ht.
  cbn [andb]. rewrite negb_involutive. by destruct (String.eqb (id z) i).
Qed.

Lemma filtered_partition (sel : option string)
    (items : list (CsvRow * option ZoneInfo)) (ids : list string) :
  NoDup ids ->
  (forall row z, (row, Some z) ∈ items -> id z ∈ ids) ->
  Forall (fun i => truthy (Some i) = true) ids ->
  map fst items
  ≡ₚ filtered viewMap sel items
     ++ concat (map (fun i => filtered viewZones (Some i) items) ids).
Proof.
  intros Hnd Hcover Ht. induction items as [|[row oz] items IH].
  - simpl. clear. induction ids as [|i ids IH]; [done|]. simpl. exact IH.
  - assert (map fst items
            ≡ₚ filtered viewMap sel items
               ++ concat (map (fun i => filtered viewZones (Some i) items) ids))
      as IH'.
    { apply IH. intros r z Hin. apply (Hcover r). by right. }
    destruct oz as [z|].
    + cbn [map fst]. rewrite IH'.
      replace (filtered viewMap sel ((row, Some z) :: items))
        with (filtered viewMap sel items) by done.
      erewrite (map_ext_in (fun i => filtered viewZones (Some i) ((row, Some z) :: items)));
        cycle 1.
      { intros i Hi. apply filtered_cons_zone.
        eapply Forall_forall in Ht; [exact Ht|]. by apply list_elem_of_In. }
      rewrite (concat_insert ids (id z) row
                 (fun i => filtered viewZones (Some i) items)); [|done|].
      * by rewrite Permutation_middle.
      * apply (Hcover row). by left.
    + cbn [map fst]. rewrite IH'.
      replace (filtered viewMap sel ((row, None) :: items))
        with (row :: filtered viewMap sel items) by done.
      cbn [app]. constructor. apply Permutation_app_head.
      erewrite map_ext_in; [done|]. by intros i _.
Qed.

(** X20.  The views lose no row and show none twice: the rows shown in
    the map view, together with the rows shown in the zones view under
    each option of the selector in turn, are the rows of the file, each
    one once. *)
Theorem views_partition (rows : list CsvRow) (selectedZone : option string) :
  rows ≡ₚ filtered viewMap selectedZone (rowsWithZone rows)
          ++ concat (map (fun z => filtered viewZones (Some (id z)) (rowsWithZone rows))
                         (zoneOptions (rowsWithZone rows))).
Proof.
  destruct (zoneOptions_spec rows) as (Hnd & Hfrom & Hlisted & _).
  assert (map fst (rowsWithZone rows) = rows) as Hrows.
  { unfold rowsWithZone. rewrite map_map. apply map_id. }
  rewrite <- Hrows at 1.
  rewrite <- (map_map id (fun i => filtered viewZones (Some i) (rowsWithZone rows))).
  apply filtered_partition; [done| |].
  - intros row z [Hrow Hz]%rowsWithZone_elem. by eapply Hlisted.
  - apply Forall_forall. intros i Hi.
    apply list_elem_of_fmap in Hi as (z & -> & Hz).
    destruct (Hfrom z Hz) as (row & _ & Hzone).
    apply getZoneInfo_shape in Hzone as (s' & c' & r' & _ & _ & H).
    by destruct H as [(_ & -> & _) | [(_ & -> & _) | (_ & -> & _)]].
Qed.

End SelectionFacts.

(** ** The index builder *)

Lemma string_snoc_ind (P : string -> Prop) :
  P "" -> (forall s c, P s -> P (s +:+ String c "")) -> forall s, P s.
Proof.
  intros H0 Hs s. induction s as [s IH] using string_length_ind.
  destruct (string_snoc_cases s) as [-> | (s' & c & ->)]; [done|].
  apply Hs, IH. rewrite string_app_length. simpl. lia.
Qed.

Lemma endsWith_snoc_snoc (s p : string) (c d : ascii) :
  endsWith (s +:+ String c "") (p +:+ String d "") = eqChar d c && endsWith s p.
Proof. unfold endsWith. by rewrite !string_rev_snoc. Qed.

Lemma endsWith_nil_snoc (p : string) (d : ascii) :
  endsWith "" (p +:+ String d "") = false.
Proof. unfold endsWith. by rewrite string_rev_snoc. Qed.

Lemma endsWith_app_r (p : string) : forall w, endsWith (w +:+ p) p = true.
Proof.
  induction p as [|p d IH] using string_snoc_ind; intros w.
  - unfold endsWith. by destruct (String.rev (w +:+ "")).
  - rewrite <- string_app_assoc, endsWith_snoc_snoc, IH.
    by replace (eqChar d d) with true by (symmetry; by apply eqChar_eq).
Qed.

Lemma endsWith_inv_app (p : string) :
  forall t, endsWith t p = true -> exists w, t = w +:+ p.
Proof.
  induction p as [|p d IH] using string_snoc_ind; intros t.
  - intros _. exists t. by rewrite string_app_nil_r.
  - destruct (string_snoc_cases t) as [-> | (s & c & ->)].
    + by rewrite endsWith_nil_snoc.
    + rewrite endsWith_snoc_snoc.
      intros [->%eqChar_eq [w ->]%IH]%andb_true_iff.
      exists w. by rewrite string_app_assoc.
Qed.

Lemma substring_zero (n : nat) (s : string) : String.substring n 0 s = "".
Proof.
  revert s. induction n as [|n IH]; intros [|c s]; simpl; try done.
Qed.

(** What [slice(prefix.length, -suffix.length)] cuts out. *)
Lemma slice_between (p m q : string) :
  q <> "" ->
  slice (p +:+ m +:+ q) (Z.of_nat (String.length p)) (- Z.of_nat (String.length q)) = m.
Proof.
  intros Hq. unfold slice. rewrite !string_app_length.
  set (a := String.length p). set (b := String.length m).
  assert (0 < String.length q) as Hlen by (destruct q; [done|simpl; lia]).
  set (c := String.length q) in *.
  destruct (Z.ltb_spec (Z.of_nat a) 0); [lia|].
  destruct (Z.ltb_spec (- Z.of_nat c) 0); [|lia].
  replace (Z.to_nat (Z.min (Z.of_nat a) (Z.of_nat (a + (b + c))))) with (a + 0) by lia.
  replace (Z.to_nat _) with b by lia.
  unfold a, b. by rewrite SteamFacts.substring_skip, SteamFacts.substring_prefix.
Qed.

Lemma string_app_split (a : string) :
  forall b c d, a +:+ b = c +:+ d -> String.length a <= String.length c ->
    exists m, c = a +:+ m /\ b = m +:+ d.
Proof.
  induction a as [|x a IH]; intros b c d E Hl.
  - by exists c.
  - destruct c as [|y c]; [simpl in Hl; lia|].
    rewrite !string_app_cons in E. injection E as -> E.
    destruct (IH b c d E) as (m & -> & ->); [simpl in Hl; lia|].
    by exists m.
Qed.

Module IndexFacts.
Import IndexBuilder.

Lemma classOf_fileName (m : string) :
  classOf (fileName m "Demo") = Some ("Demo", m)
  /\ classOf (fileName m "Solly") = Some ("Solly", m).
Proof.
  unfold classOf. split.
  - change (fileName m "Demo") with (prefix +:+ m +:+ "_Demo.csv").
    rewrite <- string_app_assoc, endsWith_app_r, string_app_assoc.
    by rewrite slice_between.
  - change (fileName m "Solly") with (prefix +:+ m +:+ "_Solly.csv").
    destruct (endsWith (prefix +:+ m +:+ "_Solly.csv") "_Demo.csv") eqn:E.
    { apply endsWith_inv_app in E as [w E].
      change "_Solly.csv" with ("_" +:+ "Solly.csv") in E.
      rewrite <- !string_app_assoc in E.
      by apply string_app_inj_length in E as [_ ?]. }
    rewrite <- string_app_assoc, endsWith_app_r, string_app_assoc.
    by rewrite slice_between.
Qed.

Lemma classOf_inv (file klass m : string) (c : ascii) :
  startsWith file prefix = true ->
  classOf file = Some (klass, String c m) ->
  (klass = "Demo" \/ klass = "Solly") /\ file = fileName (String c m) klass.
Proof.
  intros [u Hu]%startsWith_app. unfold classOf.
  assert (forall q, q <> "" -> endsWith file q = true ->
            slice file (Z.of_nat (String.length prefix))
                  (- Z.of_nat (String.length q)) = String c m ->
            file = prefix +:+ String c m +:+ q) as Hcut.
  { intros q Hq [w Hw]%endsWith_inv_app Hs.
    assert (String.length prefix <= String.length w) as Hlen.
    { destruct (Nat.le_gt_cases (String.length prefix) (String.length w))
        as [|Hgt]; [done|]. exfalso.
      revert Hs. unfold slice. rewrite Hw, string_app_length.
      set (a := String.length prefix) in *. set (b := String.length w) in *.
      set (n := String.length q).
      destruct (Z.ltb_spec (Z.of_nat a) 0); [lia|].
      destruct (Z.ltb_spec (- Z.of_nat n) 0).
      - replace (Z.to_nat (_ - _)) with 0 by lia. by rewrite substring_zero.
      - replace (Z.to_nat (_ - _)) with 0 by lia. by rewrite substring_zero. }
    rewrite Hw in Hu. symmetry in Hu.
    destruct (string_app_split prefix u w q Hu Hlen) as (m' & -> & ->).
    rewrite Hw, string_app_assoc in Hs. rewrite slice_between in Hs by done.
    subst m'. by rewrite Hw, string_app_assoc. }
  destruct (endsWith file "_Demo.csv") eqn:Ed.
  { intros [= <- Hs]. split; [by left|]. by apply Hcut. }
  destruct (endsWith file "_Solly.csv") eqn:Es; [|done].
  intros [= <- Hs]. split; [by right|]. by apply Hcut.
Qed.

Lemma parseName_iff (file klass m : string) :
  parseName file = Some (klass, m) <->
  m <> "" /\ (klass = "Demo" \/ klass = "Solly") /\ file = fileName m klass.
Proof.
  unfold parseName. split.
  - destruct (startsWith file prefix) eqn:Hs; [|done].
    destruct (classOf file) as [[k [|c m']]|] eqn:Hc; try done.
    intros [= <- <-]. split; [done|]. by eapply classOf_inv.
  - intros (Hm & Hk & ->). destruct m as [|c m]; [done|].
    replace (startsWith (fileName (String c m) klass) prefix) with true by done.
    destruct (classOf_fileName (String c m)) as [Hd Hs].
    by destruct Hk as [-> | ->]; [rewrite Hd|rewrite Hs].
Qed.

(** X21.  The loop keeps a file exactly when its name is
    [wr_history_<map>_<class>.csv] with a non-empty map name and the
    class [Demo] or [Solly], and reads that map and that class from it.
    A name in which prefix and suffix overlap, as [wr_history_Demo.csv],
    is skipped. *)
Theorem parseName_fileName :
  (forall file klass m : string,
     parseName file = Some (klass, m) <->
     m <> "" /\ (klass = "Demo" \/ klass = "Solly") /\ file = fileName m klass)
  /\ parseName "wr_history_Demo.csv" = None.
Proof. split; [apply parseName_iff|reflexivity]. Qed.

Lemma includes_elem (klass : string) (l : list string) :
  includes klass l = true <-> klass ∈ l.
Proof.
  unfold includes. rewrite existsb_exists. split.
  - intros (x & Hx & ->%String.eqb_eq). by apply list_elem_of_In.
  - intros H. exists klass. split; [by apply list_elem_of_In|apply String.eqb_refl].
Qed.

Lemma upsert_keys (key : string) (f : MapEntry -> MapEntry)
    (entries : list (string * MapEntry)) :
  forall k, k ∈ List.map fst (upsert key f entries)
            <-> k = key \/ k ∈ List.map fst entries.
Proof.
  induction entries as [|[k0 e0] entries IH]; intros k; simpl.
  - rewrite list_elem_of_singleton, elem_of_nil. tauto.
  - destruct (String.eqb_spec k0 key) as [-> | Hne]; simpl.
    + rewrite !elem_of_cons. tauto.
    + rewrite !elem_of_cons, IH. tauto.
Qed.

Lemma upsert_NoDup (key : string) (f : MapEntry -> MapEntry)
    (entries : list (string * MapEntry)) :
  NoDup (List.map fst entries) -> NoDup (List.map fst (upsert key f entries)).
Proof.
  induction entries as [|[k0 e0] entries IH]; simpl.
  - intros _. by apply NoDup_singleton.
  - intros [Hk0 Hm]%NoDup_cons.
    destruct (String.eqb_spec k0 key) as [-> | Hne]; simpl.
    + by apply NoDup_cons.
    + apply NoDup_cons. split; [|by apply IH].
      rewrite upsert_keys. intros [-> | ?]; done.
Qed.

(** The entries after an update: the others as they were, and that of the
    key updated, from what it was or from a fresh one. *)
Lemma upsert_entries (key : string) (f : MapEntry -> MapEntry)
    (entries : list (string * MapEntry)) :
  NoDup (List.map fst entries) ->
  forall k e, (k, e) ∈ upsert key f entries ->
    (k <> key /\ (k, e) ∈ entries)
    \/ (k = key /\ exists e0, e = f e0
         /\ ((key, e0) ∈ entries
             \/ ((key ∉ List.map fst entries) /\ e0 = mkEntry key [] ∅))).
Proof.
  induction entries as [|[k0 e0] entries IH]; intros Hnd k e; simpl.
  - intros [= -> ->]%list_elem_of_singleton. right. split; [done|].
    eexists. split; [done|]. right. split; [apply not_elem_of_nil|done].
  - simpl in Hnd. apply NoDup_cons in Hnd as [Hk0 Hnd].
    destruct (String.eqb_spec k0 key) as [-> | Hne].
    + intros [[= -> ->] | Hin]%elem_of_cons.
      * right. split; [done|]. exists e0. split; [done|]. left. by left.
      * left. split; [|by right]. intros ->. apply Hk0.
        by apply (list_elem_of_fmap_2 fst) in Hin.
    + intros [[= -> ->] | Hin]%elem_of_cons.
      * left. split; [done|]. by left.
      * destruct (IH Hnd k e Hin) as [[Hk He] | (-> & e1 & -> & He1)].
        -- left. split; [done|]. by right.
        -- right. split; [done|]. exists e1. split; [done|].
           destruct He1 as [He1 | [Hnk ->]]; [left; by right|].
           right. split; [|done]. rewrite not_elem_of_cons. split; [done|done].
Qed.

Lemma upsert_other (key : string) (f : MapEntry -> MapEntry)
    (entries : list (string * MapEntry)) (k : string) (e : MapEntry) :
  k <> key -> (k, e) ∈ entries -> (k, e) ∈ upsert key f entries.
Proof.
  intros Hne. induction entries as [|[k0 e0] entries IH]; simpl.
  - by intros ?%elem_of_nil.
  - intros [[= <- <-] | Hin]%elem_of_cons.
    + destruct (String.eqb_spec k key); [done|]. by left.
    + destruct (String.eqb k0 key); right; [done|]. by apply IH.
Qed.

Lemma upsert_self (key : string) (f : MapEntry -> MapEntry)
    (entries : list (string * MapEntry)) :
  exists e0, (key, f e0) ∈ upsert key f entries
    /\ ((key, e0) ∈ entries \/ key ∉ List.map fst entries).
Proof.
  induction entries as [|[k0 e0] entries (e1 & Hin & Hfrom)]; simpl.
  - eexists. split; [by left|]. right. apply not_elem_of_nil.
  - destruct (String.eqb_spec k0 key) as [-> | Hne].
    + exists e0. split; [by left|]. left. by left.
    + exists e1. split; [by right|].
      destruct Hfrom as [? | Hn]; [left; by right|].
      right. by rewrite not_elem_of_cons.
Qed.

Lemma NoDup_fst_unique (entries : list (string * MapEntry)) (k : string)
    (e1 e2 : MapEntry) :
  NoDup (List.map fst entries) -> (k, e1) ∈ entries -> (k, e2) ∈ entries -> e1 = e2.
Proof.
  induction entries as [|[k0 e0] entries IH]; simpl; [by intros _ ?%elem_of_nil|].
  intros [Hk0 Hnd]%NoDup_cons [[= -> ->] | H1]%elem_of_cons
         [[= <-] | H2]%elem_of_cons; try done.
  - destruct Hk0. by apply (list_elem_of_fmap_2 fst) in H2.
  - destruct Hk0. by apply (list_elem_of_fmap_2 fst) in H1.
  - by apply IH.
Qed.

Lemma addFile_snoc (names : list string) (file : string) :
  foldl addFile [] (names ++ [file]) = addFile (foldl addFile [] names) file.
Proof. by rewrite foldl_app. Qed.

Lemma entryOk_weaken (names : list string) (file key : string) (e : MapEntry) :
  entryOk names key e -> entryOk (names ++ [file]) key e.
Proof.
  intros (Hmap & Hkey & Hnd & Hne & Hk). repeat split; try done.
  - by apply Hk.
  - apply elem_of_app. left. by apply Hk.
  - by apply Hk.
  - apply Hk.
Qed.

Lemma record_classes (klass file : string) (e0 : MapEntry) :
  forall k, k ∈ classes (record klass file e0) <-> k = klass \/ k ∈ classes e0.
Proof.
  intros k. unfold record. cbn [classes].
  destruct (includes klass (classes e0)) eqn:Hi.
  - apply includes_elem in Hi. split; [by right|]. by intros [-> | ?].
  - rewrite elem_of_app, list_elem_of_singleton. tauto.
Qed.

(** Recording a file in the entry of its map, or in a fresh entry. *)
Lemma entryOk_record (names : list string) (m klass : string) (e0 : MapEntry) :
  m <> "" -> klass = "Demo" \/ klass = "Solly" ->
  entryOk names m e0 \/ e0 = mkEntry m [] ∅ ->
  entryOk (names ++ [fileName m klass]) m (record klass (fileName m klass) e0).
Proof.
  intros Hm Hklass Hfrom.
  assert (map e0 = m /\ NoDup (classes e0)
          /\ forall k,
               (k ∈ classes e0 ->
                  (k = "Demo" \/ k = "Solly") /\ fileName m k ∈ names
                  /\ files e0 !! k = Some ("data/wr-history-all/" +:+ fileName m k))
               /\ ((k ∉ classes e0) -> files e0 !! k = None))
    as (Hmap & Hnd0 & Hk0).
  { destruct Hfrom as [(? & _ & ? & _ & ?) | ->]; [done|].
    split; [done|]. split; [constructor|]. intros k. split.
    - by intros ?%elem_of_nil.
    - intros _. apply lookup_empty. }
  pose proof (record_classes klass (fileName m klass) e0) as Hmem.
  split; [done|]. split; [done|]. split; [|split].
  - unfold record. cbn [classes].
    destruct (includes klass (classes e0)) eqn:Hi; [done|].
    apply NoDup_app. split; [done|]. split; [|apply NoDup_singleton].
    intros k Hk ->%list_elem_of_singleton.
    apply includes_elem in Hk. congruence.
  - intros E. assert (klass ∈ classes (record klass (fileName m klass) e0)) as Habs
      by (apply Hmem; by left).
    rewrite E in Habs. by apply elem_of_nil in Habs.
  - intros k. rewrite Hmem. unfold record. cbn [files]. split.
    + intros Hk. destruct (decide (k = klass)) as [-> | Hne].
      * split; [done|]. split; [apply elem_of_app; right; by left|].
        by rewrite lookup_insert_eq.
      * destruct Hk as [? | Hk]; [done|].
        destruct (proj1 (Hk0 k) Hk) as (? & ? & ?).
        split; [done|]. split; [apply elem_of_app; by left|].
        by rewrite lookup_insert_ne.
    + intros Hk. rewrite lookup_insert_ne by (intros ->; apply Hk; by left).
      apply Hk0. intros ?. apply Hk. by right.
Qed.

(** What the loop keeps true of the [Map], [names] being the files gone
    through. *)
Lemma entries_inv (names : list string) :
  NoDup (List.map fst (foldl addFile [] names))
  /\ (forall key e, (key, e) ∈ foldl addFile [] names -> entryOk names key e)
  /\ (forall m k, fileName m k ∈ names -> m <> "" -> k = "Demo" \/ k = "Solly" ->
        exists e, (m, e) ∈ foldl addFile [] names /\ k ∈ classes e).
Proof.
  induction names as [|file names (IHn & IHe & IHc)] using rev_ind.
  - split; [constructor|]. split; intros *; by rewrite ?elem_of_nil.
  - rewrite addFile_snoc.
    set (entries := foldl addFile [] names) in *.
    unfold addFile. destruct (parseName file) as [[klass m]|] eqn:Hp.
    2:{ split; [done|]. split.
        - intros key e Hin. by apply entryOk_weaken, IHe.
        - intros m k [Hin | Hin]%elem_of_app Hm Hk; [by apply IHc|].
          apply list_elem_of_singleton in Hin. subst file.
          assert (parseName (fileName m k) = Some (k, m)) as E
            by by apply parseName_iff.
          congruence. }
    apply parseName_iff in Hp as (Hm & Hklass & ->).
    split; [by apply upsert_NoDup|]. split.
    + intros key e Hin.
      apply upsert_entries in Hin as [[Hne Hin] | (-> & e0 & -> & Hfrom)]; [| |done].
      * by apply entryOk_weaken, IHe.
      * apply entryOk_record; [done..|].
        destruct Hfrom as [Hin | [_ ->]]; [left; by apply IHe|by right].
    + intros m' k [Hin | Hin]%elem_of_app Hm' Hk.
      * destruct (IHc m' k Hin Hm' Hk) as (e & He & Hke).
        destruct (decide (m' = m)) as [-> | Hne].
        -- destruct (upsert_self m (record klass (fileName m klass)) entries)
             as (e0 & Hin0 & [He0 | Hnone]).
           ++ rewrite (NoDup_fst_unique entries m e e0 IHn He He0) in Hke.
              eexists. split; [exact Hin0|]. apply record_classes. by right.
           ++ destruct Hnone. by apply (list_elem_of_fmap_2 fst) in He.
        -- exists e. split; [|done]. by apply upsert_other.
      * apply list_elem_of_singleton in Hin.
        assert (parseName (fileName m' k) = Some (k, m')) as E1
          by by apply parseName_iff.
        assert (parseName (fileName m klass) = Some (klass, m)) as E2
          by by apply parseName_iff.
        rewrite Hin, E2 in E1. injection E1 as -> ->.
        destruct (upsert_self m' (record k (fileName m' k)) entries)
          as (e0 & Hin0 & _).
        eexists. split; [exact Hin0|]. apply record_classes. by left.
Qed.

Lemma insertEntry_perm (cmp : string -> string -> Z) (a : MapEntry)
    (l : list MapEntry) :
  insertEntry cmp a l ≡ₚ a :: l.
Proof.
  induction l as [|b l IH]; simpl; [done|].
  destruct (_ <=? _)%Z; [done|]. rewrite IH. apply Permutation_swap.
Qed.

Lemma sortEntries_perm (cmp : string -> string -> Z) (l : list MapEntry) :
  foldr (insertEntry cmp) [] l ≡ₚ l.
Proof.
  induction l as [|a l IH]; simpl; [done|].
  by rewrite insertEntry_perm, IH.
Qed.

(** The classes of an entry, once sorted. *)
Lemma sortClasses_cases (l : list string) :
  NoDup l -> l <> [] -> (forall k, k ∈ l -> k = "Demo" \/ k = "Solly") ->
  (sortClasses l = ["Demo"] \/ sortClasses l = ["Solly"]
   \/ sortClasses l = ["Demo"; "Solly"])
  /\ forall k, k ∈ sortClasses l <-> k ∈ l.
Proof.
  intros Hnd Hne Hk.
  assert (l = ["Demo"] \/ l = ["Solly"] \/ l = ["Demo"; "Solly"]
          \/ l = ["Solly"; "Demo"]) as Hl.
  { destruct l as [|a [|b [|c l]]]; [done|..].
    - destruct (Hk a ltac:(by left)) as [-> | ->]; auto.
    - apply NoDup_cons in Hnd as [Hab _]. rewrite list_elem_of_singleton in Hab.
      destruct (Hk a ltac:(by left)) as [-> | ->],
               (Hk b ltac:(right; by left)) as [-> | ->]; try done; auto.
    - exfalso. apply NoDup_cons in Hnd as [Ha Hnd].
      apply NoDup_cons in Hnd as [Hb _].
      apply not_elem_of_cons in Ha as [Hab Ha].
      apply not_elem_of_cons in Ha as [Hac _].
      apply not_elem_of_cons in Hb as [Hbc _].
      destruct (Hk a ltac:(by left)) as [-> | ->],
               (Hk b ltac:(right; by left)) as [-> | ->],
               (Hk c ltac:(right; right; by left)) as [-> | ->]; done. }
  destruct Hl as [-> | [-> | [-> | ->]]]; (split; [auto|]); intros k; try done.
  change (sortClasses ["Solly"; "Demo"]) with ["Demo"; "Solly"].
  rewrite !elem_of_cons. tauto.
Qed.

Lemma endsWith_csv (m k : string) : endsWith (fileName m k) ".csv" = true.
Proof.
  unfold fileName. rewrite <- !string_app_assoc. apply endsWith_app_r.
Qed.

(** X22.  The index has one entry for each map that has a history file
    in the listing, and no two entries for the same map.  The classes of
    an entry are [Demo], [Solly] or both, in that order, and are the
    classes for which the listing holds the file
    [wr_history_<map>_<class>.csv]; the entry records the path of each of
    these files under its class, and nothing under another key.  This
    holds whatever order [localeCompare] gives the entries. *)
Theorem index_entries (localeCompare : string -> string -> Z)
    (listing : list string) :
  NoDup (List.map map (maps localeCompare listing))
  /\ Forall (fun e =>
        map e <> ""
        /\ (classes e = ["Demo"] \/ classes e = ["Solly"]
            \/ classes e = ["Demo"; "Solly"])
        /\ forall k,
             (k ∈ classes e ->
                fileName (map e) k ∈ listing
                /\ files e !! k
                   = Some ("data/wr-history-all/" +:+ fileName (map e) k))
             /\ ((k ∉ classes e) -> files e !! k = None))
      (maps localeCompare listing)
  /\ (forall m k, m <> "" -> k = "Demo" \/ k = "Solly" ->
        fileName m k ∈ listing <->
        exists e, e ∈ maps localeCompare listing /\ map e = m /\ k ∈ classes e).
Proof.
  set (names := List.filter (fun file => endsWith file ".csv") listing).
  destruct (entries_inv names) as (Hnd & Hok & Hcover).
  assert (forall m k, fileName m k ∈ names <-> fileName m k ∈ listing) as Hnames.
  { intros m k. unfold names. rewrite !list_elem_of_In, filter_In.
    rewrite endsWith_csv. tauto. }
  assert (forall e', e' ∈ maps localeCompare listing <->
            exists key e, (key, e) ∈ foldl addFile [] names
              /\ e' = mkEntry (map e) (sortClasses (classes e)) (files e))
    as Hout.
  { intros e'. unfold maps. rewrite list_elem_of_fmap.
    setoid_rewrite sortEntries_perm. setoid_rewrite list_elem_of_fmap.
    unfold entriesOf. fold names. split.
    - intros (e & -> & [key e0] & -> & Hin). by exists key, e0.
    - intros (key & e & Hin & ->). exists e. split; [done|]. by exists (key, e). }
  assert (forall key e, (key, e) ∈ foldl addFile [] names ->
            (sortClasses (classes e) = ["Demo"] \/ sortClasses (classes e) = ["Solly"]
             \/ sortClasses (classes e) = ["Demo"; "Solly"])
            /\ forall k, k ∈ sortClasses (classes e) <-> k ∈ classes e) as Hsort.
  { intros key e (_ & _ & Hn & Hne & Hk)%Hok.
    apply sortClasses_cases; [done..|]. intros k Hin. by apply Hk. }
  split; [|split].
  - unfold maps. rewrite map_map. cbn [map].
    rewrite sortEntries_perm. unfold entriesOf. fold names.
    assert (List.map (fun x => map x) (List.map snd (foldl addFile [] names))
            = List.map fst (foldl addFile [] names)) as ->; [|done].
    clear -Hok. induction (foldl addFile [] names) as [|[key e] l IH]; [done|].
    simpl. destruct (Hok key e) as [-> _]; [by left|]. rewrite IH; [done|].
    intros k' e' Hin. apply Hok. by right.
  - apply Forall_forall. intros e' (key & e & Hin & ->)%Hout. cbn [map classes files].
    destruct (Hok key e Hin) as (-> & Hkey & _ & _ & Hk).
    destruct (Hsort key e Hin) as [Hcases Hmem].
    split; [done|]. split; [done|]. intros k. rewrite Hmem. split.
    + intros Hin'. destruct (proj1 (Hk k) Hin') as (_ & Hf & Hl).
      split; [by apply Hnames|done].
    + apply Hk.
  - intros m k Hm Hk. rewrite <- Hnames. split.
    + intros Hin. destruct (Hcover m k Hin Hm Hk) as (e & He & Hke).
      exists (mkEntry (map e) (sortClasses (classes e)) (files e)).
      split; [apply Hout; by exists m, e|]. cbn [map classes].
      split; [by destruct (Hok m e He)|]. by apply (Hsort m e He).
    + intros (e' & (key & e & Hin & ->)%Hout & Hmap & Hke).
      cbn [map classes] in *. destruct (Hok key e Hin) as (Hkey & _ & _ & _ & Hke').
      rewrite Hkey in Hmap. subst key.
      apply (Hsort m e Hin) in Hke. by apply Hke'.
Qed.

End IndexFacts.

(** ** The chart *)

Section ChartFacts.

Variable Date_parse : string -> option Z.

Lemma sortByDate_id (tl : list TimelinePoint) :
  StronglySorted pointLt (map point tl) -> Chart.sortByDate tl = tl.
Proof.
  induction tl as [|a tl IH]; [done|]. cbn [map].
  intros [Hs Ha]%StronglySorted_inv. cbn [Chart.sortByDate foldr].
  fold (Chart.sortByDate tl). rewrite IH by done.
  destruct tl as [|b tl]; [done|]. cbn [Chart.insertByDate].
  cbn [map] in Ha. apply Forall_cons in Ha as [Hab _].
  destruct (Z.leb_spec (dateValue (point a) - dateValue (point b)) 0); [done|].
  unfold pointLt in Hab. lia.
Qed.

(** X23.  The chart sorts the points it is given by date before it draws
    the step line; given the timeline, that sort changes nothing, so the
    line starts at the first point of the timeline and goes through the
    others in timeline order, two commands for each. *)
Theorem step_path_in_order {T : Type} (scaleX : Z -> T) (scaleY : number -> T)
    (rows : list CsvRow) :
  Chart.sortByDate (timeline Date_parse rows) = timeline Date_parse rows
  /\ Chart.buildStepPath scaleX scaleY (timeline Date_parse rows)
     = match timeline Date_parse rows with
       | [] => []
       | first :: rest =>
           Chart.M (scaleX (dateValue (point first)))
                   (scaleY (recordSeconds (point first)))
           :: concat (map (fun p => [Chart.H (scaleX (dateValue (point p)));
                                     Chart.V (scaleY (recordSeconds (point p)))])
                          rest)
       end.
Proof.
  assert (Chart.sortByDate (timeline Date_parse rows) = timeline Date_parse rows) as E.
  { apply sortByDate_id, timeline_sorted. }
  split; [done|]. unfold Chart.buildStepPath. by rewrite E.
Qed.

End ChartFacts.

(** ** The two versions of the decoder *)

Lemma withoutCR_id (t : string) :
  allChars (fun ch => negb (eqChar ch "013")) t = true -> withoutCR t = t.
Proof.
  induction t as [|c t IH]; [done|]. cbn [allChars withoutCR].
  intros [Hc Ht]%andb_true_iff. apply negb_true_iff in Hc.
  by rewrite Hc, IH.
Qed.

Lemma filter_all {A : Type} (f : A -> bool) (l : list A) :
  Forall (fun x => f x = true) l -> List.filter f l = l.
Proof.
  induction 1 as [|x l Hx _ IH]; [done|]. simpl. by rewrite Hx, IH.
Qed.

Lemma split_snoc_sep (sep : ascii) (s : string) :
  split sep (s +:+ String sep "") = split sep s ++ [""].
Proof.
  assert (eqChar sep sep = true) as Hsep by by apply eqChar_eq.
  induction s as [|c s IH].
  - change ("" +:+ String sep "") with (String sep ""). cbn [split].
    by rewrite Hsep.
  - rewrite string_app_cons. cbn [split]. rewrite IH.
    destruct (eqChar sep c); [done|].
    pose proof (split_nonempty sep s) as Hne.
    by destruct (split sep s).
Qed.

Lemma trimEnd_snoc_space (s : string) (c : ascii) :
  isWhiteSpace c = true -> trimEnd (s +:+ String c "") = trimEnd s.
Proof.
  intros Hc. induction s as [|a s IH].
  - change ("" +:+ String c "") with (String c ""). simpl. by rewrite Hc.
  - rewrite string_app_cons. cbn [trimEnd]. by rewrite IH.
Qed.

Lemma trimStart_length (s : string) : String.length (trimStart s) <= String.length s.
Proof.
  induction s as [|c s IH]; [done|]. cbn [trimStart].
  destruct (isWhiteSpace c); simpl in *; lia.
Qed.

Lemma trimEnd_length (s : string) : String.length (trimEnd s) <= String.length s.
Proof.
  induction s as [|c s IH]; [done|]. cbn [trimEnd].
  destruct (trimEnd s); [destruct (isWhiteSpace c)|]; simpl in *; lia.
Qed.

Lemma trim_snoc_newline (t : string) :
  trim t = t -> trim (t +:+ String "010" "") = t.
Proof.
  intros Ht. destruct t as [|a r]; [done|].
  assert (isWhiteSpace a = false) as Ha.
  { destruct (isWhiteSpace a) eqn:E; [|done]. exfalso.
    apply (f_equal String.length) in Ht. unfold trim in Ht.
    cbn [trimStart] in Ht. rewrite E in Ht.
    pose proof (trimEnd_length (trimStart r)).
    pose proof (trimStart_length r). simpl in Ht. lia. }
  unfold trim in *. rewrite string_app_cons. cbn [trimStart] in *.
  rewrite Ha in *. rewrite <- string_app_cons.
  by rewrite trimEnd_snoc_space.
Qed.

Module CsvVersions.
Import Csv.

Lemma parseCsv_of_rows (text : string) (lines : list string) :
  parseCsvRows text = map (split ",") lines ->
  parseCsv text =
    if (length lines <=? 1)%nat then []
    else match lines with
         | first :: rest =>
             map (fun line => rowOf (split "," first) (split "," line)) rest
         | [] => []
         end.
Proof.
  intros E. unfold parseCsv. rewrite E, length_map.
  destruct (length lines <=? 1)%nat; [done|].
  destruct lines as [|first rest]; [done|]. cbn [map]. by rewrite map_map.
Qed.

(** X24.  The decoder that reads quoted fields agrees with the decoder of
    the first version, which split the trimmed text at line feeds and
    commas, on the files that one was written for: no double quote, no
    carriage return, no white space around the text and no blank line.
    Both also read the same rows when such a text is ended by a line
    feed. *)
Theorem decoders_agree (t : string) :
  allChars (fun ch => negb (eqChar ch dquote)) t = true ->
  allChars (fun ch => negb (eqChar ch "013")) t = true ->
  trim t = t ->
  Forall (fun line => hasContent (split "," line) = true) (split "010" t) ->
  parseCsv t = Earlier.parseCsv t
  /\ parseCsv (t +:+ String "010" "") = Earlier.parseCsv (t +:+ String "010" "")
  /\ parseCsv (t +:+ String "010" "") = parseCsv t.
Proof.
  intros Hq Hcr Htrim Hlines.
  assert (parseCsvRows t = map (split ",") (split "010" t)) as Hrows.
  { rewrite CsvMore.parseCsvRows_plain, withoutCR_id by done.
    apply filter_all. by apply Forall_map. }
  assert (parseCsvRows (t +:+ String "010" "") = map (split ",") (split "010" t))
    as Hrows'.
  { rewrite CsvMore.parseCsvRows_plain, withoutCR_id, split_snoc_sep;
      [|by rewrite allChars_app, Hcr|by rewrite allChars_app, Hq].
    rewrite map_app, List.filter_app. cbn [map split List.filter].
    replace (hasContent [""]) with false by done. rewrite app_nil_r.
    apply filter_all. by apply Forall_map. }
  assert (Earlier.parseCsv t =
            if (length (split "010" t) <=? 1)%nat then []
            else match split "010" t with
                 | first :: rest =>
                     map (fun line => rowOf (split "," first) (split "," line)) rest
                 | [] => []
                 end) as Hold.
  { unfold Earlier.parseCsv. by rewrite Htrim. }
  assert (Earlier.parseCsv (t +:+ String "010" "") = Earlier.parseCsv t) as Hold'.
  { unfold Earlier.parseCsv. by rewrite trim_snoc_newline, Htrim. }
  rewrite (parseCsv_of_rows _ _ Hrows), (parseCsv_of_rows _ _ Hrows'), Hold', Hold.
  done.
Qed.

Lemma decoders_agree_witness :
  parseCsv ("date,record_time" +:+ String "010" "2015-01-01,1:00.00")
  = Earlier.parseCsv ("date,record_time" +:+ String "010" "2015-01-01,1:00.00").
Proof.
  apply (decoders_agree ("date,record_time" +:+ String "010" "2015-01-01,1:00.00"));
    try reflexivity.
  repeat constructor.
Defined.

End CsvVersions.

(** ** Wiped points, downwards *)

Lemma le_lt_trans (a b x : number) :
  isNaN a = false -> lt b a = false -> lt b x = true -> lt a x = true.
Proof.
  destruct a as [| | |a], b as [| | |b], x as [| | |x]; simpl; try done.
  intros _. rewrite Z.ltb_ge, !Z.ltb_lt.
  change (a <= b -> b < x -> a < x)%Q. lra.
Qed.

Section WipedOrder.

Variable Date_parse : string -> option Z.

(** X26.  Wiping goes down the timeline: when a point is marked wiped,
    every earlier point that is at least as fast is marked wiped as
    well. *)
Theorem wiped_downward (rows : list CsvRow) (i j : nat) (A B : TimelinePoint) :
  timeline Date_parse rows !! i = Some A ->
  timeline Date_parse rows !! j = Some B ->
  i < j -> wiped B = true ->
  lt (recordSeconds (point B)) (recordSeconds (point A)) = false ->
  wiped A = true.
Proof.
  intros HA HB Hij Hw Hle.
  assert (Forall (fun d => isNaN (recordSeconds d) = false)
            (map point (timeline Date_parse rows))) as Hn.
  { apply Forall_forall. intros d Hd.
    apply list_elem_of_fmap in Hd as (p & -> & Hp).
    apply timeline_valid in Hp as [_ Hpt].
    apply toPoint_Some in Hpt as (_ & _ & _ & _ & Ht).
    by eapply parseTimeToSeconds_not_NaN. }
  assert (isNaN (recordSeconds (point A)) = false) as HnA.
  { eapply Forall_forall in Hn; [exact Hn|].
    apply list_elem_of_fmap_2. by eapply list_elem_of_lookup_2. }
  rewrite timeline_closed in *. rewrite annotateFrom_point in Hn.
  destruct (annotateFrom_wiped
    (emitted None (sortPoints (toPoints Date_parse rows)))) as [_ Hdown].
  destruct (Hdown j B HB Hw) as (k & C & Hjk & HC & Hb & Hlt).
  apply annotateFrom_lookup in HC as (C0 & HC & EC & ECb).
  destruct (annotateFrom_max _ Hn) as (_ & _ & Hup).
  apply (Hup i A k C0 HA); [lia|done|congruence|].
  rewrite EC. by eapply le_lt_trans.
Qed.

End WipedOrder.

Lemma wiped_downward_witness :
  wiped (mkTimelinePoint
    (mkPoint (sampleRow "2015-01-01" "0:48.00" "command" "")
             0 1420070400000 (Fin 48)) true false) = true.
Proof.
  apply (wiped_downward IsoDate.parse
    [ sampleRow "2015-01-01" "0:48.00" "command" "";
      sampleRow "2015-01-02" "1:00.00" "record" "";
      sampleRow "2015-01-03" "0:50.00" "command" "";
      sampleRow "2015-01-04" "0:55.00" "record" "" ] 0 2 _
    (mkTimelinePoint
       (mkPoint (sampleRow "2015-01-03" "0:50.00" "command" "")
                2 1420243200000 (Fin 50)) true false));
    try (vm_compute; reflexivity).
  lia.
Defined.
